(** * CompilerOracle: the CompileCommand directive store and its line parsers

    A shallow embedding of [src/hotspot/share/compiler/compilerOracle.cpp].

    - C strings are [string]s (the terminating NUL is implicit); a
      [const char*] walking over a line is a [LinePtr], which also records
      the case where the pointer has been moved past the terminator.
    - The process-wide statics [option_list], [any_set], [_quiet] and the
      text sent to [tty] form the [State]; every function that touches them
      passes the state explicitly.
    - The chain of [TypedMethodOptionMatcher]s linked through [_next] is a
      [list], head first.
    - The embedding follows the debug build: [assert], [ShouldNotReachHere]
      and reads the C++ code must not perform end in [Fail].
    - What the file takes from headers that are not part of it
      (compilerOracle.hpp, methodMatcher.hpp, the VM flags, the C library's
      integer conversions) is a [Variable] of the section [Oracle]. *)

From Stdlib Require Import String Ascii List ZArith NArith Bool Arith Lia.
Import ListNotations.
Local Open Scope string_scope.

(** ** Outcomes *)

Inductive Failure : Type :=
| AssertionFailure (msg : string)
| ShouldNotReachHere
| NullPointer
| ReadPastTerminator
| BufferOverflow
| UninitializedRead
| InactiveUnionMember
| OutOfFuel.

Inductive Res (A : Type) : Type :=
| Ok (a : A)
| Fail (f : Failure).

Arguments Ok {A} a.
Arguments Fail {A} f.

Definition bind {A B : Type} (r : Res A) (k : A -> Res B) : Res B :=
  match r with
  | Ok a => k a
  | Fail f => Fail f
  end.

Notation "x <- r ;; k" := (bind r (fun x => k))
  (at level 61, r at next level, right associativity).
Notation "' p <- r ;; k" := (bind r (fun x => let p := x in k))
  (at level 61, p pattern, r at next level, right associativity).

(** ** Enumerations *)

(** [enum class OptionType], generated from OPTION_TYPES. *)
Module OptionType.
Inductive t : Type := Intx | Uintx | Bool | Ccstr | Ccstrlist | Double | Unknown.

Definition eqb (a b : t) : bool :=
  match a, b with
  | Intx, Intx | Uintx, Uintx | Bool, Bool | Ccstr, Ccstr
  | Ccstrlist, Ccstrlist | Double, Double | Unknown, Unknown => true
  | _, _ => false
  end.
End OptionType.

(** [enum CompileCommand], generated from COMPILECOMMAND_OPTIONS.  The
    rows this file names are constructors of their own; [Custom n] stands
    for the n-th remaining row of the table. *)
Module CompileCommand.
Inductive t : Type :=
| Help | Quiet | Log | Print | Inline | DontInline | CompileOnly | Exclude
| Break | Option
| Custom (n : nat)
| Unknown.

Definition eqb (a b : t) : bool :=
  match a, b with
  | Help, Help | Quiet, Quiet | Log, Log | Print, Print | Inline, Inline
  | DontInline, DontInline | CompileOnly, CompileOnly | Exclude, Exclude
  | Break, Break | Option, Option | Unknown, Unknown => true
  | Custom n, Custom m => Nat.eqb n m
  | _, _ => false
  end.
End CompileCommand.

(** [enum class CompileCommandVariant]: one [print_<variant>] exists for
    each. *)
Module CompileCommandVariant.
Inductive t : Type := Trivial | Basic | Standard | Legacy.
End CompileCommandVariant.

(** ** Characters and the scanf conversions the file uses *)

Definition in_range (lo hi c : ascii) : bool :=
  Nat.leb (nat_of_ascii lo) (nat_of_ascii c)
  && Nat.leb (nat_of_ascii c) (nat_of_ascii hi).

Definition is_digit (c : ascii) : bool := in_range "0" "9" c.
Definition is_alpha (c : ascii) : bool := in_range "a" "z" c || in_range "A" "Z" c.
(** [[a-zA-Z0-9]] *)
Definition is_alnum (c : ascii) : bool := is_alpha c || is_digit c.
(** [[_a-zA-Z0-9]] *)
Definition is_ident (c : ascii) : bool := Ascii.eqb c "_" || is_alnum c.
(** [[_a-zA-Z0-9+\-]]: scanf has no escapes, so the backslash the format
    carries is a member of the set. *)
Definition is_list_char (c : ascii) : bool :=
  is_ident c || Ascii.eqb c "+" || Ascii.eqb c "\" || Ascii.eqb c "-".
(** [[ \t]] *)
Definition is_blank (c : ascii) : bool := Ascii.eqb c " " || Ascii.eqb c "009".
(** [[ /\t]] *)
Definition is_fraction_sep (c : ascii) : bool := is_blank c || Ascii.eqb c "/".
(** [isspace] in the C locale. *)
Definition isspace (c : ascii) : bool :=
  Ascii.eqb c " " || in_range "009" "013" c.

(** [%<width>[set]]: the longest prefix of [s] within the set, at most
    [width] characters. *)
Fixpoint scanset (p : ascii -> bool) (width : nat) (s : string) : string :=
  match width, s with
  | S w, String c s' => if p c then String c (scanset p w s') else EmptyString
  | _, _ => EmptyString
  end.

(** [%*[set]] has no width. *)
Definition scanset_all (p : ascii -> bool) (s : string) : string :=
  scanset p (String.length s) s.

(** [s + n] for [n <= strlen(s)]. *)
Fixpoint drop (n : nat) (s : string) : string :=
  match n, s with
  | S n', String _ s' => drop n' s'
  | _, _ => s
  end.

Definition is_empty (s : string) : bool :=
  match s with
  | EmptyString => true
  | String _ _ => false
  end.

(** [strstr(s, "::") != NULL] *)
Fixpoint has_double_colon (s : string) : bool :=
  match s with
  | String ":" (String ":" _) => true
  | String _ s' => has_double_colon s'
  | EmptyString => false
  end.

(** A [const char*] into a line: at the suffix [s] (possibly at the
    terminator, [s = ""]), or moved beyond the terminator. *)
Inductive LinePtr : Type :=
| At (s : string)
| PastTerminator.

Definition ptr_add (p : LinePtr) (n : nat) : LinePtr :=
  match p with
  | At s => if Nat.leb n (String.length s) then At (drop n s) else PastTerminator
  | PastTerminator => PastTerminator
  end.

Definition deref (p : LinePtr) : Res string :=
  match p with
  | At s => Ok s
  | PastTerminator => Fail ReadPastTerminator
  end.

(** [skip_whitespace]: [sscanf(line, "%*[ \t]%n", &whitespace_read)]. *)
Definition skip_whitespace (line : string) : nat :=
  String.length (scanset_all is_blank line).

(** [jio_snprintf] into a buffer of [buf_size] bytes truncates. *)
Definition jio_snprintf (buf_size : nat) (text : string) : string :=
  substring 0 (buf_size - 1) text.

(** ** Method patterns (methodMatcher.hpp) *)

Definition Symbol : Type := string.

Module MethodMatcher.
Inductive Mode : Type := Exact | Prefix | Suffix | Substring | Any | Unknown.

(** The fields [TypedMethodOptionMatcher::clone] copies; a NULL symbol is
    [None]. *)
Record t : Type := mk {
  _class_name : option Symbol;
  _method_name : option Symbol;
  _signature : option Symbol;
  _class_mode : Mode;
  _method_mode : Mode
}.

(** [MethodMatcher()] *)
Definition new : t := mk None None None Unknown Unknown.

(** [BasicMatcher::init(class_name, class_mode, method_name, method_mode,
    signature)] *)
Definition init (c_name : Symbol) (c_match : Mode) (m_name : Symbol)
    (m_match : Mode) (signature : option Symbol) : t :=
  mk (Some c_name) (Some m_name) signature c_match m_match.
End MethodMatcher.

(** ** Values *)

Definition intx : Type := Z.
Definition uintx : Type := N.
Definition ccstr : Type := string.
(** A [double] is kept as the decimal text handed to [atof]; the
    conversion itself is not interpreted. *)
Record double : Type := atof { decimal_text : string }.

(** The union [_u]: [zeroed] is its state after the constructor's
    [memset], the other constructors say which member was written last. *)
Inductive Value : Type :=
| zeroed
| bool_value (b : bool)
| intx_value (i : intx)
| uintx_value (u : uintx)
| double_value (d : double)
| ccstr_value (s : ccstr).

(** The template parameter [T] of [get_type_for<T>], [value<T>] and
    [set_value<T>], with one instance per explicit specialisation. *)
Class OptionValue (T : Type) : Type := {
  get_type_for : OptionType.t;
  set_value : T -> Value;
  value : Value -> Res T
}.

#[global] Instance OptionValue_intx : OptionValue Z := {
  get_type_for := OptionType.Intx;
  set_value := intx_value;
  value v := match v with intx_value i => Ok i | _ => Fail InactiveUnionMember end
}.

#[global] Instance OptionValue_uintx : OptionValue N := {
  get_type_for := OptionType.Uintx;
  set_value := uintx_value;
  value v := match v with uintx_value u => Ok u | _ => Fail InactiveUnionMember end
}.

#[global] Instance OptionValue_bool : OptionValue bool := {
  get_type_for := OptionType.Bool;
  set_value := bool_value;
  value v := match v with bool_value b => Ok b | _ => Fail InactiveUnionMember end
}.

#[global] Instance OptionValue_ccstr : OptionValue string := {
  get_type_for := OptionType.Ccstr;
  set_value := ccstr_value;
  value v := match v with ccstr_value s => Ok s | _ => Fail InactiveUnionMember end
}.

#[global] Instance OptionValue_double : OptionValue double := {
  get_type_for := OptionType.Double;
  set_value := double_value;
  value v := match v with double_value d => Ok d | _ => Fail InactiveUnionMember end
}.

(** ** Records and the state *)

(** [class TypedMethodOptionMatcher : public MethodMatcher]; [_next] is
    the tail of the list the record is an element of. *)
Record TypedMethodOptionMatcher : Type := mkTyped {
  base : MethodMatcher.t;
  _option : CompileCommand.t;
  _type : OptionType.t;
  _u : Value
}.

(** [TypedMethodOptionMatcher()] *)
Definition new_TypedMethodOptionMatcher : TypedMethodOptionMatcher :=
  mkTyped MethodMatcher.new CompileCommand.Unknown OptionType.Unknown zeroed.

(** [clone]: a fresh record with the pattern of [m]; the reference counts
    it increments are not modelled. *)
Definition clone (m : TypedMethodOptionMatcher) : TypedMethodOptionMatcher :=
  mkTyped (base m) CompileCommand.Unknown OptionType.Unknown zeroed.

(** What reaches [tty].  [print_matcher m] is the line
    [TypedMethodOptionMatcher::print] writes for [m]. *)
Inductive TtyEvent : Type :=
| print (text : string)
| print_cr (text : string)
| cr
| print_matcher (m : TypedMethodOptionMatcher)
| usage_text.

Record State : Type := mkState {
  option_list : list TypedMethodOptionMatcher;
  any_set : bool;
  _quiet : bool;
  tty : list TtyEvent
}.

Definition initial_state : State := mkState [] false false [].

Definition tty_print (events : list TtyEvent) (st : State) : State :=
  mkState (option_list st) (any_set st) (_quiet st) (tty st ++ events).

Definition dquote : ascii := "034".
Definition nul : ascii := "000".

(** [print_tip] *)
Definition print_tip : list TtyEvent :=
  [ cr;
    print_cr ("Usage: '-XX:CompileCommand=command," ++ String dquote "package/Class.method()"
              ++ String dquote "'");
    print_cr "Use:   '-XX:CompileCommand=help' for more information.";
    cr ].

(** [print_parse_error] *)
Definition print_parse_error (error_msg original_line : string) : list TtyEvent :=
  [ print_cr "CompileCommand: An error occurred during parsing";
    print_cr ("Line: " ++ original_line);
    print_cr ("Error: " ++ error_msg) ] ++ print_tip.

(** The three statements under [ttyLocker] that reject an unknown name. *)
Definition print_unrecognized (original_line : string) : list TtyEvent :=
  [ print_cr "CompileCommand: unrecognized command";
    print_cr ("  " ++ String dquote original_line ++ String dquote EmptyString) ] ++ print_tip.

(** [TypedMethodOptionMatcher::print]: the switch has a case for the five
    stored types only. *)
Definition matcher_print (m : TypedMethodOptionMatcher) : Res (list TtyEvent) :=
  match _type m with
  | OptionType.Intx | OptionType.Uintx | OptionType.Bool | OptionType.Double
  | OptionType.Ccstr => Ok [print_matcher m]
  | _ => Fail ShouldNotReachHere
  end.

(** [parse_option_type] *)
Definition parse_option_type (option_type : string) : OptionType.t :=
  if String.eqb option_type "intx" then OptionType.Intx
  else if String.eqb option_type "uintx" then OptionType.Uintx
  else if String.eqb option_type "bool" then OptionType.Bool
  else if String.eqb option_type "ccstr" then OptionType.Ccstr
  else if String.eqb option_type "ccstrlist" then OptionType.Ccstrlist
  else if String.eqb option_type "double" then OptionType.Double
  else OptionType.Unknown.

(** "ccstrlists are stores as ccstr" *)
Definition stored_type (type : OptionType.t) : OptionType.t :=
  match type with
  | OptionType.Ccstrlist => OptionType.Ccstr
  | _ => type
  end.

(** The test that guards [any_set = true]. *)
Definition sets_any (cc_option : CompileCommand.t) : bool :=
  negb (CompileCommand.eqb cc_option CompileCommand.DontInline)
  && negb (CompileCommand.eqb cc_option CompileCommand.Inline)
  && negb (CompileCommand.eqb cc_option CompileCommand.Log).

(** *** scanf calls *)

(** [sscanf(line, "%255[set]%n", token, &bytes_read) == 1] *)
Definition sscanf_token (set : ascii -> bool) (line : string) : option (string * nat) :=
  let token := scanset set 255 line in
  if is_empty token then None else Some (token, String.length token).

(** [sscanf(line, "%*[ \t]%255[set]%n", token, &bytes_read) == 1] *)
Definition sscanf_blank_token (set : ascii -> bool) (line : string) : option (string * nat) :=
  let blank := scanset_all is_blank line in
  if is_empty blank then None
  else
    let token := scanset set 255 (drop (String.length blank) line) in
    if is_empty token then None
    else Some (token, String.length blank + String.length token).

(** [sscanf(line, "%255[0-9]%*[ /\t]%255[0-9]%n", buffer[0], buffer[1],
    &bytes_read) == 2] *)
Definition sscanf_double (line : string) : option (string * string * nat) :=
  let int_part := scanset is_digit 255 line in
  if is_empty int_part then None
  else
    let line1 := drop (String.length int_part) line in
    let sep := scanset_all is_fraction_sep line1 in
    if is_empty sep then None
    else
      let frac_part := scanset is_digit 255 (drop (String.length sep) line1) in
      if is_empty frac_part then None
      else Some (int_part, frac_part,
                 String.length int_part + String.length sep + String.length frac_part).

(** *** The resource array of the ccstrlist branch *)

(** [NEW_RESOURCE_ARRAY(char, n)]: [n] cells, none written yet. *)
Definition Buffer : Type := list (option ascii).

Definition NEW_RESOURCE_ARRAY (n : nat) : Buffer := repeat None n.

(** [b[i] = c] *)
Fixpoint poke (b : Buffer) (i : nat) (c : ascii) : Res Buffer :=
  match b, i with
  | [], _ => Fail BufferOverflow
  | _ :: b', O => Ok (Some c :: b')
  | x :: b', S i' => b'' <- poke b' i' c ;; Ok (x :: b'')
  end.

(** What a [%[...]] conversion stores at [b + i]: the token and a NUL. *)
Fixpoint store_token (b : Buffer) (i : nat) (token : string) : Res Buffer :=
  match token with
  | EmptyString => poke b i nul
  | String c token' => b' <- poke b i c ;; store_token b' (S i) token'
  end.

(** The C string that starts at the first cell of [b] ([strdup]). *)
Fixpoint c_str (b : Buffer) : Res string :=
  match b with
  | [] => Fail ReadPastTerminator
  | None :: _ => Fail UninitializedRead
  | Some c :: b' =>
    if Ascii.eqb c nul then Ok EmptyString
    else s <- c_str b' ;; Ok (String c s)
  end.

(** The [while] loop of the ccstrlist branch; [next_value] and
    [end_value] are offsets into [value]. *)
Fixpoint ccstrlist_rest (fuel : nat) (line : string) (total_bytes_read : nat)
    (value : Buffer) (next_value end_value : nat) : Res (nat * Buffer) :=
  match sscanf_blank_token is_list_char line with
  | None => Ok (total_bytes_read, value)
  | Some (token, bytes_read) =>
    match fuel with
    | O => Fail OutOfFuel
    | S fuel' =>
      value1 <- store_token value next_value token ;;
      value2 <- poke value1 end_value " " ;; (* override '\0' *)
      let next_value' := next_value + bytes_read in
      ccstrlist_rest fuel' (drop bytes_read line) (total_bytes_read + bytes_read)
        value2 next_value' (next_value' - 1)
    end
  end.

(** The ccstrlist branch of [scan_value] up to its call of
    [add_option_string]: the string [set_value<ccstr>] duplicates and the
    byte count, or [None] when the first [sscanf] reads nothing. *)
Definition scan_ccstrlist (line : string) (total_bytes_read : nat)
    : Res (option (ccstr * nat)) :=
  (* Accumulates several strings into one. The internal type is ccstr. *)
  let value0 := NEW_RESOURCE_ARRAY (String.length line + 1) in
  match sscanf_token is_list_char line with
  | Some (token, bytes_read) =>
    value1 <- store_token value0 0 token ;;
    let next_value := bytes_read + 1 in
    ' (total, value2) <-
      ccstrlist_rest (String.length line) (drop bytes_read line)
        (total_bytes_read + bytes_read) value1 next_value (next_value - 1) ;;
    v <- c_str value2 ;;
    Ok (Some (v, total))
  | None => Ok None
  end.

(** What [scan_value] and [scan_flag_and_value] leave behind: the state,
    the byte count and the error buffer (empty when untouched). *)
Record Scanned : Type := mkScanned {
  scanned_state : State;
  total_bytes_read : nat;
  errorbuf : string
}.

(** The name copied by the [for] loop of [parse_compile_only]. *)
Fixpoint copy_name (method_sep : ascii) (room : nat) (line : string) : string :=
  match room, line with
  | S room', String c line' =>
    if negb (Ascii.eqb c method_sep) && negb (Ascii.eqb c ",") && negb (isspace c)
    then String (if Ascii.eqb c "." then "/"%char else c) (copy_name method_sep room' line')
    else EmptyString
  | _, _ => EmptyString
  end.

Definition first_char_is (c : ascii) (line : string) : bool :=
  match line with
  | String c' _ => Ascii.eqb c' c
  | EmptyString => false
  end.

(** [*line == ',' || *line == '\0' || (line[0] == '.' && line[1] == '\0')] *)
Definition directive_ends (line : string) : bool :=
  match line with
  | EmptyString => true
  | String c rest =>
    Ascii.eqb c "," || (Ascii.eqb c "." && is_empty rest)
  end.

(** ** A sample configuration

    The option table, the pattern matcher and the integer conversions live
    outside this file; the definitions below give each a small instance on
    which the parsers and the queries can be run. *)
Module Sample.

(** Modelled from the spec: the target, "owner-name + routine-name", as
    the pair of the two names. *)
Definition methodHandle : Type := (string * string)%type.

(** Modelled from the spec: a name matcher is "exact name" or "any"; the
    wildcard modes accept nothing here. *)
Definition name_matches (mode : MethodMatcher.Mode) (pattern : option Symbol)
    (name : string) : bool :=
  match mode, pattern with
  | MethodMatcher.Any, _ => true
  | MethodMatcher.Exact, Some p => String.eqb p name
  | _, _ => false
  end.

(** Modelled from the spec: [MethodMatcher::matches], the pattern accepts
    a target when its owner matcher and its member matcher both do. *)
Definition matches (m : MethodMatcher.t) (method : methodHandle) : bool :=
  name_matches (MethodMatcher._class_mode m) (MethodMatcher._class_name m) (fst method)
  && name_matches (MethodMatcher._method_mode m) (MethodMatcher._method_name m) (snd method).

Fixpoint commas_to_spaces (s : string) : string :=
  match s with
  | EmptyString => EmptyString
  | String c s' => String (if Ascii.eqb c "," then " "%char else c) (commas_to_spaces s')
  end.

Definition is_name_char (c : ascii) : bool :=
  negb (is_blank c) && negb (Ascii.eqb c ".") && negb (Ascii.eqb c ":").

Definition mode_of (name : string) : MethodMatcher.Mode :=
  if String.eqb name "*" then MethodMatcher.Any else MethodMatcher.Exact.

(** Modelled from the spec: [MethodMatcher::parse_method_pattern] for the
    patterns [Owner.member] and [Owner::member] without signature.  The
    separators after the pattern are read as blanks, [*] is "any". *)
Definition parse_method_pattern_base (line : string)
    : (MethodMatcher.t + string) * string :=
  let line0 := commas_to_spaces line in
  let line1 := drop (skip_whitespace line0) line0 in
  let class_name := scanset_all is_name_char line1 in
  let line2 := drop (String.length class_name) line1 in
  let line3 :=
    match line2 with
    | String "." rest => Some rest
    | String ":" (String ":" rest) => Some rest
    | _ => None
    end in
  match line3 with
  | None =>
    (inr (if is_empty line1 then "Method pattern missing from command"
          else "Could not parse method pattern"), line1)
  | Some line4 =>
    let method_name := scanset_all is_name_char line4 in
    if is_empty class_name || is_empty method_name
    then (inr "Could not parse method pattern", line1)
    else
      (inl (MethodMatcher.init class_name (mode_of class_name)
              method_name (mode_of method_name) None),
       drop (String.length method_name) line4)
  end.

(** Modelled from the spec: a directive table with the commands this file
    names and one custom option per value kind. *)
Definition commands : list CompileCommand.t :=
  [ CompileCommand.Help; CompileCommand.Quiet; CompileCommand.Log;
    CompileCommand.Print; CompileCommand.Inline; CompileCommand.DontInline;
    CompileCommand.CompileOnly; CompileCommand.Exclude; CompileCommand.Break;
    CompileCommand.Option;
    CompileCommand.Custom 0; CompileCommand.Custom 1; CompileCommand.Custom 2;
    CompileCommand.Custom 3; CompileCommand.Custom 4; CompileCommand.Custom 5 ].

Definition command_names (c : CompileCommand.t) : string :=
  match c with
  | CompileCommand.Help => "help"
  | CompileCommand.Quiet => "quiet"
  | CompileCommand.Log => "log"
  | CompileCommand.Print => "print"
  | CompileCommand.Inline => "inline"
  | CompileCommand.DontInline => "dontinline"
  | CompileCommand.CompileOnly => "compileonly"
  | CompileCommand.Exclude => "exclude"
  | CompileCommand.Break => "break"
  | CompileCommand.Option => "option"
  | CompileCommand.Custom 0 => "ReplayInline"
  | CompileCommand.Custom 1 => "MaxNodeLimit"
  | CompileCommand.Custom 2 => "TypeProfileLevel"
  | CompileCommand.Custom 3 => "TestOptionStr"
  | CompileCommand.Custom 4 => "DisableIntrinsic"
  | CompileCommand.Custom 5 => "TestOptionDouble"
  | _ => "unknown"
  end.

Definition command2types (c : CompileCommand.t) : OptionType.t :=
  match c with
  | CompileCommand.Log | CompileCommand.Print | CompileCommand.Inline
  | CompileCommand.DontInline | CompileCommand.CompileOnly
  | CompileCommand.Exclude | CompileCommand.Break => OptionType.Bool
  | CompileCommand.Custom 0 => OptionType.Bool
  | CompileCommand.Custom 1 => OptionType.Intx
  | CompileCommand.Custom 2 => OptionType.Uintx
  | CompileCommand.Custom 3 => OptionType.Ccstr
  | CompileCommand.Custom 4 => OptionType.Ccstrlist
  | CompileCommand.Custom 5 => OptionType.Double
  | _ => OptionType.Unknown
  end.

Definition command2variant (c : CompileCommand.t) : CompileCommandVariant.t :=
  match c with
  | CompileCommand.Help | CompileCommand.Quiet => CompileCommandVariant.Trivial
  | CompileCommand.Log | CompileCommand.Print | CompileCommand.Inline
  | CompileCommand.DontInline | CompileCommand.CompileOnly
  | CompileCommand.Exclude | CompileCommand.Break => CompileCommandVariant.Basic
  | CompileCommand.Custom _ => CompileCommandVariant.Standard
  | _ => CompileCommandVariant.Legacy
  end.

(** The names [parse_option_type] reads back. *)
Definition optiontype_names (type : OptionType.t) : string :=
  match type with
  | OptionType.Intx => "intx"
  | OptionType.Uintx => "uintx"
  | OptionType.Bool => "bool"
  | OptionType.Ccstr => "ccstr"
  | OptionType.Ccstrlist => "ccstrlist"
  | OptionType.Double => "double"
  | OptionType.Unknown => "unknown"
  end.

Fixpoint decimal (acc : N) (digits : string) : N :=
  match digits with
  | EmptyString => acc
  | String c digits' => decimal (10 * acc + N.of_nat (nat_of_ascii c - 48)) digits'
  end.

(** Modelled from the spec: "platform-width decimal token": an unsigned
    decimal numeral. *)
Definition sscanf_uintx (line : string) : option (uintx * nat) :=
  let digits := scanset_all is_digit line in
  if is_empty digits then None
  else Some (decimal 0 digits, String.length digits).

(** Modelled from the spec: the same with an optional minus sign. *)
Definition sscanf_intx (line : string) : option (intx * nat) :=
  match line with
  | String "-" rest =>
    match sscanf_uintx rest with
    | Some (v, n) => Some (Z.opp (Z.of_N v), S n)
    | None => None
    end
  | _ =>
    match sscanf_uintx line with
    | Some (v, n) => Some (Z.of_N v, n)
    | None => None
    end
  end.

(** A target and some records for the runs below. *)
Definition foo_bar : methodHandle := ("Foo", "bar").

Definition pattern (class_name method_name : string) : TypedMethodOptionMatcher :=
  mkTyped (MethodMatcher.init class_name (mode_of class_name)
             method_name (mode_of method_name) None)
    CompileCommand.Unknown OptionType.Unknown zeroed.

Definition bool_record (class_name method_name : string)
    (option : CompileCommand.t) (b : bool) : TypedMethodOptionMatcher :=
  mkTyped (MethodMatcher.init class_name (mode_of class_name)
             method_name (mode_of method_name) None)
    option OptionType.Bool (bool_value b).

(** The store after the line "option,Foo.bar,bool,exclude,false". *)
Definition excluded_false : State :=
  mkState [bool_record "Foo" "bar" CompileCommand.Exclude false] true false [].

(** The store after the line "option,Foo.bar,bool,log,false", without
    what was printed. *)
Definition logged_false : State :=
  mkState [bool_record "Foo" "bar" CompileCommand.Log false] false false [].

End Sample.

Section Oracle.

Set Default Proof Using "Type".

(** The target handed to the queries, and [MethodMatcher::matches]. *)
Variable methodHandle : Type.
Variable matches : MethodMatcher.t -> methodHandle -> bool.

(** [MethodMatcher::parse_method_pattern(line, error_msg, matcher)]: the
    pattern ([inl]) or the error message ([inr]), and the line it leaves. *)
Variable parse_method_pattern_base : string -> (MethodMatcher.t + string) * string.

(** The rows of COMPILECOMMAND_OPTIONS in table order, and the arrays
    generated from them. *)
Variable commands : list CompileCommand.t.
Variable command_names : CompileCommand.t -> string.
Variable command2types : CompileCommand.t -> OptionType.t.
Variable command2variant : CompileCommand.t -> CompileCommandVariant.t.
Variable optiontype_names : OptionType.t -> string.

(** VM flags. *)
Variable LogCompilation : bool.
Variable Verbose : bool.
Variable PrintVMOptions : bool.

(** [sscanf(line, INTX_FORMAT "%n", &value, &bytes_read) == 1] and its
    unsigned counterpart. *)
Variable sscanf_intx : string -> option (intx * nat).
Variable sscanf_uintx : string -> option (uintx * nat).

(** The default of the parameter [verify_type], declared in
    compilerOracle.hpp. *)
Variable verify_type_default : bool.

(** *** The store *)

(** [TypedMethodOptionMatcher::match] on the chain that starts at
    [current]. *)
Fixpoint match_ (current : list TypedMethodOptionMatcher) (method : methodHandle)
    (option : CompileCommand.t) (type : OptionType.t)
    : Datatypes.option TypedMethodOptionMatcher :=
  match current with
  | [] => None
  | m :: next =>
    if CompileCommand.eqb (_option m) option then
      if matches (base m) method then Some m
      else match_ next method option type
    else match_ next method option type
  end.

(** [add_option_string<T>].  [matcher] is a pointer to a record that is
    not on the chain yet, or NULL ([None]). *)
Definition add_option_string {T : Type} `{OptionValue T}
    (matcher : option TypedMethodOptionMatcher) (cc_option : CompileCommand.t)
    (v : T) (st : State) : Res State :=
  match matcher, option_list st with
  | None, [] => Fail (AssertionFailure "No circular lists please")
  | _, _ =>
    let st1 :=
      if CompileCommand.eqb cc_option CompileCommand.Log && negb LogCompilation
      then tty_print
        [ print_cr "Warning:  +LogCompilation must be enabled in order for individual methods to be logged with ";
          print_cr "          CompileCommand=log,<method pattern>" ] st
      else st in
    let type := stored_type (command2types cc_option) in
    if negb (OptionType.eqb type get_type_for) then Fail (AssertionFailure "sanity")
    else
      match matcher with
      | None => Fail NullPointer
      | Some m =>
        Ok (mkState
              (mkTyped (base m) cc_option type (set_value v) :: option_list st1)
              (if sets_any cc_option then true else any_set st1)
              (_quiet st1) (tty st1))
      end
  end.

(** [CompilerOracle::has_option_value<T>]; the reference [value] is an
    argument and the second component of the result. *)
Definition has_option_value {T : Type} `{OptionValue T} (method : methodHandle)
    (option : CompileCommand.t) (v : T) (verify_type : bool) (st : State)
    : Res (bool * T) :=
  let type := stored_type (command2types option) in
  let lookup :=
    match option_list st with
    | [] => Ok (false, v)
    | _ =>
      match match_ (option_list st) method option type with
      | Some m => v' <- value (_u m) ;; Ok (true, v')
      | None => Ok (false, v)
      end
    end in
  if verify_type then
    if negb (OptionType.eqb type get_type_for) then Ok (false, v) else lookup
  else
    if negb (OptionType.eqb type get_type_for)
    then Fail (AssertionFailure "Value type must match command type")
    else lookup.

(** [check_predicate] *)
Definition check_predicate (command : CompileCommand.t) (method : methodHandle)
    (st : State) : Res bool :=
  r <- has_option_value method command false verify_type_default st ;;
  if fst r then Ok (snd r) else Ok false.

(** [has_command] on the chain [m]. *)
Fixpoint has_command_from (m : list TypedMethodOptionMatcher)
    (command : CompileCommand.t) : bool :=
  match m with
  | [] => false
  | r :: next =>
    if CompileCommand.eqb (_option r) command then true
    else has_command_from next command
  end.

Definition has_command (command : CompileCommand.t) (st : State) : bool :=
  has_command_from (option_list st) command.

(** [CompilerOracle::has_any_option] *)
Definition has_any_option (st : State) : bool := any_set st.

(** [CompilerOracle::should_exclude] *)
Definition should_exclude (method : methodHandle) (st : State) : Res bool :=
  excluded <- check_predicate CompileCommand.Exclude method st ;;
  if excluded then Ok true
  else if has_command CompileCommand.CompileOnly st then
    only <- check_predicate CompileCommand.CompileOnly method st ;;
    Ok (negb only)
  else Ok false.

(** [CompilerOracle::should_log] *)
Definition should_log (method : methodHandle) (st : State) : Res bool :=
  if negb LogCompilation then Ok false
  else if negb (has_command CompileCommand.Log st) then Ok true
  else check_predicate CompileCommand.Log method st.

(** [CompilerOracle::has_option] *)
Definition has_option (method : methodHandle) (option : CompileCommand.t)
    (st : State) : Res bool :=
  r <- has_option_value method option false verify_type_default st ;;
  Ok (snd r).

(** [CompilerOracle::should_inline] *)
Definition should_inline (method : methodHandle) (st : State) : Res bool :=
  check_predicate CompileCommand.Inline method st.

(** [CompilerOracle::should_not_inline]; [||] evaluates its right operand
    only when the left one is false. *)
Definition should_not_inline (method : methodHandle) (st : State) : Res bool :=
  dont <- check_predicate CompileCommand.DontInline method st ;;
  if dont then Ok true else check_predicate CompileCommand.Exclude method st.

(** [CompilerOracle::should_print] *)
Definition should_print (method : methodHandle) (st : State) : Res bool :=
  check_predicate CompileCommand.Print method st.

(** [CompilerOracle::should_print_methods] *)
Definition should_print_methods (st : State) : bool :=
  has_command CompileCommand.Print st.

(** [CompilerOracle::should_break_at] *)
Definition should_break_at (method : methodHandle) (st : State) : Res bool :=
  check_predicate CompileCommand.Break method st.

(** *** Scanning *)

(** [parse_command_name]: the command and [*bytes_read]. *)
Definition parse_command_name (line : string) : CompileCommand.t * nat :=
  match sscanf_token is_alnum line with
  | Some (command, bytes_read) =>
    (match find (fun c => String.eqb command (command_names c)) commands with
     | Some c => c
     | None => CompileCommand.Unknown
     end, bytes_read)
  | None => (CompileCommand.Unknown, 0)
  end.

Definition cannot_read (ccname type_str : string) : string :=
  "  Value cannot be read for flag " ++ ccname ++ " of type " ++ type_str.

(** [scan_value].  [total_bytes_read] is the counter the caller passes by
    reference. *)
Definition scan_value (type : OptionType.t) (line : LinePtr) (total_bytes_read : nat)
    (matcher : option TypedMethodOptionMatcher) (cc_option : CompileCommand.t)
    (buf_size : nat) (st : State) : Res Scanned :=
  let ccname := command_names cc_option in
  let type_str := optiontype_names type in
  line0 <- deref line ;;
  let skipped := skip_whitespace line0 in
  let line := drop skipped line0 in
  let total_bytes_read := total_bytes_read + skipped in
  let failed (text : string) := Ok (mkScanned st total_bytes_read (jio_snprintf buf_size text)) in
  match type with
  | OptionType.Intx =>
    match sscanf_intx line with
    | Some (v, bytes_read) =>
      st' <- add_option_string matcher cc_option v st ;;
      Ok (mkScanned st' (total_bytes_read + bytes_read) EmptyString)
    | None => failed (cannot_read ccname type_str ++ " ")
    end
  | OptionType.Uintx =>
    match sscanf_uintx line with
    | Some (v, bytes_read) =>
      st' <- add_option_string matcher cc_option v st ;;
      Ok (mkScanned st' (total_bytes_read + bytes_read) EmptyString)
    | None => failed (cannot_read ccname type_str)
    end
  | OptionType.Ccstr =>
    match sscanf_token is_ident line with
    | Some (v, bytes_read) =>
      st' <- add_option_string matcher cc_option v st ;;
      Ok (mkScanned st' (total_bytes_read + bytes_read) EmptyString)
    | None => failed (cannot_read ccname type_str)
    end
  | OptionType.Ccstrlist =>
    r <- scan_ccstrlist line total_bytes_read ;;
    match r with
    | Some (v, total) =>
      st' <- add_option_string matcher cc_option v st ;;
      Ok (mkScanned st' total EmptyString)
    | None => failed (cannot_read ccname type_str)
    end
  | OptionType.Bool =>
    if is_empty line then
      st' <- add_option_string matcher cc_option true st ;;
      Ok (mkScanned st' total_bytes_read EmptyString)
    else
      match sscanf_token is_alpha line with
      | Some (v, bytes_read) =>
        if String.eqb v "true" then
          st' <- add_option_string matcher cc_option true st ;;
          Ok (mkScanned st' (total_bytes_read + bytes_read) EmptyString)
        else if String.eqb v "false" then
          st' <- add_option_string matcher cc_option false st ;;
          Ok (mkScanned st' (total_bytes_read + bytes_read) EmptyString)
        else failed (cannot_read ccname type_str)
      | None => failed (cannot_read ccname type_str)
      end
  | OptionType.Double =>
    match sscanf_double line with
    | Some (int_part, frac_part, bytes_read) =>
      let v := jio_snprintf 512 (int_part ++ "." ++ frac_part) in
      st' <- add_option_string matcher cc_option (atof v) st ;;
      Ok (mkScanned st' (total_bytes_read + bytes_read) EmptyString)
    | None => failed (cannot_read ccname type_str)
    end
  | OptionType.Unknown =>
    failed ("  Type " ++ type_str ++ " not supported ")
  end.

(** [scan_flag_and_value]; [total_bytes_read] starts at 0. *)
Definition scan_flag_and_value (type : OptionType.t) (line : string)
    (matcher : option TypedMethodOptionMatcher) (buf_size : nat) (st : State)
    : Res Scanned :=
  match sscanf_blank_token is_alnum line with
  | Some (flag, bytes_read) =>
    let line1 := ptr_add (ptr_add (At line) bytes_read) 1 in (* skip space or , *)
    let total := bytes_read + 1 in
    let cc_option := fst (parse_command_name flag) in
    if CompileCommand.eqb cc_option CompileCommand.Unknown then
      Ok (mkScanned st total (jio_snprintf buf_size ("  Flag name unknown: " ++ flag)))
    else
      let optiontype := command2types cc_option in
      if negb (OptionType.eqb optiontype type) then
        Ok (mkScanned st total
              (jio_snprintf buf_size
                 ("  Flag " ++ flag ++ " with type " ++ optiontype_names optiontype
                  ++ " doesn't match supplied type " ++ optiontype_names type)))
      else scan_value type line1 total matcher cc_option buf_size st
  | None =>
    Ok (mkScanned st 0
          (jio_snprintf buf_size
             ("  Flag name for type " ++ optiontype_names type ++ " should be alphanumeric ")))
  end.

(** [TypedMethodOptionMatcher::parse_method_pattern]: a fresh record
    around the pattern, or NULL and the message. *)
Definition parse_method_pattern (line : string)
    : (TypedMethodOptionMatcher + string) * string :=
  match parse_method_pattern_base line with
  | (inl pattern, rest) =>
    (inl (mkTyped pattern CompileCommand.Unknown OptionType.Unknown zeroed), rest)
  | (inr error_msg, rest) => (inr error_msg, rest)
  end.

(** "CompileCommand: %s " followed by [matcher->print()] for the record
    just linked, which is the head of the chain. *)
Definition print_added (command : CompileCommand.t) (trailer : list TtyEvent)
    (st : State) : Res State :=
  if _quiet st then Ok st
  else
    match option_list st with
    | [] => Fail NullPointer
    | m :: _ =>
      line <- matcher_print m ;;
      Ok (tty_print
            ([print ("CompileCommand: " ++ command_names command ++ " ")] ++ line ++ trailer)
            st)
    end.

(** How one pass through the body of the [while] loop over the trailing
    options of an [option] line ends: the loop condition fails, the body
    executes [return], or the body reaches its end with [line] advanced. *)
Inductive ClauseResult : Type :=
| LoopExit (st : State)
| Returned (st : State)
| NextClause (line : string) (st : State).

(** The loop condition and the loop body. *)
Definition option_clause (archetype : TypedMethodOptionMatcher)
    (original : string) (line : string) (st : State) : Res ClauseResult :=
  match sscanf_token is_alnum line with
  | None => Ok (LoopExit st)
  | Some (option_type, bytes_read) =>
    let line1 := drop bytes_read line in
    (* typed_matcher is used as a blueprint for each option *)
    let typed_matcher := clone archetype in
    let type := parse_option_type option_type in
    if negb (OptionType.eqb type OptionType.Unknown) then
      (* Type (2) option: parse flag name and value. *)
      r <- scan_flag_and_value type line1 (Some typed_matcher) 1024 st ;;
      if negb (is_empty (errorbuf r)) then
        Ok (Returned (tty_print (print_parse_error (errorbuf r) original) (scanned_state r)))
      else
        let line2 := ptr_add (At line1) (total_bytes_read r) in
        st2 <- print_added CompileCommand.Option [] (scanned_state r) ;;
        line3 <- deref line2 ;;
        Ok (NextClause (drop (skip_whitespace line3) line3) st2)
    else
      (* Type (1) option: bool value = true is implied. *)
      let cc_option := fst (parse_command_name option_type) in
      if CompileCommand.eqb cc_option CompileCommand.Unknown then
        Ok (Returned (tty_print (print_unrecognized original) st))
      else
        st1 <- add_option_string (Some typed_matcher) cc_option true st ;;
        st2 <- print_added CompileCommand.Option [] st1 ;;
        Ok (NextClause (drop (skip_whitespace line1) line1) st2)
  end.

(** The loop. *)
Fixpoint option_clauses (fuel : nat) (archetype : TypedMethodOptionMatcher)
    (original : string) (line : string) (st : State) : Res State :=
  r <- option_clause archetype original line st ;;
  match r with
  | LoopExit st' => Ok st'
  | Returned st' => Ok st'
  | NextClause line' st' =>
    match fuel with
    | O => Fail OutOfFuel
    | S fuel' => option_clauses fuel' archetype original line' st'
    end
  end.

(** [CompilerOracle::parse_from_line] *)
Definition parse_from_line (line : string) (st : State) : Res State :=
  if is_empty line then Ok st
  else if first_char_is "#" line then Ok st
  else
    let original := line in
    let (command, bytes_read) := parse_command_name line in
    let line1 := ptr_add (At line) bytes_read in
    match command with
    | CompileCommand.Unknown => Ok (tty_print (print_unrecognized original) st)
    | CompileCommand.Quiet => Ok (mkState (option_list st) (any_set st) true (tty st))
    | CompileCommand.Help => Ok (tty_print [usage_text] st)
    | CompileCommand.Option =>
      line2 <- deref (ptr_add line1 1) ;; (* skip the ',' *)
      match parse_method_pattern line2 with
      | (inr error_msg, _) => Ok (tty_print (print_parse_error error_msg original) st)
      | (inl archetype, line3) =>
        let line4 := drop (skip_whitespace line3) line3 in
        option_clauses (String.length line4) archetype original line4 st
      end
    | _ =>
      match command2variant command with
      | CompileCommandVariant.Basic =>
        line2 <- deref line1 ;;
        match parse_method_pattern line2 with
        | (inr error_msg, _) => Ok (tty_print (print_parse_error error_msg original) st)
        | (inl matcher, _) =>
          st1 <- add_option_string (Some matcher) command true st ;;
          print_added command [cr] st1
        end
      | CompileCommandVariant.Standard =>
        let type := command2types command in
        line2 <- deref (ptr_add line1 1) ;; (* skip leading ',' *)
        let (parsed, line3) := parse_method_pattern line2 in
        let matcher := match parsed with inl m => Some m | inr _ => None end in
        r <- scan_value type (At line3) 0 matcher command 1024 st ;;
        if negb (is_empty (errorbuf r)) then
          Ok (tty_print (print_parse_error (errorbuf r) original) (scanned_state r))
        else print_added command [cr] (scanned_state r)
      | _ => Fail (AssertionFailure "sanity")
      end
    end.

(** The [while] loop of [parse_compile_only]; [className] and
    [methodName] live across iterations. *)
Fixpoint compile_only_loop (fuel : nat) (method_sep : ascii) (line : string)
    (className methodName : option string) (st : State) : Res State :=
  match line, fuel with
  | EmptyString, _ => Ok st
  | _, O => Fail OutOfFuel
  | _, S fuel' =>
    let name := copy_name method_sep 1024 line in
    let i := String.length name in
    let line1 := drop i line in
    let (className1, methodName1) :=
      if Nat.ltb 0 i then
        match className with
        | None => (Some name, methodName)
        | Some _ => (className, Some name)
        end
      else (className, methodName) in
    let at_sep := first_char_is method_sep line1 in
    ' (className2, c_match) <-
      (if at_sep then
         match className1 with
         | None => Ok (EmptyString, MethodMatcher.Any)
         | Some c => Ok (c, MethodMatcher.Exact)
         end
       else
         match className1 with
         | None => Fail ShouldNotReachHere
         | Some c =>
           (* missing class name handled as "Any" class match *)
           Ok (c, if is_empty c then MethodMatcher.Any else MethodMatcher.Exact)
         end) ;;
    ' (className3, methodName3, st3) <-
      (if directive_ends line1 then
         let (methodName2, m_match) :=
           match methodName1 with
           | None => (EmptyString, if at_sep then MethodMatcher.Exact else MethodMatcher.Any)
           | Some m => (m, MethodMatcher.Exact)
           end in
         let tom :=
           mkTyped (MethodMatcher.init className2 c_match methodName2 m_match None)
             CompileCommand.Unknown OptionType.Unknown zeroed in
         st1 <- add_option_string (Some tom) CompileCommand.CompileOnly true st ;;
         st2 <- (if PrintVMOptions then
                   match option_list st1 with
                   | [] => Fail NullPointer
                   | m :: _ =>
                     out <- matcher_print m ;;
                     Ok (tty_print ([print "CompileOnly: compileonly "] ++ out) st1)
                   end
                 else Ok st1) ;;
         Ok (None, None, st2)
       else Ok (Some className2, methodName1, st)) ;;
    let line2 := match line1 with EmptyString => line1 | String _ rest => rest end in
    compile_only_loop fuel' method_sep line2 className3 methodName3 st3
  end.

(** [CompilerOracle::parse_compile_only] *)
Definition parse_compile_only (line : string) (st : State) : Res State :=
  let have_colon := has_double_colon line in
  let method_sep := if have_colon then ":"%char else "."%char in
  let st1 := if Verbose then tty_print [print_cr line] st else st in
  compile_only_loop (String.length line) method_sep line None None st1.

(** [CompilerOracle::string_to_option] *)
Definition string_to_option (name : string) : CompileCommand.t :=
  fst (parse_command_name name).

(** The [while] loop of [CompilerOracle::parse_from_string] and the two
    statements after it.  [sp] is the text from the character [c] on,
    [token] the [pos] characters stored so far; a NUL in [sp] ends the
    text. *)
Fixpoint parse_from_string_loop (parse_line : string -> State -> Res State)
    (sp : string) (token : string) (st : State) : Res State :=
  match sp with
  | EmptyString => parse_line token st
  | String c sp' =>
    if negb (Ascii.eqb c nul) && Nat.ltb (String.length token) 1023 then
      if Ascii.eqb c "010" then
        st' <- parse_line token st ;;
        parse_from_string_loop parse_line sp' EmptyString st'
      else parse_from_string_loop parse_line sp' (token ++ String c EmptyString) st
    else parse_line token st
  end.

(** [CompilerOracle::parse_from_string] *)
Definition parse_from_string (str : string)
    (parse_line : string -> State -> Res State) (st : State) : Res State :=
  parse_from_string_loop parse_line str EmptyString st.

(** The C string in a buffer that holds [bytes] and then a NUL. *)
Fixpoint c_string (bytes : string) : string :=
  match bytes with
  | EmptyString => EmptyString
  | String c bytes' => if Ascii.eqb c nul then EmptyString else String c (c_string bytes')
  end.

(** The [while] loop of [CompilerOracle::parse_from_file] and the two
    statements after it.  [bytes] is what [getc] still returns before
    EOF. *)
Fixpoint parse_from_file_loop (bytes : string) (token : string) (st : State)
    : Res State :=
  match bytes with
  | EmptyString => parse_from_line (c_string token) st
  | String c bytes' =>
    if Nat.ltb (String.length token) 1023 then
      if Ascii.eqb c "010" then
        st' <- parse_from_line (c_string token) st ;;
        parse_from_file_loop bytes' EmptyString st'
      else parse_from_file_loop bytes' (token ++ String c EmptyString) st
    else parse_from_line (c_string token) st
  end.

(** [CompilerOracle::parse_from_file].  [stream] is what
    [fopen(cc_file(), "rt")] gives: the bytes of the file, or [None] for
    NULL. *)
Definition parse_from_file (stream : option string) (st : State) : Res State :=
  match stream with
  | None => Ok st
  | Some bytes => parse_from_file_loop bytes EmptyString st
  end.

(** *** Vocabulary of the statements *)

(** The record [m] is of kind [option] and its pattern accepts [method]. *)
Definition accepts (method : methodHandle) (option : CompileCommand.t)
    (m : TypedMethodOptionMatcher) : Prop :=
  _option m = option /\ matches (base m) method = true.

(** [m] is the first record of [store], from the head, that [accepts]. *)
Definition first_match (store : list TypedMethodOptionMatcher)
    (method : methodHandle) (option : CompileCommand.t)
    (m : TypedMethodOptionMatcher) : Prop :=
  exists newer older,
    store = (newer ++ m :: older)%list
    /\ accepts method option m
    /\ forall x, In x newer -> ~ accepts method option x.

(** The record [add_option_string] links for [matcher], [cc_option], [v]. *)
Definition linked {T : Type} `{OptionValue T} (matcher : TypedMethodOptionMatcher)
    (cc_option : CompileCommand.t) (v : T) : TypedMethodOptionMatcher :=
  mkTyped (base matcher) cc_option (stored_type (command2types cc_option)) (set_value v).

(** One call [add_option_string<T>(matcher, cc_option, v)]. *)
Inductive AddRequest : Type :=
| add_request (T : Type) (H : OptionValue T) (matcher : TypedMethodOptionMatcher)
    (cc_option : CompileCommand.t) (v : T).

Definition request_option (r : AddRequest) : CompileCommand.t :=
  match r with
  | add_request _ _ _ cc_option _ => cc_option
  end.

(** The "sanity" assertion of the call holds. *)
Definition request_typed (r : AddRequest) : bool :=
  match r with
  | add_request T H _ cc_option _ =>
    OptionType.eqb (stored_type (command2types cc_option)) (@get_type_for T H)
  end.

(** The calls of [requests] in order, oldest first. *)
Fixpoint add_all (requests : list AddRequest) (st : State) : Res State :=
  match requests with
  | [] => Ok st
  | add_request T H matcher cc_option v :: rest =>
    st' <- @add_option_string T H (Some matcher) cc_option v st ;;
    add_all rest st'
  end.

(** [st'] is [st] with the record for [matcher], [cc_option] and [v]
    linked at the head, after the LogCompilation warning if one is due. *)
Definition links {T : Type} `{OptionValue T} (matcher : TypedMethodOptionMatcher)
    (cc_option : CompileCommand.t) (v : T) (st st' : State) : Prop :=
  exists warning,
    st' = mkState (linked matcher cc_option v :: option_list st)
            (if sets_any cc_option then true else any_set st)
            (_quiet st) (tty st ++ warning)%list.

(** The commands [parse_from_line] dispatches on [command2variant]. *)
Definition has_variant (command : CompileCommand.t)
    (variant : CompileCommandVariant.t) : Prop :=
  command <> CompileCommand.Unknown /\ command <> CompileCommand.Quiet
  /\ command <> CompileCommand.Help /\ command <> CompileCommand.Option
  /\ command2variant command = variant.




(** [st'] is [st] with records linked at the head, [any_set] raised if
    one of them is of a kind that raises it. *)
Definition grows (st st' : State) : Prop :=
  exists added,
    option_list st' = (added ++ option_list st)%list
    /\ any_set st'
       = (any_set st || existsb (fun m => sets_any (_option m)) added)%bool.

(** [any_set] says whether the chain holds a record of a kind other than
    Inline, DontInline and Log. *)
Definition tracks (st : State) : Prop :=
  any_set st = existsb (fun m => sets_any (_option m)) (option_list st).

(** The states [compilerOracle_init] can reach: it feeds the lines of
    CompileCommand and of the command file to [parse_from_line] and the
    CompileOnly list to [parse_compile_only]. *)
Inductive reachable : State -> Prop :=
| reach_initial : reachable initial_state
| reach_line (line : string) (st st' : State) :
    reachable st -> parse_from_line line st = Ok st' -> reachable st'
| reach_compile_only (line : string) (st st' : State) :
    reachable st -> parse_compile_only line st = Ok st' -> reachable st'.

(** Every character of [s] satisfies [p]. *)
Fixpoint all_chars (p : ascii -> bool) (s : string) : bool :=
  match s with
  | EmptyString => true
  | String c s' => p c && all_chars p s'
  end.

Definition not_nul (c : ascii) : bool := negb (Ascii.eqb c nul).

Definition not_newline (c : ascii) : bool := negb (Ascii.eqb c "010").

(** The member of the union that was written last. *)
Definition member_of (u : Value) : OptionType.t :=
  match u with
  | zeroed => OptionType.Unknown
  | bool_value _ => OptionType.Bool
  | intx_value _ => OptionType.Intx
  | uintx_value _ => OptionType.Uintx
  | double_value _ => OptionType.Double
  | ccstr_value _ => OptionType.Ccstr
  end.

(** The accessors of [T] write and read the member of the union that
    [get_type_for<T>] names. *)
Definition Lawful {T : Type} (H : OptionValue T) : Prop :=
  (forall v : T, member_of (set_value v) = get_type_for /\ value (set_value v) = Ok v)
  /\ (forall u : Value, member_of u = get_type_for -> exists v : T, value u = Ok v).

(** The record has the type its kind is stored with, and its union holds
    the member of that type. *)
Definition well_typed (m : TypedMethodOptionMatcher) : Prop :=
  _type m = stored_type (command2types (_option m)) /\ member_of (_u m) = _type m.

(** From [st] to [st'] records were only linked at the head, all of them
    well typed, [_quiet] was not cleared and [tty] was only written to. *)
Definition evolves (st st' : State) : Prop :=
  exists added out,
    option_list st' = (added ++ option_list st)%list
    /\ Forall well_typed added
    /\ (_quiet st = true -> _quiet st' = true)
    /\ tty st' = (tty st ++ out)%list.

(** The cells of a buffer that hold the characters of [s]. *)
Definition cells (s : string) : Buffer := map Some (list_ascii_of_string s).

(** The tokens the loop of the ccstrlist branch reads from [line], each
    with the width of the blank run before it. *)
Fixpoint list_tokens (fuel : nat) (line : string) : list (nat * string) :=
  match sscanf_blank_token is_list_char line with
  | None => []
  | Some (token, bytes_read) =>
    match fuel with
    | O => []
    | S fuel' =>
      (bytes_read - String.length token, token) :: list_tokens fuel' (drop bytes_read line)
    end
  end.

(** The tokens up to the first one that follows a blank run wider than
    one character. *)
Fixpoint kept_tokens (tokens : list (nat * string)) : list string :=
  match tokens with
  | [] => []
  | (gap, token) :: rest => token :: (if Nat.eqb gap 1 then kept_tokens rest else [])
  end.

(** [first] and [tokens] joined by single spaces. *)
Fixpoint join_blank (first : string) (tokens : list string) : string :=
  match tokens with
  | [] => first
  | token :: rest => join_blank (first ++ " " ++ token) rest
  end.

(** The bytes the loop consumes for [tokens]. *)
Fixpoint bytes_of (tokens : list (nat * string)) : nat :=
  match tokens with
  | [] => 0
  | (gap, token) :: rest => gap + String.length token + bytes_of rest
  end.

(** [s] does not start with a character of the set [p]. *)
Definition stops (p : ascii -> bool) (s : string) : bool :=
  match s with
  | EmptyString => true
  | String c _ => negb (p c)
  end.

(** [text] cut at newlines into the lines before the last newline and
    the rest. *)
Fixpoint lines_of (text : string) (token : string) : list string :=
  match text with
  | EmptyString => [token]
  | String c text' =>
    if Ascii.eqb c "010" then token :: lines_of text' EmptyString
    else lines_of text' (token ++ String c EmptyString)
  end.

(** [parse_line] on the lines of [lines], first to last. *)
Fixpoint parse_lines (parse_line : string -> State -> Res State)
    (lines : list string) (st : State) : Res State :=
  match lines with
  | [] => Ok st
  | line :: rest => st' <- parse_line line st ;; parse_lines parse_line rest st'
  end.

(** From [st] to [st'] only well-typed compile-only records with the
    value true were linked, [_quiet] was left alone and [tty] was only
    written to. *)
Definition adds_compile_only (st st' : State) : Prop :=
  exists added out,
    option_list st' = (added ++ option_list st)%list
    /\ Forall (fun x => _option x = CompileCommand.CompileOnly
                        /\ _type x = OptionType.Bool
                        /\ _u x = bool_value true
                        /\ well_typed x) added
    /\ _quiet st' = _quiet st
    /\ tty st' = (tty st ++ out)%list.

(** [st'] is [st] with the record [x] linked at the head and [out]
    printed. *)
Definition linked_one (x : TypedMethodOptionMatcher) (out : list TtyEvent)
    (st st' : State) : Prop :=
  st' = mkState (x :: option_list st)
          (if sets_any (_option x) then true else any_set st)
          (_quiet st) (tty st ++ out)%list.

(** The run did not stop for lack of fuel. *)
Definition terminates {A : Type} (r : Res A) : Prop := r <> Fail OutOfFuel.

(** Every record of kind [option] in the store holds a [bool]. *)
Definition holds_bools (option : CompileCommand.t) (st : State) : Prop :=
  forall m, In m (option_list st) -> _option m = option ->
    exists b, _u m = bool_value b.

(** Every record of kind [option] in the store holds [true]. *)
Definition all_true (option : CompileCommand.t) (st : State) : Prop :=
  forall m, In m (option_list st) -> _option m = option -> _u m = bool_value true.

(** [line] is skipped by the first two statements of [parse_from_line]. *)
Definition is_comment (line : string) : Prop :=
  line = EmptyString \/ exists rest, line = String "#" rest.




(** ** Proofs *)

Arguments add_option_string : simpl never.

(** *** Equality tests and strings *)

Lemma CompileCommand_eqb_eq (a b : CompileCommand.t) :
  CompileCommand.eqb a b = true <-> a = b.
Proof.
  split.
  - destruct a, b; simpl; intro E; try discriminate; try reflexivity.
    apply Nat.eqb_eq in E. now subst.
  - intros ->. destruct b; simpl; auto using Nat.eqb_refl.
Qed.

Lemma CompileCommand_eqb_neq (a b : CompileCommand.t) :
  CompileCommand.eqb a b = false <-> a <> b.
Proof.
  rewrite <- CompileCommand_eqb_eq.
  destruct (CompileCommand.eqb a b); split; congruence.
Qed.

Lemma OptionType_eqb_eq (a b : OptionType.t) :
  OptionType.eqb a b = true <-> a = b.
Proof.
  split.
  - destruct a, b; simpl; intro E; try discriminate; reflexivity.
  - intros ->. destruct b; reflexivity.
Qed.

Lemma OptionType_eqb_neq (a b : OptionType.t) :
  OptionType.eqb a b = false <-> a <> b.
Proof.
  rewrite <- OptionType_eqb_eq.
  destruct (OptionType.eqb a b); split; congruence.
Qed.

Lemma is_empty_true (s : string) : is_empty s = true <-> s = EmptyString.
Proof. destruct s; simpl; split; congruence. Qed.

Lemma length_drop (n : nat) (s : string) :
  String.length (drop n s) = String.length s - n.
Proof.
  revert s. induction n as [|n IH]; intros [|c s]; simpl; auto.
Qed.

Lemma scanset_length (p : ascii -> bool) (w : nat) (s : string) :
  String.length (scanset p w s) <= String.length s.
Proof.
  revert s. induction w as [|w IH]; intros [|c s]; simpl; try lia.
  destruct (p c); simpl; [specialize (IH s)|]; lia.
Qed.

Lemma sscanf_token_bytes (set : ascii -> bool) (line token : string) (n : nat) :
  sscanf_token set line = Some (token, n) ->
  n = String.length token /\ 1 <= n <= String.length line.
Proof.
  unfold sscanf_token. destruct (scanset set 255 line) as [|c t] eqn:E; simpl.
  - discriminate.
  - intros [= <- <-]. pose proof (scanset_length set 255 line) as L.
    rewrite E in L. simpl in *. lia.
Qed.

Lemma sscanf_blank_token_bytes (set : ascii -> bool) (line token : string) (n : nat) :
  sscanf_blank_token set line = Some (token, n) ->
  2 <= n <= String.length line.
Proof.
  unfold sscanf_blank_token.
  pose proof (scanset_length is_blank (String.length line) line) as L1.
  fold (scanset_all is_blank line) in L1.
  remember (scanset_all is_blank line) as blank eqn:B.
  destruct (is_empty blank) eqn:Eb; [discriminate|].
  remember (drop (String.length blank) line) as rest eqn:R.
  pose proof (scanset_length set 255 rest) as L2.
  remember (scanset set 255 rest) as tok eqn:Tk.
  destruct (is_empty tok) eqn:Et; [discriminate|].
  intros [= <- <-].
  assert (String.length rest = String.length line - String.length blank) as Lr
    by (subst rest; apply length_drop).
  destruct blank; [discriminate|].
  destruct tok; [discriminate|].
  clear B R Tk. simpl in *. lia.
Qed.

(** *** The chain *)

Lemma match_Some (store : list TypedMethodOptionMatcher) (method : methodHandle)
    (option : CompileCommand.t) (type : OptionType.t) (m : TypedMethodOptionMatcher) :
  match_ store method option type = Some m <-> first_match store method option m.
Proof.
  unfold first_match, accepts. induction store as [|r store IH]; simpl.
  - split; [discriminate|]. intros ([|? ?] & ? & E & _); discriminate.
  - assert ((exists newer older,
               store = (newer ++ m :: older)%list
               /\ (_option m = option /\ matches (base m) method = true)
               /\ (forall x, In x newer ->
                     ~ (_option x = option /\ matches (base x) method = true)))
            -> ~ (_option r = option /\ matches (base r) method = true)
            -> exists newer older,
                 r :: store = (newer ++ m :: older)%list
                 /\ (_option m = option /\ matches (base m) method = true)
                 /\ (forall x, In x newer ->
                       ~ (_option x = option /\ matches (base x) method = true)))
      as Later.
    { intros (newer & older & -> & Hm & N) Nr. exists (r :: newer), older.
      split; [reflexivity | split; [exact Hm|]].
      intros x [<-|I]; [exact Nr | exact (N x I)]. }
    assert ((exists newer older,
               r :: store = (newer ++ m :: older)%list
               /\ (_option m = option /\ matches (base m) method = true)
               /\ (forall x, In x newer ->
                     ~ (_option x = option /\ matches (base x) method = true)))
            -> ~ (_option r = option /\ matches (base r) method = true)
            -> exists newer older,
                 store = (newer ++ m :: older)%list
                 /\ (_option m = option /\ matches (base m) method = true)
                 /\ (forall x, In x newer ->
                       ~ (_option x = option /\ matches (base x) method = true)))
      as Earlier.
    { intros ([|x newer] & older & E & Hm & N) Nr; simpl in E; injection E as <- E.
      - destruct (Nr Hm).
      - exists newer, older. split; [exact E | split; [exact Hm|]].
        intros y I. apply N. now right. }
    destruct (CompileCommand.eqb (_option r) option) eqn:K;
      [destruct (matches (base r) method) eqn:A|].
    + apply CompileCommand_eqb_eq in K. split.
      * intros [= <-]. exists [], store.
        split; [reflexivity | split; [now split|]]. intros x [].
      * intros ([|x newer] & older & E & _ & N); simpl in E; injection E as <- E.
        -- reflexivity.
        -- exfalso. apply (N r); [now left | now split].
    + rewrite IH. split; intro F; [apply Later | apply Earlier]; try exact F;
        intros [_ Hx]; congruence.
    + apply CompileCommand_eqb_neq in K.
      rewrite IH. split; intro F; [apply Later | apply Earlier]; try exact F;
        intros [Hk _]; congruence.
Qed.

Lemma match_None (store : list TypedMethodOptionMatcher) (method : methodHandle)
    (option : CompileCommand.t) (type : OptionType.t) :
  match_ store method option type = None
  <-> forall x, In x store -> ~ accepts method option x.
Proof.
  unfold accepts. induction store as [|r store IH]; simpl.
  - split; [intros _ x [] | reflexivity].
  - destruct (CompileCommand.eqb (_option r) option) eqn:K;
      [destruct (matches (base r) method) eqn:A|].
    + apply CompileCommand_eqb_eq in K. split; [discriminate|].
      intro N. exfalso. apply (N r); auto.
    + rewrite IH. split.
      * intros N x [<-|I]; [intros [_ ?]; congruence | now apply N].
      * intros N x I. apply N. now right.
    + apply CompileCommand_eqb_neq in K. rewrite IH. split.
      * intros N x [<-|I]; [intros [? _]; congruence | now apply N].
      * intros N x I. apply N. now right.
Qed.

Lemma has_command_from_In (store : list TypedMethodOptionMatcher)
    (command : CompileCommand.t) :
  has_command_from store command = true
  <-> exists m, In m store /\ _option m = command.
Proof.
  induction store as [|r store IH]; simpl.
  - split; [discriminate | intros (? & [] & _)].
  - destruct (CompileCommand.eqb (_option r) command) eqn:K.
    + apply CompileCommand_eqb_eq in K. split; auto. intros _. exists r. auto.
    + apply CompileCommand_eqb_neq in K. rewrite IH. split.
      * intros (m & I & E). exists m. auto.
      * intros (m & [<-|I] & E); [congruence | exists m; auto].
Qed.

(** [add_option_string] on a non-NULL matcher whose "sanity" assertion
    holds links the record at the head. *)
Lemma add_option_string_Ok {T : Type} `{OptionValue T}
    (m : TypedMethodOptionMatcher) (cc_option : CompileCommand.t) (v : T) (st : State) :
  stored_type (command2types cc_option) = get_type_for ->
  exists warning,
    add_option_string (Some m) cc_option v st
    = Ok (mkState (linked m cc_option v :: option_list st)
            (if sets_any cc_option then true else any_set st)
            (_quiet st) (tty st ++ warning)%list).
Proof.
  intro Ty. unfold add_option_string, linked. rewrite Ty.
  replace (OptionType.eqb get_type_for get_type_for) with true
    by (symmetry; now apply OptionType_eqb_eq).
  simpl.
  destruct (CompileCommand.eqb cc_option CompileCommand.Log && negb LogCompilation).
  - eexists. reflexivity.
  - exists []. now rewrite app_nil_r.
Qed.

(** Whenever [add_option_string] returns, it has linked one record. *)
Lemma add_option_string_inv {T : Type} `{OptionValue T}
    (matcher : option TypedMethodOptionMatcher) (cc_option : CompileCommand.t)
    (v : T) (st st' : State) :
  add_option_string matcher cc_option v st = Ok st' ->
  exists m warning,
    matcher = Some m
    /\ stored_type (command2types cc_option) = get_type_for
    /\ st' = mkState (linked m cc_option v :: option_list st)
               (if sets_any cc_option then true else any_set st)
               (_quiet st) (tty st ++ warning)%list.
Proof.
  intro E.
  assert (exists m, matcher = Some m) as [m ->].
  { destruct matcher as [m|]; [eauto|]. unfold add_option_string in E.
    destruct (option_list st); [discriminate|].
    destruct (negb _); discriminate. }
  assert (stored_type (command2types cc_option) = get_type_for) as Ty.
  { unfold add_option_string in E.
    destruct (OptionType.eqb (stored_type (command2types cc_option)) get_type_for) eqn:Q.
    - now apply OptionType_eqb_eq.
    - simpl in E. destruct (option_list st); discriminate. }
  destruct (add_option_string_Ok m cc_option v st Ty) as [w Ew].
  exists m, w. repeat split; auto. congruence.
Qed.

Lemma first_match_In (store : list TypedMethodOptionMatcher) (method : methodHandle)
    (option : CompileCommand.t) (m : TypedMethodOptionMatcher) :
  first_match store method option m -> In m store /\ accepts method option m.
Proof.
  intros (newer & older & -> & A & _). split; [|exact A].
  apply in_or_app. right. now left.
Qed.

Lemma accepted_has_first (store : list TypedMethodOptionMatcher) (method : methodHandle)
    (option : CompileCommand.t) :
  (exists m, In m store /\ accepts method option m)
  <-> exists m, first_match store method option m.
Proof.
  split.
  - intros (m & I & A).
    destruct (match_ store method option OptionType.Unknown) as [r|] eqn:E.
    + exists r. now apply match_Some in E.
    + exfalso. rewrite match_None in E. exact (E m I A).
  - intros (m & F). exists m. now apply first_match_In.
Qed.

(** [check_predicate] on a kind registered as [bool]: the value of the
    first record that accepts the target, [false] when there is none. *)
Lemma check_predicate_spec (command : CompileCommand.t) (method : methodHandle)
    (st : State) :
  command2types command = OptionType.Bool ->
  holds_bools command st ->
  exists b,
    check_predicate command method st = Ok b
    /\ (b = true <->
        exists m, first_match (option_list st) method command m
                  /\ _u m = bool_value true).
Proof.
  intros Ty Hb. unfold check_predicate, has_option_value. rewrite Ty. simpl.
  assert (forall r : Res (bool * bool),
            (if verify_type_default then r else r) = r) as V
    by (intro r; now destruct verify_type_default).
  rewrite V. clear V.
  destruct (match_ (option_list st) method command OptionType.Bool) as [m|] eqn:E.
  - pose proof E as F. apply match_Some in F.
    destruct (first_match_In _ _ _ _ F) as [I [K _]].
    destruct (Hb m I K) as [b Eb].
    exists b. destruct (option_list st) as [|r store] eqn:S; [destruct I|].
    rewrite Eb. simpl. split; [reflexivity|]. split.
    + intros ->. exists m. auto.
    + intros (m' & F' & Eb'). apply match_Some with (type := OptionType.Bool) in F'.
      congruence.
  - exists false. split.
    + now destruct (option_list st).
    + split; [discriminate|]. intros (m & F & _).
      apply match_Some with (type := OptionType.Bool) in F. congruence.
Qed.

Lemma all_true_holds_bools (option : CompileCommand.t) (st : State) :
  all_true option st -> holds_bools option st.
Proof. intros A m I K. exists true. now apply A. Qed.

Lemma sets_any_false (cc_option : CompileCommand.t) :
  sets_any cc_option = false
  <-> cc_option = CompileCommand.Inline \/ cc_option = CompileCommand.DontInline
      \/ cc_option = CompileCommand.Log.
Proof.
  split.
  - destruct cc_option; simpl; intro E; try discriminate; auto.
  - intros [-> | [-> | ->]]; reflexivity.
Qed.

Lemma add_all_spec (requests : list AddRequest) :
  Forall (fun r => request_typed r = true) requests ->
  forall st, exists st',
    add_all requests st = Ok st'
    /\ map _option (option_list st')
       = (rev (map request_option requests) ++ map _option (option_list st))%list
    /\ any_set st'
       = (any_set st || existsb (fun r => sets_any (request_option r)) requests)%bool
    /\ _quiet st' = _quiet st.
Proof.
  induction 1 as [|[T H m cc v] requests Ty _ IH]; intro st.
  - exists st. simpl. now rewrite orb_false_r.
  - simpl in Ty. apply OptionType_eqb_eq in Ty.
    destruct (add_option_string_Ok m cc v st Ty) as [w E].
    cbn [add_all]. rewrite E. cbn [bind].
    destruct (IH (mkState (linked m cc v :: option_list st)
                    (if sets_any cc then true else any_set st)
                    (_quiet st) (tty st ++ w))) as (st' & E' & L & A & Q).
    exists st'. simpl in *. repeat split; auto.
    + rewrite L, <- app_assoc. reflexivity.
    + rewrite A. destruct (sets_any cc), (any_set st); reflexivity.
Qed.








Lemma add_option_string_links {T : Type} `{OptionValue T}
    (m : TypedMethodOptionMatcher) (cc_option : CompileCommand.t) (v : T) (st : State) :
  stored_type (command2types cc_option) = get_type_for ->
  exists st', add_option_string (Some m) cc_option v st = Ok st'
              /\ links m cc_option v st st'.
Proof.
  intro Ty. destruct (add_option_string_Ok m cc_option v st Ty) as [w E].
  eexists. split; [exact E|]. now exists w.
Qed.

Lemma error_text_not_empty (buf_size : nat) (text : string) :
  2 <= buf_size -> is_empty (jio_snprintf buf_size ("  " ++ text)) = false.
Proof.
  destruct buf_size as [|[|n]]; try lia. reflexivity.
Qed.







(** *** Rejected lines *)

Lemma parse_command_name_bytes (line : string) (command : CompileCommand.t) (n : nat) :
  parse_command_name line = (command, n) -> n <= String.length line.
Proof.
  unfold parse_command_name.
  destruct (sscanf_token is_alnum line) as [[token bytes]|] eqn:E.
  - intros [= _ <-]. apply sscanf_token_bytes in E. lia.
  - intros [= _ <-]. lia.
Qed.

Lemma ptr_add_in_bounds (s : string) (n : nat) :
  n <= String.length s -> ptr_add (At s) n = At (drop n s).
Proof.
  intro L. unfold ptr_add. apply Nat.leb_le in L. now rewrite L.
Qed.

(** [scan_value] either writes an error message and leaves the state
    alone, or it calls [add_option_string] once and leaves the error
    buffer untouched. *)
Lemma scan_value_cases (type : OptionType.t) (line : LinePtr) (total : nat)
    (matcher : option TypedMethodOptionMatcher) (cc_option : CompileCommand.t)
    (buf_size : nat) (st : State) (r : Scanned) :
  2 <= buf_size ->
  scan_value type line total matcher cc_option buf_size st = Ok r ->
  (scanned_state r = st /\ is_empty (errorbuf r) = false)
  \/ (errorbuf r = EmptyString
      /\ exists (T : Type) (H : OptionValue T) (v : T),
           add_option_string matcher cc_option v st = Ok (scanned_state r)).
Proof.
  intro Big. destruct buf_size as [|[|k]]; try lia. clear Big.
  unfold scan_value. destruct line as [s|]; [|discriminate]. cbn [deref bind].
  set (text := drop (skip_whitespace s) s).
  destruct type.
  - destruct (sscanf_intx text) as [[v n]|];
      [|intros [= <-]; left; split; reflexivity].
    destruct (add_option_string matcher cc_option v st) eqn:E; [|discriminate].
    intros [= <-]. right. split; [reflexivity|].
    exact (ex_intro _ _ (ex_intro _ _ (ex_intro _ _ E))).
  - destruct (sscanf_uintx text) as [[v n]|];
      [|intros [= <-]; left; split; reflexivity].
    destruct (add_option_string matcher cc_option v st) eqn:E; [|discriminate].
    intros [= <-]. right. split; [reflexivity|].
    exact (ex_intro _ _ (ex_intro _ _ (ex_intro _ _ E))).
  - destruct (is_empty text).
    + destruct (add_option_string matcher cc_option true st) eqn:E; [|discriminate].
      intros [= <-]. right. split; [reflexivity|].
    exact (ex_intro _ _ (ex_intro _ _ (ex_intro _ _ E))).
    + destruct (sscanf_token is_alpha text) as [[v n]|];
        [|intros [= <-]; left; split; reflexivity].
      destruct (String.eqb v "true"); [|destruct (String.eqb v "false")].
      * destruct (add_option_string matcher cc_option true st) eqn:E; [|discriminate].
        intros [= <-]. right. split; [reflexivity|].
    exact (ex_intro _ _ (ex_intro _ _ (ex_intro _ _ E))).
      * destruct (add_option_string matcher cc_option false st) eqn:E; [|discriminate].
        intros [= <-]. right. split; [reflexivity|].
    exact (ex_intro _ _ (ex_intro _ _ (ex_intro _ _ E))).
      * intros [= <-]. left. split; reflexivity.
  - destruct (sscanf_token is_ident text) as [[v n]|];
      [|intros [= <-]; left; split; reflexivity].
    destruct (add_option_string matcher cc_option v st) eqn:E; [|discriminate].
    intros [= <-]. right. split; [reflexivity|].
    exact (ex_intro _ _ (ex_intro _ _ (ex_intro _ _ E))).
  - destruct (scan_ccstrlist text (total + skip_whitespace s)) as [[[v n]|]|];
      cbn [bind]; [| intros [= <-]; left; split; reflexivity | discriminate].
    destruct (add_option_string matcher cc_option v st) eqn:E; [|discriminate].
    intros [= <-]. right. split; [reflexivity|].
    exact (ex_intro _ _ (ex_intro _ _ (ex_intro _ _ E))).
  - destruct (sscanf_double text) as [[[i f] n]|];
      [|intros [= <-]; left; split; reflexivity].
    destruct (add_option_string matcher cc_option _ st) eqn:E; [|discriminate].
    intros [= <-]. right. split; [reflexivity|].
    exact (ex_intro _ _ (ex_intro _ _ (ex_intro _ _ E))).
  - intros [= <-]. left. split; reflexivity.
Qed.

Lemma scan_flag_and_value_cases (type : OptionType.t) (line : string)
    (matcher : option TypedMethodOptionMatcher) (buf_size : nat) (st : State)
    (r : Scanned) :
  2 <= buf_size ->
  scan_flag_and_value type line matcher buf_size st = Ok r ->
  (scanned_state r = st /\ is_empty (errorbuf r) = false)
  \/ (errorbuf r = EmptyString
      /\ exists (T : Type) (H : OptionValue T) (v : T) (cc_option : CompileCommand.t),
           add_option_string matcher cc_option v st = Ok (scanned_state r)).
Proof.
  intro Big. unfold scan_flag_and_value.
  destruct (sscanf_blank_token is_alnum line) as [[flag n]|].
  - destruct (CompileCommand.eqb _ _).
    { destruct buf_size as [|[|k]]; try lia.
      intros [= <-]. left. split; reflexivity. }
    destruct (negb _).
    { destruct buf_size as [|[|k]]; try lia.
      intros [= <-]. left. split; reflexivity. }
    intro E. apply scan_value_cases in E; [|exact Big].
    destruct E as [S | (B & T & H & v & E)]; [now left | right].
    split; [exact B|].
    exact (ex_intro _ _ (ex_intro _ _ (ex_intro _ _ (ex_intro _ _ E)))).
  - destruct buf_size as [|[|k]]; try lia.
    intros [= <-]. left. split; reflexivity.
Qed.

Lemma print_added_inv (command : CompileCommand.t) (trailer : list TtyEvent)
    (st st' : State) :
  print_added command trailer st = Ok st' ->
  exists events, st' = tty_print events st.
Proof.
  unfold print_added. destruct (_quiet st).
  - intros [= <-]. exists []. unfold tty_print. rewrite app_nil_r. now destruct st.
  - destruct (option_list st) as [|m ?]; [discriminate|].
    destruct (matcher_print m); cbn [bind]; [|discriminate].
    intros [= <-]. eauto.
Qed.

(** A pass through the loop body of an [option] line that ends in
    [return] has printed a report and linked nothing; a pass that reaches
    the end of the body has linked one record with the pattern of the
    line and has moved [line] forward. *)
Lemma option_clause_cases (archetype : TypedMethodOptionMatcher)
    (original line : string) (st : State) (result : ClauseResult) :
  option_clause archetype original line st = Ok result ->
  match result with
  | LoopExit st' => st' = st
  | Returned st' => exists report, st' = tty_print (report ++ print_tip) st
  | NextClause line' st' =>
    String.length line' < String.length line
    /\ exists m events,
         base m = base archetype
         /\ st' = tty_print events
                    (mkState (m :: option_list st)
                       (if sets_any (_option m) then true else any_set st)
                       (_quiet st) (tty st))
  end.
Proof.
  unfold option_clause.
  destruct (sscanf_token is_alnum line) as [[option_type n]|] eqn:Tok;
    [|intros [= <-]; reflexivity].
  apply sscanf_token_bytes in Tok. destruct Tok as [_ Tok].
  assert (String.length (drop n line) < String.length line) as Shorter
    by (rewrite length_drop; lia).
  destruct (negb (OptionType.eqb (parse_option_type option_type) OptionType.Unknown)).
  - destruct (scan_flag_and_value _ _ _ _ st) as [r|] eqn:Scan; cbn [bind]; [|discriminate].
    apply scan_flag_and_value_cases in Scan; [|lia].
    destruct Scan as [[S Err] | (B & T & H & v & cc & Add)].
    + rewrite Err. cbn [negb]. intros [= <-]. rewrite S.
      unfold print_parse_error. eauto.
    + rewrite B. cbn [is_empty negb].
      destruct (print_added _ _ (scanned_state r)) as [st2|] eqn:P; cbn [bind]; [|discriminate].
      destruct (ptr_add (At (drop n line)) (total_bytes_read r)) as [line3|] eqn:Ptr;
        cbn [deref bind]; [|discriminate].
      intros [= <-]. split.
      * unfold ptr_add in Ptr.
        destruct (Nat.leb (total_bytes_read r) (String.length (drop n line)));
          [|discriminate].
        injection Ptr as <-. rewrite !length_drop in *. lia.
      * apply print_added_inv in P. destruct P as [events ->].
        apply add_option_string_inv in Add.
        destruct Add as (m & w & [= <-] & _ & ->).
        exists (linked (clone archetype) cc v), (w ++ events)%list.
        split; [reflexivity|]. unfold tty_print. cbn. now rewrite app_assoc.
  - destruct (CompileCommand.eqb _ _).
    + intros [= <-]. unfold print_unrecognized. eauto.
    + destruct (add_option_string _ _ true st) as [st1|] eqn:Add; cbn [bind]; [|discriminate].
      destruct (print_added _ _ st1) as [st2|] eqn:P; cbn [bind]; [|discriminate].
      intros [= <-]. split; [rewrite !length_drop; lia|].
      apply print_added_inv in P. destruct P as [events ->].
      apply add_option_string_inv in Add.
      destruct Add as (m & w & [= <-] & _ & ->).
      exists (linked (clone archetype) (fst (parse_command_name option_type)) true),
             (w ++ events)%list.
      split; [reflexivity|]. unfold tty_print. cbn. now rewrite app_assoc.
Qed.


Lemma drop_one_more (n : nat) (s : string) : drop 1 (drop n s) = drop (S n) s.
Proof.
  revert s. induction n as [|n IH]; intro s.
  - reflexivity.
  - destruct s as [|c l]; [reflexivity|]. exact (IH l).
Qed.

Lemma not_comment (line : string) :
  ~ is_comment line -> is_empty line = false /\ first_char_is "#" line = false.
Proof.
  intro N. destruct line as [|c rest].
  - destruct N. now left.
  - split; [reflexivity|]. simpl. apply Ascii.eqb_neq. intros ->.
    apply N. right. now exists rest.
Qed.


(** *** The loops have fuel enough *)

Lemma bind_terminates {A B : Type} (r : Res A) (k : A -> Res B) :
  terminates r -> (forall a, r = Ok a -> terminates (k a)) -> terminates (bind r k).
Proof.
  intros T K. destruct r as [a|f]; cbn [bind]; [now apply K|].
  intro E. apply T. congruence.
Qed.

Ltac finish_terminates := unfold terminates; discriminate.

Ltac split_terminates :=
  repeat first
    [ finish_terminates
    | match goal with
      | |- terminates (bind _ _) => apply bind_terminates; [|intros ? ?]
      | |- terminates (if ?x then _ else _) => destruct x eqn:?
      | |- terminates (match ?x with _ => _ end) => destruct x eqn:?
      end ].

Lemma poke_terminates (b : Buffer) (i : nat) (c : ascii) : terminates (poke b i c).
Proof.
  revert i. induction b as [|x b IH]; intros [|i]; cbn [poke]; try finish_terminates.
  apply bind_terminates; [apply IH | intros; finish_terminates].
Qed.

Lemma store_token_terminates (token : string) :
  forall (b : Buffer) (i : nat), terminates (store_token b i token).
Proof.
  induction token as [|c token IH]; intros b i; cbn [store_token].
  - apply poke_terminates.
  - apply bind_terminates; [apply poke_terminates | intros; apply IH].
Qed.

Lemma c_str_terminates (b : Buffer) : terminates (c_str b).
Proof.
  induction b as [|[c|] b IH]; cbn [c_str]; try finish_terminates.
  destruct (Ascii.eqb c nul); [finish_terminates|].
  apply bind_terminates; [exact IH | intros; finish_terminates].
Qed.

Lemma ccstrlist_rest_terminates (fuel : nat) :
  forall (line : string) (total : nat) (value : Buffer) (next_value end_value : nat),
    String.length line <= fuel ->
    terminates (ccstrlist_rest fuel line total value next_value end_value).
Proof.
  induction fuel as [|fuel IH]; intros line total value next_value end_value Enough;
    cbn [ccstrlist_rest];
    destruct (sscanf_blank_token is_list_char line) as [[token n]|] eqn:Tok;
    try finish_terminates;
    apply sscanf_blank_token_bytes in Tok; [lia|].
  apply bind_terminates; [apply store_token_terminates | intros value1 _].
  apply bind_terminates; [apply poke_terminates | intros value2 _].
  apply IH. rewrite length_drop. lia.
Qed.

Lemma scan_ccstrlist_terminates (line : string) (total : nat) :
  terminates (scan_ccstrlist line total).
Proof.
  unfold scan_ccstrlist.
  destruct (sscanf_token is_list_char line) as [[token n]|]; [|finish_terminates].
  apply bind_terminates; [apply store_token_terminates | intros value1 _].
  apply bind_terminates.
  - apply ccstrlist_rest_terminates. rewrite length_drop. lia.
  - intros [total' value2] _.
    apply bind_terminates; [apply c_str_terminates | intros; finish_terminates].
Qed.

Lemma add_option_string_terminates {T : Type} `{OptionValue T}
    (matcher : option TypedMethodOptionMatcher) (cc_option : CompileCommand.t)
    (v : T) (st : State) :
  terminates (add_option_string matcher cc_option v st).
Proof.
  unfold add_option_string.
  destruct matcher as [m|], (option_list st) as [|r l]; try finish_terminates;
    destruct (negb (OptionType.eqb _ _)); finish_terminates.
Qed.

Lemma scan_value_terminates (type : OptionType.t) (line : LinePtr) (total : nat)
    (matcher : option TypedMethodOptionMatcher) (cc_option : CompileCommand.t)
    (buf_size : nat) (st : State) :
  terminates (scan_value type line total matcher cc_option buf_size st).
Proof.
  unfold scan_value. destruct line as [s|]; cbn [deref bind]; [|finish_terminates].
  destruct type;
    repeat first
      [ finish_terminates
      | apply add_option_string_terminates
      | apply scan_ccstrlist_terminates
      | match goal with
        | |- terminates (bind _ _) => apply bind_terminates; [|intros ? ?]
        | |- terminates (if ?x then _ else _) => destruct x eqn:?
        | |- terminates (match ?x with _ => _ end) => destruct x eqn:?
        end ].
Qed.

Lemma scan_flag_and_value_terminates (type : OptionType.t) (line : string)
    (matcher : option TypedMethodOptionMatcher) (buf_size : nat) (st : State) :
  terminates (scan_flag_and_value type line matcher buf_size st).
Proof.
  unfold scan_flag_and_value.
  destruct (sscanf_blank_token is_alnum line) as [[flag n]|]; [|finish_terminates].
  destruct (CompileCommand.eqb _ _); [finish_terminates|].
  destruct (negb _); [finish_terminates|].
  apply scan_value_terminates.
Qed.

Lemma print_added_terminates (command : CompileCommand.t) (trailer : list TtyEvent)
    (st : State) :
  terminates (print_added command trailer st).
Proof.
  unfold print_added, matcher_print. split_terminates.
Qed.

Lemma option_clause_terminates (archetype : TypedMethodOptionMatcher)
    (original line : string) (st : State) :
  terminates (option_clause archetype original line st).
Proof.
  unfold option_clause.
  destruct (sscanf_token is_alnum line) as [[option_type n]|]; [|finish_terminates].
  destruct (negb (OptionType.eqb _ _)).
  - apply bind_terminates; [apply scan_flag_and_value_terminates | intros r _].
    destruct (negb _); [finish_terminates|].
    apply bind_terminates; [apply print_added_terminates | intros st2 _].
    destruct (ptr_add _ _); cbn [deref bind]; finish_terminates.
  - destruct (CompileCommand.eqb _ _); [finish_terminates|].
    apply bind_terminates; [apply add_option_string_terminates | intros st1 _].
    apply bind_terminates; [apply print_added_terminates | intros; finish_terminates].
Qed.

Lemma option_clauses_terminates (fuel : nat) (archetype : TypedMethodOptionMatcher)
    (original : string) :
  forall (line : string) (st : State),
    String.length line <= fuel ->
    terminates (option_clauses fuel archetype original line st).
Proof.
  induction fuel as [|fuel IH]; intros line st Enough; cbn [option_clauses];
    (apply bind_terminates; [apply option_clause_terminates | intros result Body]);
    apply option_clause_cases in Body;
    destruct result as [st1 | st1 | line1 st1]; try finish_terminates.
  - lia.
  - apply IH. lia.
Qed.

(** [parse_from_line] never stops for lack of fuel. *)
Lemma parse_from_line_terminates (line : string) (st : State) :
  terminates (parse_from_line line st).
Proof.
  unfold parse_from_line.
  destruct (is_empty line); [finish_terminates|].
  destruct (first_char_is "#" line); [finish_terminates|].
  destruct (parse_command_name line) as [command n].
  assert (forall p, terminates (deref p)) as D
    by (intros [?|]; finish_terminates).
  assert (terminates
            (line2 <- deref (ptr_add (ptr_add (At line) n) 1) ;;
             match parse_method_pattern line2 with
             | (inr error_msg, _) =>
               Ok (tty_print (print_parse_error error_msg line) st)
             | (inl archetype, line3) =>
               let line4 := drop (skip_whitespace line3) line3 in
               option_clauses (String.length line4) archetype line line4 st
             end)) as OptionLine.
  { apply bind_terminates; [apply D | intros line2 _].
    destruct (parse_method_pattern line2) as [[archetype|error_msg] line3];
      [|finish_terminates].
    apply option_clauses_terminates. lia. }
  assert (terminates
            match command2variant command with
            | CompileCommandVariant.Basic =>
              line2 <- deref (ptr_add (At line) n) ;;
              match parse_method_pattern line2 with
              | (inr error_msg, _) =>
                Ok (tty_print (print_parse_error error_msg line) st)
              | (inl matcher, _) =>
                st1 <- add_option_string (Some matcher) command true st ;;
                print_added command [cr] st1
              end
            | CompileCommandVariant.Standard =>
              let type := command2types command in
              line2 <- deref (ptr_add (ptr_add (At line) n) 1) ;;
              let (parsed, line3) := parse_method_pattern line2 in
              let matcher := match parsed with inl m => Some m | inr _ => None end in
              r <- scan_value type (At line3) 0 matcher command 1024 st ;;
              if negb (is_empty (errorbuf r)) then
                Ok (tty_print (print_parse_error (errorbuf r) line) (scanned_state r))
              else print_added command [cr] (scanned_state r)
            | _ => Fail (AssertionFailure "sanity")
            end) as OtherLine.
  { destruct (command2variant command); try finish_terminates.
    - apply bind_terminates; [apply D | intros line2 _].
      destruct (parse_method_pattern line2) as [[matcher|error_msg] line3];
        [|finish_terminates].
      apply bind_terminates; [apply add_option_string_terminates | intros st1 _].
      apply print_added_terminates.
    - apply bind_terminates; [apply D | intros line2 _].
      destruct (parse_method_pattern line2) as [parsed line3].
      apply bind_terminates; [apply scan_value_terminates | intros r _].
      destruct (negb _); [finish_terminates | apply print_added_terminates]. }
  destruct command; first [finish_terminates | exact OptionLine | exact OtherLine].
Qed.

Lemma compile_only_loop_terminates (fuel : nat) (method_sep : ascii) :
  forall (line : string) (className methodName : option string) (st : State),
    String.length line <= fuel ->
    terminates (compile_only_loop fuel method_sep line className methodName st).
Proof.
  induction fuel as [|fuel IH]; intros line className methodName st Enough.
  - destruct line; [finish_terminates | simpl in Enough; lia].
  - destruct line as [|c line]; [finish_terminates|].
    cbn [compile_only_loop].
    set (text := String c line) in *.
    set (name := copy_name method_sep 1024 text).
    assert (String.length
              (match drop (String.length name) text with
               | EmptyString => drop (String.length name) text
               | String _ rest => rest
               end) <= fuel) as Shorter.
    { pose proof (length_drop (String.length name) text) as L.
      destruct (drop (String.length name) text) as [|c' rest].
      - simpl. lia.
      - assert (String.length (String c' rest) = S (String.length rest)) as X
          by reflexivity.
        cbn iota. lia. }
    destruct (if Nat.ltb 0 (String.length name) then _ else _)
      as [className1 methodName1].
    apply bind_terminates.
    { destruct (first_char_is _ _), className1; finish_terminates. }
    intros [className2 c_match] _.
    apply bind_terminates.
    { destruct (directive_ends _); [|finish_terminates].
      destruct methodName1;
        (apply bind_terminates; [apply add_option_string_terminates | intros st1 _]);
        (apply bind_terminates; [|intros; finish_terminates]);
        unfold matcher_print; split_terminates. }
    intros [[className3 methodName3] st3] _.
    apply IH. exact Shorter.
Qed.

(** [parse_compile_only] never stops for lack of fuel. *)
Lemma parse_compile_only_terminates (line : string) (st : State) :
  terminates (parse_compile_only line st).
Proof.
  unfold parse_compile_only. apply compile_only_loop_terminates. lia.
Qed.

(** *** The chain only grows, and [any_set] follows it *)

Lemma grows_refl (st : State) : grows st st.
Proof. exists []. simpl. now rewrite orb_false_r. Qed.

Lemma grows_trans (st1 st2 st3 : State) :
  grows st1 st2 -> grows st2 st3 -> grows st1 st3.
Proof.
  intros (a & La & Aa) (b & Lb & Ab). exists (b ++ a)%list. split.
  - rewrite Lb, La. now rewrite app_assoc.
  - rewrite Ab, Aa, existsb_app. now destruct (any_set st1), (existsb _ a), (existsb _ b).
Qed.

Lemma grows_tty_print (events : list TtyEvent) (st : State) :
  grows st (tty_print events st).
Proof. exists []. simpl. now rewrite orb_false_r. Qed.

Lemma grows_link (m : TypedMethodOptionMatcher) (st : State) (q : bool)
    (out : list TtyEvent) :
  grows st (mkState (m :: option_list st)
              (if sets_any (_option m) then true else any_set st) q out).
Proof.
  exists [m]. simpl. split; [reflexivity|].
  now destruct (sets_any (_option m)), (any_set st).
Qed.

Lemma grows_add {T : Type} `{OptionValue T}
    (matcher : option TypedMethodOptionMatcher) (cc_option : CompileCommand.t)
    (v : T) (st st' : State) :
  add_option_string matcher cc_option v st = Ok st' -> grows st st'.
Proof.
  intro E. apply add_option_string_inv in E. destruct E as (m & w & _ & _ & ->).
  apply (grows_link (linked m cc_option v)).
Qed.

Lemma grows_tracks (st st' : State) : tracks st -> grows st st' -> tracks st'.
Proof.
  unfold tracks. intros Tr (added & L & A).
  rewrite A, L, existsb_app, Tr. apply orb_comm.
Qed.

Lemma grows_print_added (command : CompileCommand.t) (trailer : list TtyEvent)
    (st st' : State) :
  print_added command trailer st = Ok st' -> grows st st'.
Proof.
  intro P. apply print_added_inv in P. destruct P as [events ->].
  apply grows_tty_print.
Qed.

Lemma grows_option_clauses (fuel : nat) (archetype : TypedMethodOptionMatcher)
    (original : string) :
  forall (line : string) (st st' : State),
    option_clauses fuel archetype original line st = Ok st' -> grows st st'.
Proof.
  induction fuel as [|fuel IH]; intros line st st'; cbn [option_clauses];
    destruct (option_clause archetype original line st) as [result|] eqn:Body;
    cbn [bind]; try discriminate;
    apply option_clause_cases in Body;
    destruct result as [st1 | st1 | line1 st1]; try discriminate.
  1, 3: intros [= <-]; subst; apply grows_refl.
  1, 2: intros [= <-]; destruct Body as [report ->]; apply grows_tty_print.
  intro Rest. destruct Body as (_ & m & events & _ & ->).
  apply IH in Rest. eapply grows_trans; [|exact Rest].
  eapply grows_trans; [apply (grows_link m) | apply grows_tty_print].
Qed.

Lemma grows_parse_from_line (line : string) (st st' : State) :
  parse_from_line line st = Ok st' -> grows st st'.
Proof.
  unfold parse_from_line.
  destruct (is_empty line); [intros [= <-]; apply grows_refl|].
  destruct (first_char_is "#" line); [intros [= <-]; apply grows_refl|].
  destruct (parse_command_name line) as [command n].
  assert ((line2 <- deref (ptr_add (ptr_add (At line) n) 1) ;;
           match parse_method_pattern line2 with
           | (inr error_msg, _) =>
             Ok (tty_print (print_parse_error error_msg line) st)
           | (inl archetype, line3) =>
             let line4 := drop (skip_whitespace line3) line3 in
             option_clauses (String.length line4) archetype line line4 st
           end) = Ok st' -> grows st st') as OptionLine.
  { destruct (deref _) as [line2|]; cbn [bind]; [|discriminate].
    destruct (parse_method_pattern line2) as [[archetype|error_msg] line3].
    - apply grows_option_clauses.
    - intros [= <-]. apply grows_tty_print. }
  assert (match command2variant command with
          | CompileCommandVariant.Basic =>
            line2 <- deref (ptr_add (At line) n) ;;
            match parse_method_pattern line2 with
            | (inr error_msg, _) =>
              Ok (tty_print (print_parse_error error_msg line) st)
            | (inl matcher, _) =>
              st1 <- add_option_string (Some matcher) command true st ;;
              print_added command [cr] st1
            end
          | CompileCommandVariant.Standard =>
            let type := command2types command in
            line2 <- deref (ptr_add (ptr_add (At line) n) 1) ;;
            let (parsed, line3) := parse_method_pattern line2 in
            let matcher := match parsed with inl m => Some m | inr _ => None end in
            r <- scan_value type (At line3) 0 matcher command 1024 st ;;
            if negb (is_empty (errorbuf r)) then
              Ok (tty_print (print_parse_error (errorbuf r) line) (scanned_state r))
            else print_added command [cr] (scanned_state r)
          | _ => Fail (AssertionFailure "sanity")
          end = Ok st' -> grows st st') as OtherLine.
  { destruct (command2variant command); try discriminate.
    - destruct (deref (ptr_add (At line) n)) as [line2|]; cbn [bind]; [|discriminate].
      destruct (parse_method_pattern line2) as [[matcher|error_msg] line3].
      + destruct (add_option_string _ _ true st) as [st1|] eqn:Add; cbn [bind];
          [|discriminate].
        intro P. eapply grows_trans; [exact (grows_add _ _ _ _ _ Add)|].
        exact (grows_print_added _ _ _ _ P).
      + intros [= <-]. apply grows_tty_print.
    - destruct (deref (ptr_add (ptr_add (At line) n) 1)) as [line2|]; cbn [bind];
        [|discriminate].
      destruct (parse_method_pattern line2) as [parsed line3].
      destruct (scan_value _ _ _ _ _ _ st) as [r|] eqn:Scan; cbn [bind]; [|discriminate].
      assert (grows st (scanned_state r)) as G.
      { apply scan_value_cases in Scan; [|lia].
        destruct Scan as [[-> _] | (_ & T & H & v & Add)];
          [apply grows_refl | exact (grows_add _ _ _ _ _ Add)]. }
      destruct (negb _).
      + intros [= <-]. eapply grows_trans; [exact G | apply grows_tty_print].
      + intro P. eapply grows_trans; [exact G | exact (grows_print_added _ _ _ _ P)]. }
  destruct command; first [exact OptionLine | exact OtherLine | intros [= <-]];
    try apply grows_tty_print.
  exists []. simpl. now rewrite orb_false_r.
Qed.

Lemma grows_compile_only_loop (fuel : nat) (method_sep : ascii) :
  forall (line : string) (className methodName : option string) (st st' : State),
    compile_only_loop fuel method_sep line className methodName st = Ok st' ->
    grows st st'.
Proof.
  induction fuel as [|fuel IH]; intros line className methodName st st'.
  - destruct line; [intros [= <-]; apply grows_refl | discriminate].
  - destruct line as [|c line]; [intros [= <-]; apply grows_refl|].
    cbn [compile_only_loop].
    set (text := String c line).
    set (name := copy_name method_sep 1024 text).
    destruct (if Nat.ltb 0 (String.length name) then _ else _)
      as [className1 methodName1].
    match goal with
    | |- bind ?r _ = _ -> _ => destruct r as [[className2 c_match]|]
    end; cbn [bind]; [|discriminate].
    match goal with
    | |- bind ?r _ = _ -> _ =>
      destruct r as [[[className3 methodName3] st3]|] eqn:Step
    end; cbn [bind]; [|discriminate].
    intro Rest. apply IH in Rest. eapply grows_trans; [|exact Rest].
    clear Rest. revert Step.
    destruct (directive_ends _); [|intros [= _ _ <-]; apply grows_refl].
    destruct methodName1;
      (destruct (add_option_string _ _ true st) as [st1|] eqn:Add; cbn [bind];
       [|discriminate]);
      (destruct PrintVMOptions;
       [ destruct (option_list st1) as [|m ?]; [discriminate|];
         destruct (matcher_print m); cbn [bind]; [|discriminate]
       | cbn [bind] ]);
      intros [= _ _ <-];
      (eapply grows_trans; [exact (grows_add _ _ _ _ _ Add)|]);
      first [apply grows_tty_print | apply grows_refl].
Qed.

Lemma grows_parse_compile_only (line : string) (st st' : State) :
  parse_compile_only line st = Ok st' -> grows st st'.
Proof.
  unfold parse_compile_only. intro E. apply grows_compile_only_loop in E.
  eapply grows_trans; [|exact E].
  destruct Verbose; [apply grows_tty_print | apply grows_refl].
Qed.

(** *** Strings *)

Lemma length_append (a b : string) :
  String.length (a ++ b) = String.length a + String.length b.
Proof. induction a as [|c a IH]; simpl; auto. Qed.

Lemma drop_append (a b : string) : drop (String.length a) (a ++ b) = b.
Proof. induction a as [|c a IH]; simpl; auto. Qed.

Lemma scanset_append (p : ascii -> bool) (w : nat) (a b : string) :
  all_chars p a = true ->
  String.length a <= w ->
  stops p b = true \/ String.length a = w ->
  scanset p w (a ++ b) = a.
Proof.
  revert w. induction a as [|c a IH]; intros w All Len Stop.
  - cbn [append]. destruct Stop as [Stop | <-]; [|reflexivity].
    destruct w, b as [|c b]; try reflexivity. cbn in *.
    apply negb_true_iff in Stop. now rewrite Stop.
  - cbn in All. apply andb_true_iff in All. destruct All as [Pc All].
    destruct w as [|w]; [simpl in Len; lia|]. cbn. rewrite Pc. f_equal.
    apply IH; [exact All | simpl in Len; lia|].
    destruct Stop as [Stop | Eq]; [now left | right; simpl in Eq; lia].
Qed.

Lemma scanset_stops (p : ascii -> bool) (w : nat) (s : string) :
  stops p s = true -> scanset p w s = EmptyString.
Proof.
  destruct w, s as [|c s]; try reflexivity. cbn. intro Stop.
  apply negb_true_iff in Stop. now rewrite Stop.
Qed.

Lemma scanset_all_chars (p : ascii -> bool) (w : nat) (s : string) :
  all_chars p (scanset p w s) = true.
Proof.
  revert s. induction w as [|w IH]; intros [|c s]; try reflexivity.
  cbn. destruct (p c) eqn:Pc; [|reflexivity]. cbn. now rewrite Pc, IH.
Qed.

Lemma sscanf_token_append (set : ascii -> bool) (token rest : string) :
  all_chars set token = true ->
  1 <= String.length token <= 255 ->
  stops set rest = true ->
  sscanf_token set (token ++ rest) = Some (token, String.length token).
Proof.
  intros All Len Stop. unfold sscanf_token.
  rewrite scanset_append by (auto; lia).
  destruct token; [simpl in Len; lia | reflexivity].
Qed.

Lemma append_empty (s : string) : s ++ EmptyString = s.
Proof. induction s as [|c s IH]; simpl; congruence. Qed.

(** *** The separator of [parse_compile_only] *)












(** *** Clauses and values that are refused *)





(** *** Claims *)

(** C1. [TypedMethodOptionMatcher::match] returns the first record, from
    the head of the chain, whose kind is the requested one and whose
    pattern accepts the target, and NULL exactly when no record does;
    [add_option_string] links at the head, so after two insertions of
    the same kind that both accept the target the query returns the
    record inserted last. *)
Theorem C1_match_returns_most_recent :
  forall (st : State) (method : methodHandle) (option : CompileCommand.t)
         (type : OptionType.t),
    (forall m, match_ (option_list st) method option type = Some m
               <-> first_match (option_list st) method option m)
    /\ (match_ (option_list st) method option type = None
        <-> forall x, In x (option_list st) -> ~ accepts method option x)
    /\ (forall (T : Type) (H : OptionValue T) (m1 m2 : TypedMethodOptionMatcher)
               (v1 v2 : T) (st1 st2 : State),
          add_option_string (Some m1) option v1 st = Ok st1 ->
          add_option_string (Some m2) option v2 st1 = Ok st2 ->
          matches (base m1) method = true ->
          matches (base m2) method = true ->
          option_list st2 = linked m2 option v2 :: linked m1 option v1 :: option_list st
          /\ match_ (option_list st2) method option type = Some (linked m2 option v2)).
Proof.
  intros st method option type. split; [|split].
  - intro m. apply match_Some.
  - apply match_None.
  - intros T H m1 m2 v1 v2 st1 st2 E1 E2 A1 A2.
    apply add_option_string_inv in E1. destruct E1 as (? & w1 & [= <-] & _ & ->).
    apply add_option_string_inv in E2. destruct E2 as (? & w2 & [= <-] & _ & ->).
    simpl. split; [reflexivity|].
    replace (CompileCommand.eqb option option) with true
      by (symmetry; now apply CompileCommand_eqb_eq).
    now rewrite A2.
Qed.

(** C2. [scan_value] for a ccstrlist kind joins the tokens of "a b  c"
    into the stored string "a b c", but from "a  b c" it stores "a b": a
    blank run wider than one character before a token that is not the
    last one leaves the NUL behind that token in place, and the stored
    string ends there. *)
Theorem C2_ccstrlist_wide_gap_loses_tokens :
  forall (m : TypedMethodOptionMatcher) (cc_option : CompileCommand.t)
         (buf_size : nat) (st : State),
    command2types cc_option = OptionType.Ccstrlist ->
    (exists st',
        scan_value OptionType.Ccstrlist (At "a b  c") 0 (Some m) cc_option buf_size st
        = Ok (mkScanned st' 6 EmptyString)
        /\ links m cc_option "a b c" st st')
    /\ (exists st',
           scan_value OptionType.Ccstrlist (At "a  b c") 0 (Some m) cc_option buf_size st
           = Ok (mkScanned st' 6 EmptyString)
           /\ links m cc_option "a b" st st').
Proof.
  intros m cc buf_size st Ty.
  assert (stored_type (command2types cc) = @get_type_for string _) as Ts
    by (rewrite Ty; reflexivity).
  assert (forall line v n,
            scan_ccstrlist (drop (skip_whitespace line) line) (0 + skip_whitespace line)
            = Ok (Some (v, n)) ->
            exists st',
              scan_value OptionType.Ccstrlist (At line) 0 (Some m) cc buf_size st
              = Ok (mkScanned st' n EmptyString)
              /\ links m cc v st st') as Run.
  { intros line v n E.
    destruct (add_option_string_links m cc v st Ts) as (st' & Ea & L).
    exists st'. split; [|exact L].
    unfold scan_value. cbn [deref bind]. rewrite E. cbn [bind]. rewrite Ea.
    reflexivity. }
  split; apply Run; vm_compute; reflexivity.
Qed.


(** C4 (amended). [should_exclude] answers with the value of the first
    exclude record that accepts the target: it returns true exactly when
    that value is true, or the store holds a compile-only record and the
    first compile-only record that accepts the target, if any, does not
    hold true.  For a store whose exclude and compile-only records all
    hold true this is: the target is accepted by some exclude record, or
    a compile-only record exists and none accepts the target. *)
Theorem C4_should_exclude_by_first_value :
  forall (method : methodHandle) (st : State),
    command2types CompileCommand.Exclude = OptionType.Bool ->
    command2types CompileCommand.CompileOnly = OptionType.Bool ->
    holds_bools CompileCommand.Exclude st ->
    holds_bools CompileCommand.CompileOnly st ->
    (exists b, should_exclude method st = Ok b)
    /\ (should_exclude method st = Ok true
        <-> (exists m, first_match (option_list st) method CompileCommand.Exclude m
                       /\ _u m = bool_value true)
            \/ ((exists m, In m (option_list st) /\ _option m = CompileCommand.CompileOnly)
                /\ ~ exists m, first_match (option_list st) method CompileCommand.CompileOnly m
                               /\ _u m = bool_value true))
    /\ (all_true CompileCommand.Exclude st ->
        all_true CompileCommand.CompileOnly st ->
        (should_exclude method st = Ok true
         <-> (exists m, In m (option_list st) /\ accepts method CompileCommand.Exclude m)
             \/ ((exists m, In m (option_list st) /\ _option m = CompileCommand.CompileOnly)
                 /\ forall m, In m (option_list st)
                              -> ~ accepts method CompileCommand.CompileOnly m))).
Proof.
  intros method st TyE TyC HbE HbC.
  destruct (check_predicate_spec _ method st TyE HbE) as (e & Ee & Se).
  destruct (check_predicate_spec _ method st TyC HbC) as (c & Ec & Sc).
  pose proof (has_command_from_In (option_list st) CompileCommand.CompileOnly) as Hc.
  fold (has_command CompileCommand.CompileOnly st) in Hc.
  assert (should_exclude method st
          = Ok (e || (has_command CompileCommand.CompileOnly st && negb c))%bool) as R.
  { unfold should_exclude. rewrite Ee. simpl. destruct e; [reflexivity|].
    destruct (has_command CompileCommand.CompileOnly st); [|reflexivity].
    rewrite Ec. reflexivity. }
  assert (should_exclude method st = Ok true
          <-> (exists m, first_match (option_list st) method CompileCommand.Exclude m
                         /\ _u m = bool_value true)
              \/ ((exists m, In m (option_list st) /\ _option m = CompileCommand.CompileOnly)
                  /\ ~ exists m, first_match (option_list st) method CompileCommand.CompileOnly m
                                 /\ _u m = bool_value true)) as Main.
  { rewrite R, <- Se, <- Sc, <- Hc.
    destruct e, c, (has_command CompileCommand.CompileOnly st); simpl;
      split; intro X; try reflexivity; try discriminate X; auto;
      try (right; split; [reflexivity | discriminate]);
      destruct X as [X | [X1 X2]];
      first [discriminate X | discriminate X1 | now destruct X2]. }
  split; [eauto | split; [exact Main|]].
  intros AE AC. rewrite Main. clear Main R.
  assert (forall k, all_true k st ->
            ((exists m, first_match (option_list st) method k m /\ _u m = bool_value true)
             <-> exists m, In m (option_list st) /\ accepts method k m)) as Q.
  { intros k A. rewrite accepted_has_first. split.
    - intros (m & F & _). eauto.
    - intros (m & F). exists m. split; [exact F|].
      destruct (first_match_In _ _ _ _ F) as [I [K _]]. now apply A. }
  rewrite (Q _ AE), (Q _ AC). split.
  - intros [X | [X N]]; [now left | right]. split; [exact X|].
    intros m I A. apply N. eauto.
  - intros [X | [X N]]; [now left | right]. split; [exact X|].
    intros (m & I & A). exact (N m I A).
Qed.


(** C6. [scan_value] for a bool kind, after the leading blanks: on empty
    text it links the record with value true; when the alphabetic token
    is exactly "true" or "false" it links the record with that value; on
    any other text it writes an error message and links nothing. *)
Theorem C6_bool_value_scan :
  forall (line : string) (total : nat) (m : TypedMethodOptionMatcher)
         (cc_option : CompileCommand.t) (buf_size : nat) (st : State),
    command2types cc_option = OptionType.Bool ->
    2 <= buf_size ->
    let skipped := skip_whitespace line in
    let text := drop skipped line in
    let token := scanset is_alpha 255 text in
    let scanned := scan_value OptionType.Bool (At line) total (Some m) cc_option buf_size st in
    (text = EmptyString ->
       exists st', scanned = Ok (mkScanned st' (total + skipped) EmptyString)
                   /\ links m cc_option true st st')
    /\ (token = "true" ->
        exists st', scanned = Ok (mkScanned st' (total + skipped + 4) EmptyString)
                    /\ links m cc_option true st st')
    /\ (token = "false" ->
        exists st', scanned = Ok (mkScanned st' (total + skipped + 5) EmptyString)
                    /\ links m cc_option false st st')
    /\ (text <> EmptyString -> token <> "true" -> token <> "false" ->
        exists message,
          scanned = Ok (mkScanned st (total + skipped) message)
          /\ message <> EmptyString).
Proof.
  intros line total m cc buf_size st Ty Big skipped text token scanned.
  assert (stored_type (command2types cc) = @get_type_for bool _) as Tb
    by (rewrite Ty; reflexivity).
  assert (scanned =
          if is_empty text then
            st' <- add_option_string (Some m) cc true st ;;
            Ok (mkScanned st' (total + skipped) EmptyString)
          else
            match sscanf_token is_alpha text with
            | Some (v, bytes_read) =>
              if String.eqb v "true" then
                st' <- add_option_string (Some m) cc true st ;;
                Ok (mkScanned st' (total + skipped + bytes_read) EmptyString)
              else if String.eqb v "false" then
                st' <- add_option_string (Some m) cc false st ;;
                Ok (mkScanned st' (total + skipped + bytes_read) EmptyString)
              else Ok (mkScanned st (total + skipped)
                         (jio_snprintf buf_size
                            (cannot_read (command_names cc) (optiontype_names OptionType.Bool))))
            | None => Ok (mkScanned st (total + skipped)
                            (jio_snprintf buf_size
                               (cannot_read (command_names cc) (optiontype_names OptionType.Bool))))
            end) as Unfolded by reflexivity.
  assert (is_empty token = false -> is_empty text = false) as Nonempty.
  { unfold token. destruct text; [discriminate | reflexivity]. }
  rewrite Unfolded. clear Unfolded. unfold sscanf_token. fold token.
  destruct (add_option_string_links m cc true st Tb) as (st1 & E1 & L1).
  destruct (add_option_string_links m cc false st Tb) as (st0 & E0 & L0).
  repeat split.
  - intros Empty. rewrite Empty. simpl. rewrite E1. simpl. eauto.
  - intros Tok. rewrite Nonempty by (rewrite Tok; reflexivity).
    rewrite Tok. simpl. rewrite E1. simpl. eauto.
  - intros Tok. rewrite Nonempty by (rewrite Tok; reflexivity).
    rewrite Tok. simpl. rewrite E0. simpl. eauto.
  - intros NE Nt Nf.
    assert (is_empty text = false) as Q.
    { destruct (is_empty text) eqn:Q; [|reflexivity].
      apply is_empty_true in Q. contradiction. }
    rewrite Q.
    apply String.eqb_neq in Nt, Nf.
    exists (jio_snprintf buf_size
              (cannot_read (command_names cc) (optiontype_names OptionType.Bool))).
    split.
    + destruct (is_empty token); [reflexivity|]. now rewrite Nt, Nf.
    + intro X. apply is_empty_true in X. unfold cannot_read in X.
      change ("  Value cannot be read for flag " ++ command_names cc ++ " of type "
              ++ optiontype_names OptionType.Bool)
        with ("  " ++ ("Value cannot be read for flag " ++ command_names cc
                       ++ " of type " ++ optiontype_names OptionType.Bool)) in X.
      rewrite error_text_not_empty in X by exact Big. discriminate.
Qed.

(** C7. When the requested type [T] is not the type the kind is stored
    with (its registered OptionType, ccstrlist being stored as ccstr),
    [has_option_value] with [verify_type] set returns false and leaves
    [value] as it was; with [verify_type] clear the assertion "Value type
    must match command type" fails. *)
Theorem C7_type_mismatch_lenient_and_strict :
  forall (T : Type) (H : OptionValue T) (method : methodHandle)
         (option : CompileCommand.t) (v : T) (st : State),
    stored_type (command2types option) <> get_type_for ->
    has_option_value method option v true st = Ok (false, v)
    /\ has_option_value method option v false st
       = Fail (AssertionFailure "Value type must match command type").
Proof.
  intros T H method option v st Ne. apply OptionType_eqb_neq in Ne.
  unfold has_option_value. rewrite Ne. simpl. split; reflexivity.
Qed.

(** C8 (amended). [should_log] returns false whenever LogCompilation is
    off.  With it on, it returns true exactly when the store holds no log
    record, or the first log record that accepts the target holds true;
    for a store whose log records all hold true this is: no log record
    exists or some log record accepts the target. *)
Theorem C8_should_log_by_first_value :
  forall (method : methodHandle) (st : State),
    (LogCompilation = false -> should_log method st = Ok false)
    /\ (command2types CompileCommand.Log = OptionType.Bool ->
        holds_bools CompileCommand.Log st ->
        (exists b, should_log method st = Ok b)
        /\ (should_log method st = Ok true
            <-> LogCompilation = true
                /\ ((forall m, In m (option_list st) -> _option m <> CompileCommand.Log)
                    \/ exists m, first_match (option_list st) method CompileCommand.Log m
                                 /\ _u m = bool_value true))
        /\ (all_true CompileCommand.Log st ->
            (should_log method st = Ok true
             <-> LogCompilation = true
                 /\ ((forall m, In m (option_list st) -> _option m <> CompileCommand.Log)
                     \/ exists m, In m (option_list st)
                                  /\ accepts method CompileCommand.Log m)))).
Proof.
  intros method st. split.
  - intros Off. unfold should_log. now rewrite Off.
  - intros Ty Hb.
    destruct (check_predicate_spec _ method st Ty Hb) as (l & El & Sl).
    pose proof (has_command_from_In (option_list st) CompileCommand.Log) as Hc.
    fold (has_command CompileCommand.Log st) in Hc.
    assert (should_log method st
            = Ok (LogCompilation && (negb (has_command CompileCommand.Log st) || l))%bool) as R.
    { unfold should_log. destruct LogCompilation; [|reflexivity]. simpl.
      destruct (has_command CompileCommand.Log st); simpl; [exact El | reflexivity]. }
    assert ((forall m, In m (option_list st) -> _option m <> CompileCommand.Log)
            <-> has_command CompileCommand.Log st = false) as No.
    { split.
      - intro N. destruct (has_command CompileCommand.Log st) eqn:E; [|reflexivity].
        destruct (proj1 Hc eq_refl) as (m & I & K). now destruct (N m I).
      - intros E m I K. assert (has_command CompileCommand.Log st = true) as X
          by (apply Hc; eauto). congruence. }
    assert (should_log method st = Ok true
            <-> LogCompilation = true
                /\ ((forall m, In m (option_list st) -> _option m <> CompileCommand.Log)
                    \/ exists m, first_match (option_list st) method CompileCommand.Log m
                                 /\ _u m = bool_value true)) as Main.
    { rewrite R, <- Sl, No.
      destruct LogCompilation, l, (has_command CompileCommand.Log st); simpl;
        split; intro X; try reflexivity; try discriminate X; auto;
        destruct X as [X1 [X2 | X2]];
        first [discriminate X1 | discriminate X2]. }
    split; [eauto | split; [exact Main|]].
    intro A. rewrite Main.
    assert ((exists m, first_match (option_list st) method CompileCommand.Log m
                       /\ _u m = bool_value true)
            <-> exists m, In m (option_list st) /\ accepts method CompileCommand.Log m) as Q.
    { rewrite accepted_has_first. split.
      - intros (m & F & _). eauto.
      - intros (m & F). exists m. split; [exact F|].
        destruct (first_match_In _ _ _ _ F) as [I [K _]]. now apply A. }
    now rewrite Q.
Qed.

(** C9. Starting from the empty store, after any sequence of calls of
    [add_option_string] (each passing its assertions) the chain holds the
    records of the calls, newest first, and [has_any_option] is true
    exactly when some call had a kind other than Inline, DontInline and
    Log; a call never clears the flag.  In every state the startup code
    can reach, [has_any_option] is true exactly when the chain, from
    which nothing is ever unlinked, holds a record of such a kind. *)
Theorem C9_any_set_tracks_consequential_kinds :
  (forall cc_option,
      sets_any cc_option = false
      <-> cc_option = CompileCommand.Inline \/ cc_option = CompileCommand.DontInline
          \/ cc_option = CompileCommand.Log)
  /\ (forall requests,
        Forall (fun r => request_typed r = true) requests ->
        exists st,
          add_all requests initial_state = Ok st
          /\ map _option (option_list st) = rev (map request_option requests)
          /\ (has_any_option st = true
              <-> exists r, In r requests /\ sets_any (request_option r) = true))
  /\ (forall (T : Type) (H : OptionValue T) matcher cc_option (v : T) st st',
        add_option_string matcher cc_option v st = Ok st' ->
        (any_set st = true -> any_set st' = true)
        /\ (any_set st = false -> any_set st' = sets_any cc_option))
  /\ (forall st,
        reachable st ->
        (has_any_option st = true
         <-> exists m, In m (option_list st) /\ sets_any (_option m) = true))
  /\ (forall line st st',
        parse_from_line line st = Ok st' \/ parse_compile_only line st = Ok st' ->
        exists added, option_list st' = (added ++ option_list st)%list).
Proof.
  split; [exact sets_any_false | split; [|split; [|split]]].
  - intros requests Ty.
    destruct (add_all_spec requests Ty initial_state) as (st & E & L & A & _).
    exists st. simpl in *. rewrite app_nil_r in L. repeat split; auto.
    + unfold has_any_option. rewrite A. intro X. apply existsb_exists in X.
      exact X.
    + unfold has_any_option. rewrite A. intro X. apply existsb_exists. exact X.
  - intros T H matcher cc v st st' E.
    apply add_option_string_inv in E. destruct E as (m & w & _ & _ & ->).
    simpl. split; intros ->; now destruct (sets_any cc).
  - intros st R. unfold has_any_option.
    assert (tracks st) as Tr.
    { induction R as [|line st st' _ IH E|line st st' _ IH E].
      - reflexivity.
      - exact (grows_tracks _ _ IH (grows_parse_from_line _ _ _ E)).
      - exact (grows_tracks _ _ IH (grows_parse_compile_only _ _ _ E)). }
    rewrite Tr, existsb_exists. reflexivity.
  - intros line st st' [E | E];
      [apply grows_parse_from_line in E | apply grows_parse_compile_only in E];
      destruct E as (added & L & _); eauto.
Qed.

(** C10. A line that is empty or starts with '#' makes [parse_from_line]
    return at once: the chain, [any_set], [_quiet] and what was printed
    are all as before. *)
Theorem C10_comment_lines_are_skipped :
  forall (line : string) (st : State),
    is_comment line -> parse_from_line line st = Ok st.
Proof.
  intros line st [-> | [rest ->]]; reflexivity.
Qed.

(** *** Further properties: the store and its queries *)

Lemma lawful_bool : Lawful OptionValue_bool.
Proof.
  split; [intro v; split; reflexivity|].
  intros [| b | | | |] E; try discriminate. now exists b.
Qed.

Lemma lawful_intx : Lawful OptionValue_intx.
Proof.
  split; [intro v; split; reflexivity|].
  intros [| | i | | |] E; try discriminate. now exists i.
Qed.

Lemma lawful_uintx : Lawful OptionValue_uintx.
Proof.
  split; [intro v; split; reflexivity|].
  intros [| | | u | |] E; try discriminate. now exists u.
Qed.

Lemma lawful_double : Lawful OptionValue_double.
Proof.
  split; [intro v; split; reflexivity|].
  intros [| | | | d |] E; try discriminate. now exists d.
Qed.

Lemma lawful_ccstr : Lawful OptionValue_ccstr.
Proof.
  split; [intro v; split; reflexivity|].
  intros [| | | | | s] E; try discriminate. now exists s.
Qed.

Lemma has_option_value_typed {T : Type} `{OptionValue T} (method : methodHandle)
    (option : CompileCommand.t) (v : T) (verify : bool) (st : State) :
  stored_type (command2types option) = get_type_for ->
  has_option_value method option v verify st
  = match match_ (option_list st) method option (stored_type (command2types option)) with
    | Some m => v' <- value (_u m) ;; Ok (true, v')
    | None => Ok (false, v)
    end.
Proof.
  intro Ty. unfold has_option_value.
  replace (OptionType.eqb (stored_type (command2types option)) get_type_for) with true
    by (symmetry; now apply OptionType_eqb_eq).
  cbn [negb]. destruct (option_list st); now destruct verify.
Qed.

Lemma match_skip (r : TypedMethodOptionMatcher) (store : list TypedMethodOptionMatcher)
    (method : methodHandle) (option : CompileCommand.t) (type : OptionType.t) :
  _option r <> option \/ matches (base r) method = false ->
  match_ (r :: store) method option type = match_ store method option type.
Proof.
  intros [N | N]; cbn [match_].
  - apply CompileCommand_eqb_neq in N. now rewrite N.
  - rewrite N. now destruct (CompileCommand.eqb (_option r) option).
Qed.

(** X1. A value written by [add_option_string] is the value
    [has_option_value] reads back for every target the pattern accepts,
    in either mode and whatever [value] held before. *)
Theorem X1_lookup_after_add :
  forall (T : Type) (H : OptionValue T) (m : TypedMethodOptionMatcher)
         (cc_option : CompileCommand.t) (v v0 : T) (method : methodHandle)
         (verify : bool) (st st' : State),
    Lawful H ->
    add_option_string (Some m) cc_option v st = Ok st' ->
    matches (base m) method = true ->
    has_option_value method cc_option v0 verify st' = Ok (true, v).
Proof.
  intros T H m cc v v0 method verify st st' [Law _] Add Acc.
  apply add_option_string_inv in Add. destruct Add as (? & w & [= <-] & Ty & ->).
  rewrite has_option_value_typed by exact Ty. cbn [option_list match_ linked _option base].
  replace (CompileCommand.eqb cc cc) with true
    by (symmetry; now apply CompileCommand_eqb_eq).
  rewrite Acc. unfold linked. cbn [_u]. now rewrite (proj2 (Law v)).
Qed.

(** X2. Linking a record of another kind, or one whose pattern refuses
    the target, changes no answer of [has_option_value] for that target
    and kind. *)
Theorem X2_other_records_do_not_interfere :
  forall (T T' : Type) (H : OptionValue T) (H' : OptionValue T')
         (m : TypedMethodOptionMatcher) (cc_option option : CompileCommand.t)
         (v' : T') (v : T) (method : methodHandle) (verify : bool) (st st' : State),
    add_option_string (Some m) cc_option v' st = Ok st' ->
    cc_option <> option \/ matches (base m) method = false ->
    has_option_value method option v verify st'
    = has_option_value method option v verify st.
Proof.
  intros T T' H H' m cc option v' v method verify st st' Add Other.
  apply add_option_string_inv in Add. destruct Add as (? & w & [= <-] & _ & ->).
  unfold has_option_value. cbn [option_list].
  rewrite match_skip by exact Other.
  destruct (option_list st); reflexivity.
Qed.

(** X3. When no record of the kind accepts the target, as on the empty
    store, [has_option_value] for the type the kind is stored with
    returns false and leaves [value] as it was, in either mode. *)
Theorem X3_absent_value :
  forall (T : Type) (H : OptionValue T) (method : methodHandle)
         (option : CompileCommand.t) (v : T) (verify : bool) (st : State),
    stored_type (command2types option) = get_type_for ->
    (forall m, In m (option_list st) -> ~ accepts method option m) ->
    has_option_value method option v verify st = Ok (false, v).
Proof.
  intros T H method option v verify st Ty No.
  rewrite has_option_value_typed by exact Ty.
  apply (match_None _ _ _ (stored_type (command2types option))) in No.
  now rewrite No.
Qed.

Lemma has_option_value_false {T : Type} `{OptionValue T} (method : methodHandle)
    (option : CompileCommand.t) (v v' : T) (verify : bool) (st : State) :
  has_option_value method option v verify st = Ok (false, v') -> v' = v.
Proof.
  unfold has_option_value.
  set (lookup := match option_list st with
                 | [] => Ok (false, v)
                 | _ :: _ =>
                   match match_ (option_list st) method option
                           (stored_type (command2types option)) with
                   | Some m => v'0 <- value (_u m) ;; Ok (true, v'0)
                   | None => Ok (false, v)
                   end
                 end).
  assert (lookup = Ok (false, v') -> v' = v) as Look.
  { subst lookup. destruct (option_list st); [now intros [= <-]|].
    destruct (match_ _ _ _ _) as [m|]; [|now intros [= <-]].
    destruct (value (_u m)); discriminate. }
  destruct verify, (negb _); auto; try discriminate. now intros [= <-].
Qed.

(** X4. [has_option] and [check_predicate] agree on every input:
    [should_inline], [should_print] and [should_break_at] are [has_option]
    for their kind.  For a kind registered as bool whose records hold
    bools the answer is the value of the first record of the kind that
    accepts the target, and false when there is none. *)
Theorem X4_has_option_is_first_value :
  forall (method : methodHandle) (option : CompileCommand.t) (st : State),
    has_option method option st = check_predicate option method st
    /\ should_inline method st = has_option method CompileCommand.Inline st
    /\ should_print method st = has_option method CompileCommand.Print st
    /\ should_break_at method st = has_option method CompileCommand.Break st
    /\ (command2types option = OptionType.Bool ->
        holds_bools option st ->
        exists b,
          has_option method option st = Ok b
          /\ (b = true <->
              exists m, first_match (option_list st) method option m
                        /\ _u m = bool_value true)).
Proof.
  intros method option st.
  assert (forall k, has_option method k st = check_predicate k method st) as Same.
  { intro k. unfold has_option, check_predicate.
    destruct (has_option_value method k false verify_type_default st)
      as [[found b]|] eqn:E; cbn [bind fst snd]; [|reflexivity].
    destruct found; [reflexivity|].
    apply has_option_value_false in E. now subst. }
  split; [apply Same|].
  unfold should_inline, should_print, should_break_at.
  rewrite !Same. repeat split.
  intros Ty Hb. apply check_predicate_spec; assumption.
Qed.

(** X5. With exclude and dontinline registered as bool and their records
    holding bools, [should_not_inline] is true exactly when the first
    dontinline record or the first exclude record that accepts the target
    holds true; a target excluded by such an exclude record is both
    excluded and not inlined, whatever the compile-only records say. *)
Theorem X5_should_not_inline :
  forall (method : methodHandle) (st : State),
    command2types CompileCommand.DontInline = OptionType.Bool ->
    command2types CompileCommand.Exclude = OptionType.Bool ->
    holds_bools CompileCommand.DontInline st ->
    holds_bools CompileCommand.Exclude st ->
    (exists b, should_not_inline method st = Ok b)
    /\ (should_not_inline method st = Ok true
        <-> (exists m, first_match (option_list st) method CompileCommand.DontInline m
                       /\ _u m = bool_value true)
            \/ (exists m, first_match (option_list st) method CompileCommand.Exclude m
                          /\ _u m = bool_value true))
    /\ ((exists m, first_match (option_list st) method CompileCommand.Exclude m
                   /\ _u m = bool_value true) ->
        should_exclude method st = Ok true /\ should_not_inline method st = Ok true).
Proof.
  intros method st TyD TyE HbD HbE.
  destruct (check_predicate_spec _ method st TyD HbD) as (d & Ed & Sd).
  destruct (check_predicate_spec _ method st TyE HbE) as (e & Ee & Se).
  assert (should_not_inline method st = Ok (d || e)%bool) as R.
  { unfold should_not_inline. rewrite Ed. cbn [bind].
    destruct d; [reflexivity | exact Ee]. }
  assert (should_not_inline method st = Ok true
          <-> (exists m, first_match (option_list st) method CompileCommand.DontInline m
                         /\ _u m = bool_value true)
              \/ (exists m, first_match (option_list st) method CompileCommand.Exclude m
                            /\ _u m = bool_value true)) as Main.
  { rewrite R, <- Sd, <- Se. destruct d, e; cbn; split; intro X; auto;
      try discriminate X; destruct X as [X | X]; discriminate X. }
  split; [eauto | split; [exact Main|]].
  intro X. split; [|apply Main; now right].
  apply Se in X. subst e. unfold should_exclude. now rewrite Ee.
Qed.

(** *** Further properties: names and values *)

(** X6. A name of the table is read back as its own row: when the name
    is a non-empty run of at most 255 characters of [a-zA-Z0-9] that no
    other row carries, [string_to_option] returns the row, and
    [parse_command_name] returns it with the length of the name whatever
    follows the name, as long as that does not start with a character of
    the set. *)
Theorem X6_command_name_round_trip :
  forall (c : CompileCommand.t),
    In c commands ->
    (forall c', In c' commands -> command_names c' = command_names c -> c' = c) ->
    all_chars is_alnum (command_names c) = true ->
    1 <= String.length (command_names c) <= 255 ->
    string_to_option (command_names c) = c
    /\ forall rest,
         stops is_alnum rest = true ->
         parse_command_name (command_names c ++ rest)
         = (c, String.length (command_names c)).
Proof.
  intros c I Unique All Len.
  assert (forall rest,
            stops is_alnum rest = true ->
            parse_command_name (command_names c ++ rest)
            = (c, String.length (command_names c))) as Parse.
  { intros rest Stop. unfold parse_command_name.
    rewrite sscanf_token_append by assumption.
    destruct (find (fun c' => String.eqb (command_names c) (command_names c')) commands)
      as [c'|] eqn:F.
    - apply find_some in F. destruct F as [I' E]. apply String.eqb_eq in E.
      now rewrite (Unique c' I' (eq_sym E)).
    - exfalso. apply (find_none _ _ F c) in I. now rewrite String.eqb_refl in I. }
  split; [|exact Parse].
  unfold string_to_option. rewrite <- (append_empty (command_names c)) at 1.
  now rewrite Parse.
Qed.

(** X7. [parse_command_name] looks at the leading run of [a-zA-Z0-9]
    only.  A line that starts with another character, or is empty, gives
    Unknown with no byte read; a token that is no name of the table gives
    Unknown with the length of the token, also when a name of the table
    is a proper prefix of it. *)
Theorem X7_unknown_command_names :
  (forall line,
      stops is_alnum line = true ->
      parse_command_name line = (CompileCommand.Unknown, 0))
  /\ (forall token rest,
         all_chars is_alnum token = true ->
         1 <= String.length token <= 255 ->
         stops is_alnum rest = true ->
         (forall c, In c commands -> command_names c <> token) ->
         parse_command_name (token ++ rest)
         = (CompileCommand.Unknown, String.length token)).
Proof.
  split.
  - intros line Stop. unfold parse_command_name, sscanf_token.
    now rewrite scanset_stops.
  - intros token rest All Len Stop No. unfold parse_command_name.
    rewrite sscanf_token_append by assumption.
    destruct (find (fun c => String.eqb token (command_names c)) commands)
      as [c|] eqn:F; [|reflexivity].
    apply find_some in F. destruct F as [I E]. apply String.eqb_eq in E.
    now destruct (No c I).
Qed.

Lemma digit_is_no_separator (c : ascii) :
  is_digit c = true -> is_fraction_sep c = false /\ is_blank c = false.
Proof.
  destruct c as [[] [] [] [] [] [] [] []]; intro D;
    first [discriminate D | split; reflexivity].
Qed.

Lemma separator_is_no_digit (c : ascii) :
  is_fraction_sep c = true -> is_digit c = false.
Proof.
  destruct (is_digit c) eqn:D; [|reflexivity].
  apply digit_is_no_separator in D. destruct D as [D _]. congruence.
Qed.

Lemma substring_whole (n : nat) (s : string) :
  String.length s <= n -> substring 0 n s = s.
Proof.
  revert n. induction s as [|c s IH]; intros [|n] L; simpl in *; try reflexivity;
    try lia.
  f_equal. apply IH. lia.
Qed.

(** X8. [scan_value] for a double kind reads a run of digits, a run of
    blanks and slashes and a second run of digits (each run of digits at
    most 255 long) and links the value [atof] gives for the two runs
    joined by a decimal point; it counts exactly the bytes of the three
    runs. *)
Theorem X8_double_value_scan :
  forall (int_part sep frac_part rest : string) (total : nat)
         (m : TypedMethodOptionMatcher) (cc_option : CompileCommand.t)
         (buf_size : nat) (st : State),
    command2types cc_option = OptionType.Double ->
    all_chars is_digit int_part = true ->
    1 <= String.length int_part <= 255 ->
    all_chars is_fraction_sep sep = true ->
    1 <= String.length sep ->
    all_chars is_digit frac_part = true ->
    1 <= String.length frac_part <= 255 ->
    stops is_digit rest = true ->
    exists st',
      scan_value OptionType.Double (At (int_part ++ sep ++ frac_part ++ rest)) total
        (Some m) cc_option buf_size st
      = Ok (mkScanned st'
              (total + (String.length int_part + String.length sep
                        + String.length frac_part))
              EmptyString)
      /\ links m cc_option (atof (int_part ++ "." ++ frac_part)) st st'.
Proof.
  intros int_part sep frac_part rest total m cc buf_size st Ty Ai Li As Ls Af Lf Stop.
  assert (stored_type (command2types cc) = @get_type_for double _) as Td
    by (rewrite Ty; reflexivity).
  destruct int_part as [|d int_part]; [simpl in Li; lia|].
  destruct sep as [|b sep]; [simpl in Ls; lia|].
  destruct frac_part as [|f frac_part]; [simpl in Lf; lia|].
  set (ip := String d int_part) in *.
  set (sp := String b sep) in *.
  set (fp := String f frac_part) in *.
  assert (is_digit d = true) as Dd by (cbn in Ai; now apply andb_true_iff in Ai).
  assert (is_fraction_sep b = true) as Db by (cbn in As; now apply andb_true_iff in As).
  assert (is_digit f = true) as Df by (cbn in Af; now apply andb_true_iff in Af).
  assert (skip_whitespace (ip ++ sp ++ fp ++ rest) = 0) as Skip.
  { unfold skip_whitespace, scanset_all. rewrite scanset_stops; [reflexivity|].
    subst ip. cbn. now rewrite (proj2 (digit_is_no_separator d Dd)). }
  assert (sscanf_double (ip ++ sp ++ fp ++ rest)
          = Some (ip, fp, String.length ip + String.length sp + String.length fp))
    as Scan.
  { unfold sscanf_double.
    rewrite scanset_append; [| exact Ai | lia |].
    2:{ left. subst sp. cbn. now rewrite (separator_is_no_digit b Db). }
    rewrite drop_append. unfold scanset_all.
    rewrite scanset_append; [| exact As | rewrite length_append; lia |].
    2:{ left. subst fp. cbn. now rewrite (proj1 (digit_is_no_separator f Df)). }
    rewrite drop_append.
    rewrite scanset_append; [| exact Af | lia | now left].
    reflexivity. }
  destruct (add_option_string_links m cc (atof (ip ++ "." ++ fp)) st Td)
    as (st' & Add & L).
  exists st'. split; [|exact L].
  unfold scan_value. cbn [deref bind]. rewrite Skip. cbn [drop]. rewrite Scan.
  unfold jio_snprintf. rewrite substring_whole.
  - rewrite Add. cbn [bind]. do 2 f_equal. lia.
  - rewrite length_append.
    change (String.length ("." ++ fp)) with (S (String.length fp)).
    change (512 - 1) with 511. lia.
Qed.

(** *** Further properties: texts of several lines *)

Lemma bind_Ok {A : Type} (r : Res A) : bind r (fun a => Ok a) = r.
Proof. now destruct r. Qed.

Lemma length_snoc (token : string) (c : ascii) :
  String.length (token ++ String c EmptyString) = S (String.length token).
Proof. rewrite length_append. simpl. lia. Qed.

Lemma append_snoc (token rest : string) (c : ascii) :
  (token ++ String c EmptyString) ++ rest = token ++ String c rest.
Proof. induction token as [|d token IH]; simpl; congruence. Qed.

Lemma lines_of_head (text : string) :
  forall token, exists line rest,
    lines_of text token = line :: rest /\ String.length token <= String.length line.
Proof.
  induction text as [|c text IH]; intro token; cbn [lines_of].
  - exists token, []. auto.
  - destruct (Ascii.eqb c "010").
    + exists token, (lines_of text EmptyString). auto.
    + destruct (IH (token ++ String c EmptyString)) as (line & rest & E & L).
      exists line, rest. split; [exact E|]. rewrite length_snoc in L. lia.
Qed.

Lemma parse_from_string_loop_lines (parse_line : string -> State -> Res State)
    (text : string) :
  forall (token : string) (st : State),
    all_chars not_nul text = true ->
    Forall (fun line => String.length line <= 1022) (lines_of text token) ->
    parse_from_string_loop parse_line text token st
    = parse_lines parse_line (lines_of text token) st.
Proof.
  induction text as [|c text IH]; intros token st Nul Short.
  - cbn. now rewrite bind_Ok.
  - cbn in Nul. apply andb_true_iff in Nul. destruct Nul as [Nc Nul].
    unfold not_nul in Nc. cbn [parse_from_string_loop lines_of] in *. rewrite Nc.
    assert (Nat.ltb (String.length token) 1023 = true) as Room.
    { apply Nat.ltb_lt. destruct (Ascii.eqb c "010").
      - inversion Short; subst. lia.
      - destruct (lines_of_head text (token ++ String c EmptyString))
          as (line & rest & E & L).
        rewrite E in Short. inversion Short; subst. rewrite length_snoc in L. lia. }
    rewrite Room. cbn [andb]. destruct (Ascii.eqb c "010").
    + cbn [parse_lines]. destruct (parse_line token st) as [st'|]; cbn [bind]; auto.
      apply IH; [exact Nul | now inversion Short].
    + apply IH; assumption.
Qed.

(** X9. [parse_from_string] cuts the text at its newlines and hands the
    pieces to [parse_line] in order, each in the state the previous one
    left, the piece after the last newline included (the empty one when
    the text is empty or ends in a newline); a failure of [parse_line]
    ends the parse.  This holds when no piece is longer than 1022
    characters. *)
Theorem X9_parse_from_string_splits_lines :
  forall (parse_line : string -> State -> Res State) (text : string) (st : State),
    all_chars not_nul text = true ->
    Forall (fun line => String.length line <= 1022) (lines_of text EmptyString) ->
    parse_from_string text parse_line st
    = parse_lines parse_line (lines_of text EmptyString) st.
Proof.
  intros parse_line text st. apply parse_from_string_loop_lines.
Qed.

Lemma parse_from_string_loop_full (parse_line : string -> State -> Res State)
    (long : string) :
  forall (token rest : string) (st : State),
    all_chars not_nul long = true ->
    all_chars not_newline long = true ->
    String.length token + String.length long = 1023 ->
    parse_from_string_loop parse_line (long ++ rest) token st
    = parse_line (token ++ long) st.
Proof.
  induction long as [|c long IH]; intros token rest st Nul Nl Len.
  - cbn [append]. rewrite append_empty. simpl in Len.
    destruct rest as [|d rest]; cbn [parse_from_string_loop]; [reflexivity|].
    replace (Nat.ltb (String.length token) 1023) with false
      by (symmetry; apply Nat.ltb_ge; lia).
    now rewrite andb_false_r.
  - cbn in Nul, Nl. apply andb_true_iff in Nul, Nl.
    destruct Nul as [Nc Nul], Nl as [Lc Nl]. unfold not_nul in Nc.
    unfold not_newline in Lc. apply negb_true_iff in Lc.
    cbn [append parse_from_string_loop]. rewrite Nc, Lc.
    replace (Nat.ltb (String.length token) 1023) with true
      by (symmetry; apply Nat.ltb_lt; simpl in Len; lia).
    cbn [andb]. rewrite IH; try assumption.
    + now rewrite append_snoc.
    + rewrite length_snoc. simpl in Len. lia.
Qed.

(** X10. A text that starts with 1023 characters without a newline is
    cut after them: [parse_line] gets these 1023 characters once, and
    whatever follows, further lines included, is never parsed. *)
Theorem X10_long_line_ends_the_parse :
  forall (parse_line : string -> State -> Res State) (long rest : string) (st : State),
    all_chars not_nul long = true ->
    all_chars not_newline long = true ->
    String.length long = 1023 ->
    parse_from_string (long ++ rest) parse_line st = parse_line long st.
Proof.
  intros parse_line long rest st Nul Nl Len. unfold parse_from_string.
  now rewrite parse_from_string_loop_full.
Qed.

Lemma c_string_whole (s : string) : all_chars not_nul s = true -> c_string s = s.
Proof.
  induction s as [|c s IH]; [reflexivity|]. cbn. unfold not_nul. intro A.
  apply andb_true_iff in A. destruct A as [Nc A]. apply negb_true_iff in Nc.
  now rewrite Nc, IH.
Qed.

Lemma all_chars_snoc (p : ascii -> bool) (token : string) (c : ascii) :
  all_chars p token = true -> p c = true ->
  all_chars p (token ++ String c EmptyString) = true.
Proof.
  induction token as [|d token IH]; cbn; intros A Pc.
  - now rewrite Pc.
  - apply andb_true_iff in A. destruct A as [Pd A]. now rewrite Pd, IH.
Qed.

Lemma parse_from_file_loop_string (bytes : string) :
  forall (token : string) (st : State),
    all_chars not_nul bytes = true ->
    all_chars not_nul token = true ->
    parse_from_file_loop bytes token st
    = parse_from_string_loop parse_from_line bytes token st.
Proof.
  induction bytes as [|c bytes IH]; intros token st Nul Tok;
    cbn [parse_from_file_loop parse_from_string_loop].
  - now rewrite c_string_whole.
  - cbn in Nul. apply andb_true_iff in Nul. destruct Nul as [Nc Nul].
    pose proof Nc as Nc'. unfold not_nul in Nc'. rewrite Nc'. cbn [andb].
    rewrite (c_string_whole token Tok).
    destruct (Nat.ltb (String.length token) 1023); [|reflexivity].
    destruct (Ascii.eqb c "010").
    + destruct (parse_from_line token st); cbn [bind]; [|reflexivity].
      now apply IH.
    + apply IH; [exact Nul | now apply all_chars_snoc].
Qed.

(** X11. [parse_from_file] does nothing when the file cannot be opened,
    and parses a file without NUL bytes exactly as [parse_from_string]
    parses the same text with [parse_from_line]. *)
Theorem X11_file_is_parsed_like_a_string :
  forall (st : State),
    parse_from_file None st = Ok st
    /\ forall bytes,
         all_chars not_nul bytes = true ->
         parse_from_file (Some bytes) st = parse_from_string bytes parse_from_line st.
Proof.
  intro st. split; [reflexivity|]. intros bytes Nul.
  unfold parse_from_file, parse_from_string.
  now apply parse_from_file_loop_string.
Qed.

Lemma reachable_tracks (st : State) : reachable st -> tracks st.
Proof.
  induction 1 as [|line st st' _ IH E|line st st' _ IH E].
  - reflexivity.
  - exact (grows_tracks _ _ IH (grows_parse_from_line _ _ _ E)).
  - exact (grows_tracks _ _ IH (grows_parse_compile_only _ _ _ E)).
Qed.

Lemma parse_from_string_loop_keeps (P : State -> Prop)
    (parse_line : string -> State -> Res State) :
  (forall line st st', P st -> parse_line line st = Ok st' -> P st') ->
  forall (text token : string) (st st' : State),
    P st -> parse_from_string_loop parse_line text token st = Ok st' -> P st'.
Proof.
  intros Keep text. induction text as [|c text IH]; intros token st st' Pst;
    cbn [parse_from_string_loop].
  - apply Keep. exact Pst.
  - destruct (negb (Ascii.eqb c nul) && Nat.ltb (String.length token) 1023);
      [|apply Keep; exact Pst].
    destruct (Ascii.eqb c "010").
    + destruct (parse_line token st) as [st1|] eqn:E; cbn [bind]; [|discriminate].
      apply IH. exact (Keep _ _ _ Pst E).
    + apply IH. exact Pst.
Qed.

Lemma parse_from_file_loop_keeps (P : State -> Prop) :
  (forall line st st', P st -> parse_from_line line st = Ok st' -> P st') ->
  forall (bytes token : string) (st st' : State),
    P st -> parse_from_file_loop bytes token st = Ok st' -> P st'.
Proof.
  intros Keep bytes. induction bytes as [|c bytes IH]; intros token st st' Pst;
    cbn [parse_from_file_loop].
  - apply Keep. exact Pst.
  - destruct (Nat.ltb (String.length token) 1023); [|apply Keep; exact Pst].
    destruct (Ascii.eqb c "010").
    + destruct (parse_from_line (c_string token) st) as [st1|] eqn:E; cbn [bind];
        [|discriminate].
      apply IH. exact (Keep _ _ _ Pst E).
    + apply IH. exact Pst.
Qed.

(** X12. Whatever [parse_line] keeps invariant, [parse_from_string]
    keeps invariant.  So the states the three sources of directives lead
    to (a text of lines for [parse_from_line], a text for
    [parse_compile_only], the command file) are reachable states, where
    [has_any_option] is true exactly when a record of a kind other than
    Inline, DontInline and Log is on the chain. *)
Theorem X12_drivers_keep_invariants :
  (forall (P : State -> Prop) (parse_line : string -> State -> Res State),
      (forall line st st', P st -> parse_line line st = Ok st' -> P st') ->
      forall text st st',
        P st -> parse_from_string text parse_line st = Ok st' -> P st')
  /\ (forall text st st',
         reachable st ->
         parse_from_string text parse_from_line st = Ok st'
         \/ parse_from_string text parse_compile_only st = Ok st'
         \/ parse_from_file (Some text) st = Ok st' ->
         reachable st'
         /\ (has_any_option st' = true
             <-> exists m, In m (option_list st') /\ sets_any (_option m) = true)).
Proof.
  split.
  - intros P parse_line Keep text st st'. unfold parse_from_string.
    apply parse_from_string_loop_keeps. exact Keep.
  - intros text st st' R Run.
    assert (reachable st') as R'.
    { destruct Run as [Run | [Run | Run]].
      + revert Run. unfold parse_from_string.
        apply parse_from_string_loop_keeps; [|exact R].
        intros line s s' Rs E. exact (reach_line line s s' Rs E).
      + revert Run. unfold parse_from_string.
        apply parse_from_string_loop_keeps; [|exact R].
        intros line s s' Rs E. exact (reach_compile_only line s s' Rs E).
      + revert Run. unfold parse_from_file.
        apply parse_from_file_loop_keeps; [|exact R].
        intros line s s' Rs E. exact (reach_line line s s' Rs E). }
    split; [exact R'|].
    unfold has_any_option. rewrite (reachable_tracks st' R'), existsb_exists.
    reflexivity.
Qed.

(** *** Further properties: what the parsers do to the state *)

Lemma evolves_refl (st : State) : evolves st st.
Proof. exists [], []. now rewrite app_nil_r. Qed.

Lemma evolves_trans (st1 st2 st3 : State) :
  evolves st1 st2 -> evolves st2 st3 -> evolves st1 st3.
Proof.
  intros (a & oa & La & Wa & Qa & Ta) (b & ob & Lb & Wb & Qb & Tb).
  exists (b ++ a)%list, (oa ++ ob)%list. repeat split.
  - rewrite Lb, La. now rewrite app_assoc.
  - apply Forall_app. now split.
  - auto.
  - rewrite Tb, Ta. now rewrite app_assoc.
Qed.

Lemma evolves_tty_print (events : list TtyEvent) (st : State) :
  evolves st (tty_print events st).
Proof. exists [], events. repeat split; auto. Qed.

Lemma evolves_linked_one (x : TypedMethodOptionMatcher) (out : list TtyEvent)
    (st st' : State) :
  well_typed x -> linked_one x out st st' -> evolves st st'.
Proof.
  intros W ->. exists [x], out. repeat split; auto.
Qed.

Lemma evolves_print_added (command : CompileCommand.t) (trailer : list TtyEvent)
    (st st' : State) :
  print_added command trailer st = Ok st' -> evolves st st'.
Proof.
  intro P. apply print_added_inv in P. destruct P as [events ->].
  apply evolves_tty_print.
Qed.

Ltac linked_record E :=
  let m := fresh "m" in
  let w := fresh "w" in
  let Ty := fresh "Ty" in
  match type of E with
  | add_option_string _ ?cc ?v _ = _ =>
    apply add_option_string_inv in E;
    destruct E as (m & w & -> & Ty & ->);
    right; split; [reflexivity|];
    exists m, (linked m cc v), w;
    split; [unfold linked_one; reflexivity|];
    split; [reflexivity|];
    split; [split; [reflexivity | cbn; rewrite Ty; reflexivity]|];
    split; reflexivity
  end.

(** [scan_value] writes an error message and leaves the state alone, or
    links one well-typed record of the kind [cc_option] with the pattern
    of [matcher]. *)
Lemma scan_value_links (type : OptionType.t) (line : LinePtr) (total : nat)
    (matcher : option TypedMethodOptionMatcher) (cc_option : CompileCommand.t)
    (buf_size : nat) (st : State) (r : Scanned) :
  2 <= buf_size ->
  scan_value type line total matcher cc_option buf_size st = Ok r ->
  (scanned_state r = st /\ is_empty (errorbuf r) = false)
  \/ (errorbuf r = EmptyString
      /\ exists m x w,
           linked_one x w st (scanned_state r)
           /\ matcher = Some m
           /\ well_typed x
           /\ base x = base m
           /\ _option x = cc_option).
Proof.
  intro Big. destruct buf_size as [|[|k]]; try lia. clear Big.
  unfold scan_value. destruct line as [s|]; [|discriminate]. cbn [deref bind].
  set (text := drop (skip_whitespace s) s).
  destruct type.
  - destruct (sscanf_intx text) as [[v n]|];
      [|intros [= <-]; left; split; reflexivity].
    destruct (add_option_string matcher cc_option v st) eqn:E; [|discriminate].
    intros [= <-]. linked_record E.
  - destruct (sscanf_uintx text) as [[v n]|];
      [|intros [= <-]; left; split; reflexivity].
    destruct (add_option_string matcher cc_option v st) eqn:E; [|discriminate].
    intros [= <-]. linked_record E.
  - destruct (is_empty text).
    + destruct (add_option_string matcher cc_option true st) eqn:E; [|discriminate].
      intros [= <-]. linked_record E.
    + destruct (sscanf_token is_alpha text) as [[v n]|];
        [|intros [= <-]; left; split; reflexivity].
      destruct (String.eqb v "true"); [|destruct (String.eqb v "false")].
      * destruct (add_option_string matcher cc_option true st) eqn:E; [|discriminate].
        intros [= <-]. linked_record E.
      * destruct (add_option_string matcher cc_option false st) eqn:E; [|discriminate].
        intros [= <-]. linked_record E.
      * intros [= <-]. left. split; reflexivity.
  - destruct (sscanf_token is_ident text) as [[v n]|];
      [|intros [= <-]; left; split; reflexivity].
    destruct (add_option_string matcher cc_option v st) eqn:E; [|discriminate].
    intros [= <-]. linked_record E.
  - destruct (scan_ccstrlist text (total + skip_whitespace s)) as [[[v n]|]|];
      cbn [bind]; [| intros [= <-]; left; split; reflexivity | discriminate].
    destruct (add_option_string matcher cc_option v st) eqn:E; [|discriminate].
    intros [= <-]. linked_record E.
  - destruct (sscanf_double text) as [[[i f] n]|];
      [|intros [= <-]; left; split; reflexivity].
    destruct (add_option_string matcher cc_option _ st) eqn:E; [|discriminate].
    intros [= <-]. linked_record E.
  - intros [= <-]. left. split; reflexivity.
Qed.

(** [scan_flag_and_value] writes an error message and leaves the state
    alone, or links one well-typed record whose kind is registered with
    the type [type]. *)
Lemma scan_flag_and_value_links :
  forall (type : OptionType.t) (line : string)
         (matcher : option TypedMethodOptionMatcher) (buf_size : nat)
         (st : State) (r : Scanned),
    2 <= buf_size ->
    scan_flag_and_value type line matcher buf_size st = Ok r ->
    (scanned_state r = st /\ errorbuf r <> EmptyString)
    \/ (errorbuf r = EmptyString
        /\ exists m x w,
             linked_one x w st (scanned_state r)
             /\ matcher = Some m
             /\ well_typed x
             /\ base x = base m
             /\ command2types (_option x) = type
             /\ In (_option x) commands).
Proof.
  intros type line matcher buf_size st r Big. unfold scan_flag_and_value.
  assert (forall e : string, is_empty e = false -> e <> EmptyString) as NE
    by (intros e E ->; discriminate).
  destruct (sscanf_blank_token is_alnum line) as [[flag n]|].
  - destruct (CompileCommand.eqb _ _) eqn:K.
    { destruct buf_size as [|[|k]]; try lia.
      intros [= <-]. left. split; [reflexivity | apply NE; reflexivity]. }
    destruct (negb _) eqn:Q.
    { destruct buf_size as [|[|k]]; try lia.
      intros [= <-]. left. split; [reflexivity | apply NE; reflexivity]. }
    intro E. apply scan_value_links in E; [|exact Big].
    destruct E as [[S Err] | (B & m & x & w & L & M & W & Bx & Ox)];
      [left; split; [exact S | now apply NE] | right].
    split; [exact B|]. exists m, x, w.
    split; [exact L | split; [exact M | split; [exact W | split; [exact Bx|]]]].
    split.
    + apply negb_false_iff, OptionType_eqb_eq in Q. now rewrite Ox.
    + rewrite Ox. apply CompileCommand_eqb_neq in K. revert K.
      unfold parse_command_name.
      destruct (sscanf_token is_alnum flag) as [[token k]|]; cbn [fst];
        [|congruence].
      destruct (find _ commands) as [c|] eqn:F; [|congruence].
      intros _. apply find_some in F. exact (proj1 F).
  - destruct buf_size as [|[|k]]; try lia.
    intros [= <-]. left. split; [reflexivity | apply NE; reflexivity].
Qed.

(** X13. A typed clause [<type>, <flag>, <value>] adds a record only for
    a flag of the table whose registered type is the type the clause
    names: [scan_flag_and_value] either writes a non-empty error message
    and leaves the state alone, or links exactly one record, well typed,
    with the pattern of the line. *)
Theorem X13_typed_clause_checks_the_type :
  forall (type : OptionType.t) (line : string)
         (matcher : option TypedMethodOptionMatcher) (buf_size : nat)
         (st : State) (r : Scanned),
    2 <= buf_size ->
    scan_flag_and_value type line matcher buf_size st = Ok r ->
    (scanned_state r = st /\ errorbuf r <> EmptyString)
    \/ (errorbuf r = EmptyString
        /\ exists m x w,
             linked_one x w st (scanned_state r)
             /\ matcher = Some m
             /\ well_typed x
             /\ base x = base m
             /\ command2types (_option x) = type
             /\ In (_option x) commands).
Proof.
  exact scan_flag_and_value_links.
Qed.

Lemma evolves_add {T : Type} `{OptionValue T}
    (matcher : option TypedMethodOptionMatcher) (cc_option : CompileCommand.t)
    (v : T) (st st' : State) :
  Lawful H -> add_option_string matcher cc_option v st = Ok st' -> evolves st st'.
Proof.
  intros [Law _] E. apply add_option_string_inv in E.
  destruct E as (m & w & _ & Ty & ->).
  apply (evolves_linked_one (linked m cc_option v) w); [|reflexivity].
  split; [reflexivity|]. cbn. rewrite Ty. apply Law.
Qed.

Lemma option_clause_evolves (archetype : TypedMethodOptionMatcher)
    (original line : string) (st : State) (result : ClauseResult) :
  option_clause archetype original line st = Ok result ->
  evolves st match result with
             | LoopExit st' | Returned st' | NextClause _ st' => st'
             end.
Proof.
  unfold option_clause.
  destruct (sscanf_token is_alnum line) as [[option_type n]|];
    [|intros [= <-]; apply evolves_refl].
  destruct (negb (OptionType.eqb (parse_option_type option_type) OptionType.Unknown)).
  - destruct (scan_flag_and_value _ _ _ _ st) as [r|] eqn:Scan; cbn [bind]; [|discriminate].
    assert (evolves st (scanned_state r)) as Step.
    { apply scan_flag_and_value_links in Scan; [|lia].
      destruct Scan as [[-> _] | (_ & m & x & w & L & _ & W & _)].
      - apply evolves_refl.
      - exact (evolves_linked_one x w _ _ W L). }
    destruct (negb (is_empty (errorbuf r))).
    + intros [= <-]. eapply evolves_trans; [exact Step | apply evolves_tty_print].
    + destruct (print_added _ _ (scanned_state r)) as [st2|] eqn:P; cbn [bind]; [|discriminate].
      destruct (deref _) as [line3|]; cbn [bind]; [|discriminate].
      intros [= <-].
      eapply evolves_trans; [exact Step | exact (evolves_print_added _ _ _ _ P)].
  - destruct (CompileCommand.eqb _ _).
    + intros [= <-]. apply evolves_tty_print.
    + destruct (add_option_string _ _ true st) as [st1|] eqn:Add; cbn [bind]; [|discriminate].
      destruct (print_added _ _ st1) as [st2|] eqn:P; cbn [bind]; [|discriminate].
      intros [= <-].
      eapply evolves_trans;
        [exact (evolves_add _ _ _ _ _ lawful_bool Add) | exact (evolves_print_added _ _ _ _ P)].
Qed.

Lemma option_clauses_evolves (fuel : nat) (archetype : TypedMethodOptionMatcher)
    (original : string) :
  forall (line : string) (st st' : State),
    option_clauses fuel archetype original line st = Ok st' -> evolves st st'.
Proof.
  induction fuel as [|fuel IH]; intros line st st'; cbn [option_clauses];
    destruct (option_clause archetype original line st) as [result|] eqn:Body;
    cbn [bind]; try discriminate;
    apply option_clause_evolves in Body;
    destruct result as [st1 | st1 | line1 st1]; try discriminate;
    try (intros [= <-]; exact Body).
  intro Rest. apply IH in Rest. exact (evolves_trans _ _ _ Body Rest).
Qed.

Lemma parse_from_line_evolves (line : string) (st st' : State) :
  parse_from_line line st = Ok st' -> evolves st st'.
Proof.
  unfold parse_from_line.
  destruct (is_empty line); [intros [= <-]; apply evolves_refl|].
  destruct (first_char_is "#" line); [intros [= <-]; apply evolves_refl|].
  destruct (parse_command_name line) as [command n].
  assert ((line2 <- deref (ptr_add (ptr_add (At line) n) 1) ;;
           match parse_method_pattern line2 with
           | (inr error_msg, _) =>
             Ok (tty_print (print_parse_error error_msg line) st)
           | (inl archetype, line3) =>
             let line4 := drop (skip_whitespace line3) line3 in
             option_clauses (String.length line4) archetype line line4 st
           end) = Ok st' -> evolves st st') as OptionLine.
  { destruct (deref (ptr_add (ptr_add (At line) n) 1)) as [line2|]; cbn [bind];
      [|discriminate].
    destruct (parse_method_pattern line2) as [[archetype|error_msg] line3].
    - apply option_clauses_evolves.
    - intros [= <-]. apply evolves_tty_print. }
  assert (match command2variant command with
          | CompileCommandVariant.Basic =>
            line2 <- deref (ptr_add (At line) n) ;;
            match parse_method_pattern line2 with
            | (inr error_msg, _) =>
              Ok (tty_print (print_parse_error error_msg line) st)
            | (inl matcher, _) =>
              st1 <- add_option_string (Some matcher) command true st ;;
              print_added command [cr] st1
            end
          | CompileCommandVariant.Standard =>
            let type := command2types command in
            line2 <- deref (ptr_add (ptr_add (At line) n) 1) ;;
            let (parsed, line3) := parse_method_pattern line2 in
            let matcher := match parsed with inl m => Some m | inr _ => None end in
            r <- scan_value type (At line3) 0 matcher command 1024 st ;;
            if negb (is_empty (errorbuf r)) then
              Ok (tty_print (print_parse_error (errorbuf r) line) (scanned_state r))
            else print_added command [cr] (scanned_state r)
          | _ => Fail (AssertionFailure "sanity")
          end = Ok st' -> evolves st st') as OtherLine.
  { destruct (command2variant command); try discriminate.
    - destruct (deref (ptr_add (At line) n)) as [line2|]; cbn [bind]; [|discriminate].
      destruct (parse_method_pattern line2) as [[matcher|error_msg] line3].
      + destruct (add_option_string _ _ true st) as [st1|] eqn:Add; cbn [bind];
          [|discriminate].
        intro P.
        eapply evolves_trans;
          [exact (evolves_add _ _ _ _ _ lawful_bool Add)
          | exact (evolves_print_added _ _ _ _ P)].
      + intros [= <-]. apply evolves_tty_print.
    - destruct (deref (ptr_add (ptr_add (At line) n) 1)) as [line2|]; cbn [bind];
        [|discriminate].
      destruct (parse_method_pattern line2) as [parsed line3].
      destruct (scan_value _ _ _ _ _ _ st) as [r|] eqn:Scan; cbn [bind]; [|discriminate].
      assert (evolves st (scanned_state r)) as G.
      { apply scan_value_links in Scan; [|lia].
        destruct Scan as [[-> _] | (_ & m & x & w & L & _ & W & _)].
        - apply evolves_refl.
        - exact (evolves_linked_one x w _ _ W L). }
      destruct (negb _).
      + intros [= <-]. eapply evolves_trans; [exact G | apply evolves_tty_print].
      + intro P. eapply evolves_trans; [exact G | exact (evolves_print_added _ _ _ _ P)]. }
  destruct command; first [exact OptionLine | exact OtherLine | intros [= <-]];
    try apply evolves_tty_print.
  exists [], []. cbn. rewrite app_nil_r. repeat split; auto.
Qed.

Lemma adds_compile_only_refl (st : State) : adds_compile_only st st.
Proof. exists [], []. now rewrite app_nil_r. Qed.

Lemma adds_compile_only_trans (st1 st2 st3 : State) :
  adds_compile_only st1 st2 -> adds_compile_only st2 st3 -> adds_compile_only st1 st3.
Proof.
  intros (a & oa & La & Wa & Qa & Ta) (b & ob & Lb & Wb & Qb & Tb).
  exists (b ++ a)%list, (oa ++ ob)%list. repeat split.
  - rewrite Lb, La. now rewrite app_assoc.
  - apply Forall_app. now split.
  - congruence.
  - rewrite Tb, Ta. now rewrite app_assoc.
Qed.

Lemma adds_compile_only_tty_print (events : list TtyEvent) (st : State) :
  adds_compile_only st (tty_print events st).
Proof. exists [], events. repeat split; auto. Qed.

Lemma adds_compile_only_add (matcher : option TypedMethodOptionMatcher)
    (st st' : State) :
  add_option_string matcher CompileCommand.CompileOnly true st = Ok st' ->
  adds_compile_only st st'.
Proof.
  intro E. apply add_option_string_inv in E. destruct E as (m & w & _ & Ty & ->).
  exists [linked m CompileCommand.CompileOnly true], w. repeat split; auto.
  constructor; [|constructor]. unfold well_typed.
  cbn. rewrite Ty. repeat split.
Qed.

Lemma compile_only_loop_adds (fuel : nat) (method_sep : ascii) :
  forall (line : string) (className methodName : option string) (st st' : State),
    compile_only_loop fuel method_sep line className methodName st = Ok st' ->
    adds_compile_only st st'.
Proof.
  induction fuel as [|fuel IH]; intros line className methodName st st'.
  - destruct line; [intros [= <-]; apply adds_compile_only_refl | discriminate].
  - destruct line as [|c line]; [intros [= <-]; apply adds_compile_only_refl|].
    cbn [compile_only_loop].
    set (text := String c line).
    set (name := copy_name method_sep 1024 text).
    destruct (if Nat.ltb 0 (String.length name) then _ else _)
      as [className1 methodName1].
    match goal with
    | |- bind ?r _ = _ -> _ => destruct r as [[className2 c_match]|]
    end; cbn [bind]; [|discriminate].
    match goal with
    | |- bind ?r _ = _ -> _ =>
      destruct r as [[[className3 methodName3] st3]|] eqn:Step
    end; cbn [bind]; [|discriminate].
    intro Rest. apply IH in Rest. eapply adds_compile_only_trans; [|exact Rest].
    clear Rest. revert Step.
    destruct (directive_ends _); [|intros [= _ _ <-]; apply adds_compile_only_refl].
    destruct methodName1;
      (destruct (add_option_string _ _ true st) as [st1|] eqn:Add; cbn [bind];
       [|discriminate]);
      (destruct PrintVMOptions;
       [ destruct (option_list st1) as [|m ?]; [discriminate|];
         destruct (matcher_print m); cbn [bind]; [|discriminate]
       | cbn [bind] ]);
      intros [= _ _ <-];
      (eapply adds_compile_only_trans; [exact (adds_compile_only_add _ _ _ Add)|]);
      first [apply adds_compile_only_tty_print | apply adds_compile_only_refl].
Qed.

Lemma parse_compile_only_adds (line : string) (st st' : State) :
  parse_compile_only line st = Ok st' -> adds_compile_only st st'.
Proof.
  unfold parse_compile_only. intro E. apply compile_only_loop_adds in E.
  eapply adds_compile_only_trans; [|exact E].
  destruct Verbose; [apply adds_compile_only_tty_print | apply adds_compile_only_refl].
Qed.

Lemma adds_compile_only_evolves (st st' : State) :
  adds_compile_only st st' -> evolves st st'.
Proof.
  intros (added & out & L & W & Q & T). exists added, out. repeat split; auto.
  - eapply Forall_impl; [|exact W]. intros x (_ & _ & _ & Wx). exact Wx.
  - congruence.
Qed.

(** *** What the parsers do to the store *)

(** X14. A line of [parse_from_line] only links well-typed records at
    the head of the chain, never clears [_quiet] and only appends to the
    output; [parse_compile_only] only links well-typed compile-only
    records that hold true and leaves [_quiet] alone. *)
Theorem X14_parsers_only_extend_the_store :
  forall (line : string) (st st' : State),
    (parse_from_line line st = Ok st' -> evolves st st')
    /\ (parse_compile_only line st = Ok st' -> adds_compile_only st st').
Proof.
  intros line st st'. split.
  - apply parse_from_line_evolves.
  - apply parse_compile_only_adds.
Qed.

Lemma reachable_well_typed (st : State) :
  reachable st -> Forall well_typed (option_list st).
Proof.
  induction 1 as [|line st st' R IH Run|line st st' R IH Run].
  - constructor.
  - apply parse_from_line_evolves in Run. destruct Run as (added & out & L & W & _).
    rewrite L. apply Forall_app. now split.
  - apply parse_compile_only_adds, adds_compile_only_evolves in Run.
    destruct Run as (added & out & L & W & _).
    rewrite L. apply Forall_app. now split.
Qed.

Lemma typed_lookup_reads {T : Type} `{OptionValue T} (method : methodHandle)
    (option : CompileCommand.t) (v : T) (verify : bool) (st : State) :
  Lawful H ->
  Forall well_typed (option_list st) ->
  stored_type (command2types option) = get_type_for ->
  exists found v', has_option_value method option v verify st = Ok (found, v').
Proof.
  intros [_ Law] W Ty. rewrite has_option_value_typed by exact Ty.
  destruct (match_ _ _ _ _) as [m|] eqn:M; [|eauto].
  apply match_Some in M. destruct M as (newer & older & Store & [K _] & _).
  assert (well_typed m) as [Tm Um].
  { rewrite Forall_forall in W. apply W. rewrite Store.
    apply in_or_app. right. now left. }
  destruct (Law (_u m)) as [v' V].
  { rewrite Um, Tm, K. exact Ty. }
  rewrite V. cbn [bind]. eauto.
Qed.

(** X15. Every record on a chain built by [parse_from_line] and
    [parse_compile_only] holds a value of the type its kind is registered
    with.  So on such a chain [has_option_value] reads the member of the
    union that was written: it returns a result whenever the type asked
    for is the type of the kind or [verify_type] is set, and
    [check_predicate] returns a result for every kind registered as
    bool. *)
Theorem X15_reachable_store_is_well_typed :
  forall (st : State),
    reachable st ->
    Forall well_typed (option_list st)
    /\ (forall (T : Type) (H : OptionValue T) (method : methodHandle)
               (option : CompileCommand.t) (v : T) (verify : bool),
           Lawful H ->
           stored_type (command2types option) = get_type_for \/ verify = true ->
           exists found v', has_option_value method option v verify st = Ok (found, v'))
    /\ (forall (command : CompileCommand.t) (method : methodHandle),
           command2types command = OptionType.Bool ->
           exists b, check_predicate command method st = Ok b).
Proof.
  intros st R. pose proof (reachable_well_typed st R) as W.
  split; [exact W | split].
  - intros T H method option v verify Law [Ty | ->].
    + now apply typed_lookup_reads.
    + destruct (OptionType.eqb (stored_type (command2types option)) get_type_for) eqn:E.
      * apply OptionType_eqb_eq in E. now apply typed_lookup_reads.
      * unfold has_option_value. rewrite E. cbn [negb]. eauto.
  - intros command method Ty. unfold check_predicate.
    destruct (typed_lookup_reads method command false verify_type_default st
                lawful_bool W) as (found & v' & E).
    { rewrite Ty. reflexivity. }
    rewrite E. cbn [bind fst snd]. destruct found; eauto.
Qed.

Lemma lookup_head {T : Type} `{OptionValue T} (m : TypedMethodOptionMatcher)
    (cc_option : CompileCommand.t) (v v0 : T) (method : methodHandle)
    (verify : bool) (out : list TtyEvent) (st st' : State) :
  Lawful H ->
  stored_type (command2types cc_option) = get_type_for ->
  linked_one (linked m cc_option v) out st st' ->
  matches (base m) method = true ->
  has_option_value method cc_option v0 verify st' = Ok (true, v).
Proof.
  intros [Law _] Ty -> Acc.
  rewrite has_option_value_typed by exact Ty. cbn [option_list match_ linked _option base].
  replace (CompileCommand.eqb cc_option cc_option) with true
    by (symmetry; now apply CompileCommand_eqb_eq).
  rewrite Acc. unfold linked. cbn [_u]. now rewrite (proj2 (Law v)).
Qed.

(** Linking [linked m cc v] and announcing it, as the Basic and Standard
    branches of [parse_from_line] do. *)
Lemma add_and_print {T : Type} `{OptionValue T} (m : TypedMethodOptionMatcher)
    (cc_option : CompileCommand.t) (v : T) (st : State) :
  stored_type (command2types cc_option) = get_type_for ->
  (exists out, matcher_print (linked m cc_option v) = Ok out) ->
  exists st1 st' out,
    add_option_string (Some m) cc_option v st = Ok st1
    /\ print_added cc_option [cr] st1 = Ok st'
    /\ linked_one (linked m cc_option v) out st st'.
Proof.
  intros Ty [printed P].
  destruct (add_option_string_Ok m cc_option v st Ty) as [w Add].
  destruct (_quiet st) eqn:Q.
  - eexists _, _, w. split; [exact Add|]. split.
    + reflexivity.
    + unfold linked_one. now rewrite Q.
  - eexists _, _, (w ++ [print ("CompileCommand: " ++ command_names cc_option ++ " ")]
                     ++ printed ++ [cr])%list.
    split; [exact Add|]. split.
    + unfold print_added. cbn [_quiet option_list]. rewrite P. cbn [bind].
      reflexivity.
    + unfold linked_one, tty_print. cbn [option_list any_set _quiet tty].
      rewrite Q, <- app_assoc. reflexivity.
Qed.

(** X16. A line of a Basic kind registered as bool whose pattern is read
    links one record with the value true, whatever follows the pattern,
    and [check_predicate] then answers true for every target the pattern
    accepts. *)
Theorem X16_basic_line_round_trip :
  forall (line : string) (st : State) (command : CompileCommand.t) (n : nat)
         (m : TypedMethodOptionMatcher) (rest : string),
    ~ is_comment line ->
    parse_command_name line = (command, n) ->
    has_variant command CompileCommandVariant.Basic ->
    command2types command = OptionType.Bool ->
    parse_method_pattern (drop n line) = (inl m, rest) ->
    exists st' out,
      parse_from_line line st = Ok st'
      /\ linked_one (linked m command true) out st st'
      /\ forall method, matches (base m) method = true ->
           check_predicate command method st' = Ok true.
Proof.
  intros line st command n m rest NC Cmd (N1 & N2 & N3 & N4 & V) Ty Pat.
  destruct (not_comment line NC) as [NE NH].
  pose proof (parse_command_name_bytes _ _ _ Cmd) as Bytes.
  assert (stored_type (command2types command) = @get_type_for bool _) as Tb
    by (rewrite Ty; reflexivity).
  destruct (add_and_print m command true st Tb) as (st1 & st' & out & Add & P & L).
  { unfold matcher_print, linked. cbn [_type]. rewrite Ty. cbn. eauto. }
  exists st', out. split; [|split; [exact L|]].
  - unfold parse_from_line. rewrite NE, NH, Cmd, V, ptr_add_in_bounds by exact Bytes.
    cbn [deref bind]. rewrite Pat, Add. cbn [bind]. rewrite P.
    destruct command; try contradiction; reflexivity.
  - intros method Acc. unfold check_predicate.
    rewrite (lookup_head m command true false method verify_type_default out st st'
               lawful_bool Tb L Acc).
    reflexivity.
Qed.

(** X17. A line of a Standard kind registered as intx, or as uintx, whose
    pattern is read and whose value [sscanf] converts links one record
    with that value, and [has_option_value] then returns it for every
    target the pattern accepts. *)
Theorem X17_standard_number_line_round_trip :
  forall (line : string) (st : State) (command : CompileCommand.t) (n : nat)
         (m : TypedMethodOptionMatcher) (rest : string),
    ~ is_comment line ->
    parse_command_name line = (command, n) ->
    has_variant command CompileCommandVariant.Standard ->
    n < String.length line ->
    parse_method_pattern (drop (S n) line) = (inl m, rest) ->
    let text := drop (skip_whitespace rest) rest in
    (forall v k,
        command2types command = OptionType.Intx ->
        sscanf_intx text = Some (v, k) ->
        exists st' out,
          parse_from_line line st = Ok st'
          /\ linked_one (linked m command v) out st st'
          /\ forall method v0 verify, matches (base m) method = true ->
               has_option_value method command v0 verify st' = Ok (true, v))
    /\ (forall v k,
           command2types command = OptionType.Uintx ->
           sscanf_uintx text = Some (v, k) ->
           exists st' out,
             parse_from_line line st = Ok st'
             /\ linked_one (linked m command v) out st st'
             /\ forall method v0 verify, matches (base m) method = true ->
                  has_option_value method command v0 verify st' = Ok (true, v)).
Proof.
  intros line st command n m rest NC Cmd (N1 & N2 & N3 & N4 & V) Lt Pat text.
  destruct (not_comment line NC) as [NE NH].
  assert (deref (ptr_add (ptr_add (At line) n) 1) = Ok (drop (S n) line)) as Skip.
  { rewrite ptr_add_in_bounds by lia.
    rewrite ptr_add_in_bounds by (rewrite length_drop; lia).
    cbn [deref]. now rewrite drop_one_more. }
  split; intros v k Ty Scan.
  - assert (stored_type (command2types command) = @get_type_for Z _) as Tz
      by (rewrite Ty; reflexivity).
    destruct (add_and_print m command v st Tz) as (st1 & st' & out & Add & P & L).
    { unfold matcher_print, linked. cbn [_type]. rewrite Ty. cbn. eauto. }
    exists st', out. split; [|split; [exact L|]].
    + unfold parse_from_line. rewrite NE, NH, Cmd, V, Skip.
      cbn [bind]. rewrite Pat, Ty. unfold scan_value. cbn [deref bind].
      fold text. rewrite Scan, Add. cbn [bind errorbuf is_empty negb scanned_state].
      rewrite P. destruct command; try contradiction; reflexivity.
    + intros method v0 verify Acc.
      exact (lookup_head m command v v0 method verify out st st' lawful_intx Tz L Acc).
  - assert (stored_type (command2types command) = @get_type_for N _) as Tn
      by (rewrite Ty; reflexivity).
    destruct (add_and_print m command v st Tn) as (st1 & st' & out & Add & P & L).
    { unfold matcher_print, linked. cbn [_type]. rewrite Ty. cbn. eauto. }
    exists st', out. split; [|split; [exact L|]].
    + unfold parse_from_line. rewrite NE, NH, Cmd, V, Skip.
      cbn [bind]. rewrite Pat, Ty. unfold scan_value. cbn [deref bind].
      fold text. rewrite Scan, Add. cbn [bind errorbuf is_empty negb scanned_state].
      rewrite P. destruct command; try contradiction; reflexivity.
    + intros method v0 verify Acc.
      exact (lookup_head m command v v0 method verify out st st' lawful_uintx Tn L Acc).
Qed.

Lemma copy_name_stops (method_sep c : ascii) (room : nat) (rest : string) :
  c = ","%char \/ isspace c = true ->
  copy_name method_sep room (String c rest) = EmptyString.
Proof.
  intro Sep. destruct room as [|room]; [reflexivity|]. cbn [copy_name].
  destruct Sep as [-> | Sp].
  - cbn. now rewrite andb_false_r.
  - rewrite Sp. cbn [negb]. now rewrite andb_false_r.
Qed.

(** X18. [parse_compile_only] reaches [ShouldNotReachHere] when a
    directive starts with a comma or a white-space character: at the
    start of the list and, in the loop, wherever no class name is
    pending, as after a directive that was just added. *)
Theorem X18_compile_only_empty_directive :
  forall (c : ascii) (rest : string) (st : State),
    c = ","%char \/ isspace c = true ->
    parse_compile_only (String c rest) st = Fail ShouldNotReachHere
    /\ forall fuel method_sep methodName,
         method_sep = ":"%char \/ method_sep = "."%char ->
         compile_only_loop (S fuel) method_sep (String c rest) None methodName st
         = Fail ShouldNotReachHere.
Proof.
  intros c rest st Sep.
  assert (forall fuel method_sep methodName st0,
            method_sep = ":"%char \/ method_sep = "."%char ->
            compile_only_loop (S fuel) method_sep (String c rest) None methodName st0
            = Fail ShouldNotReachHere) as Loop.
  { intros fuel method_sep methodName st0 Ms. cbn [compile_only_loop].
    rewrite (copy_name_stops method_sep c 1024 rest Sep).
    cbn [String.length Nat.ltb Nat.leb drop first_char_is].
    assert (Ascii.eqb c method_sep = false) as Ne.
    { destruct Sep as [-> | Sp]; [now destruct Ms as [-> | ->]|].
      apply Ascii.eqb_neq. intros ->.
      destruct Ms as [-> | ->]; vm_compute in Sp; discriminate. }
    rewrite Ne. reflexivity. }
  split.
  - unfold parse_compile_only. cbn [String.length]. apply Loop.
    destruct (has_double_colon _); auto.
  - intros fuel method_sep methodName. apply Loop.
Qed.

(** *** The ccstrlist branch *)

Lemma cells_length (s : string) : List.length (cells s) = String.length s.
Proof.
  unfold cells. rewrite length_map.
  induction s as [|c s IH]; [reflexivity|]. cbn. now rewrite IH.
Qed.

Lemma cells_append (a b : string) : cells (a ++ b) = (cells a ++ cells b)%list.
Proof.
  unfold cells. induction a as [|c a IH]; [reflexivity|]. cbn. now rewrite IH.
Qed.

Lemma all_chars_append (p : ascii -> bool) (a b : string) :
  all_chars p a = true -> all_chars p b = true -> all_chars p (a ++ b) = true.
Proof.
  intros A B. induction a as [|c a IH]; [exact B|].
  cbn in *. apply andb_true_iff in A. destruct A as [C A].
  rewrite C. now apply IH.
Qed.

Lemma all_chars_impl (p q : ascii -> bool) (s : string) :
  (forall c, p c = true -> q c = true) -> all_chars p s = true -> all_chars q s = true.
Proof.
  intros I. induction s as [|c s IH]; [reflexivity|]. cbn.
  intro A. apply andb_true_iff in A. destruct A as [C A].
  rewrite (I c C). now apply IH.
Qed.

Lemma list_char_not_nul (c : ascii) : is_list_char c = true -> not_nul c = true.
Proof.
  unfold not_nul. destruct (Ascii.eqb c nul) eqn:E; [|reflexivity].
  apply Ascii.eqb_eq in E. subst c. vm_compute. discriminate.
Qed.

Lemma poke_shift (pre b : Buffer) (i : nat) (c : ascii) :
  poke (pre ++ b)%list (List.length pre + i) c
  = (b' <- poke b i c ;; Ok (pre ++ b')%list).
Proof.
  induction pre as [|x pre IH]; cbn [List.length app Nat.add poke].
  - now destruct (poke b i c).
  - rewrite IH. now destruct (poke b i c).
Qed.

Lemma poke_ok (b : Buffer) (c : ascii) :
  forall i, i < List.length b ->
    exists b', poke b i c = Ok b' /\ List.length b' = List.length b.
Proof.
  induction b as [|x b IH]; intros i Lt; [cbn in Lt; lia|].
  destruct i as [|i]; cbn [poke].
  - eexists. split; reflexivity.
  - destruct (IH i) as (b' & E & L); [cbn in Lt; lia|].
    rewrite E. cbn [bind]. eexists. split; [reflexivity|]. cbn. now rewrite L.
Qed.

Lemma store_token_shift (pre : Buffer) (token : string) :
  forall (b : Buffer) (i : nat),
    store_token (pre ++ b)%list (List.length pre + i) token
    = (b' <- store_token b i token ;; Ok (pre ++ b')%list).
Proof.
  induction token as [|c token IH]; intros b i; cbn [store_token].
  - apply poke_shift.
  - rewrite poke_shift. destruct (poke b i c) as [b1|]; cbn [bind]; [|reflexivity].
    rewrite <- Nat.add_succ_r. apply IH.
Qed.

Lemma store_token_ok (token : string) :
  forall (b : Buffer) (i : nat),
    i + String.length token < List.length b ->
    exists b', store_token b i token = Ok b' /\ List.length b' = List.length b.
Proof.
  induction token as [|c token IH]; intros b i Lt; cbn [store_token].
  - apply poke_ok. cbn in Lt. lia.
  - destruct (poke_ok b c i) as (b1 & E & L); [cbn in Lt; lia|].
    rewrite E. cbn [bind].
    destruct (IH b1 (S i)) as (b2 & E2 & L2); [cbn in Lt; lia|].
    exists b2. split; [exact E2 | congruence].
Qed.

Lemma store_token_head (token : string) :
  forall (b : Buffer),
    String.length token < List.length b ->
    store_token b 0 token
    = Ok (cells token ++ Some nul :: skipn (S (String.length token)) b)%list.
Proof.
  induction token as [|c token IH]; intros b Lt; cbn [store_token].
  - destruct b as [|x b]; [cbn in Lt; lia | reflexivity].
  - destruct b as [|x b]; [cbn in Lt; lia|]. cbn [poke bind].
    change (Some c :: b) with ([Some c] ++ b)%list.
    change 1 with (List.length [Some c] + 0).
    rewrite store_token_shift, IH by (cbn in Lt; lia). reflexivity.
Qed.

Lemma c_str_cells (acc : string) (tail : Buffer) :
  all_chars not_nul acc = true ->
  c_str (cells acc ++ Some nul :: tail)%list = Ok acc.
Proof.
  induction acc as [|c acc IH]; [reflexivity|]. cbn [all_chars].
  intro A. apply andb_true_iff in A. destruct A as [C A].
  change (cells (String c acc)) with (Some c :: cells acc).
  cbn [app c_str]. unfold not_nul in C. apply negb_true_iff in C. rewrite C.
  now rewrite IH.
Qed.

Lemma sscanf_blank_token_inv (set : ascii -> bool) (line token : string) (n : nat) :
  sscanf_blank_token set line = Some (token, n) ->
  exists gap,
    1 <= gap /\ n = gap + String.length token /\ n <= String.length line
    /\ all_chars set token = true.
Proof.
  intro E. pose proof (sscanf_blank_token_bytes _ _ _ _ E) as [_ Le].
  unfold sscanf_blank_token in E.
  set (blank := scanset_all is_blank line) in *.
  set (read := scanset set 255 (drop (String.length blank) line)) in *.
  destruct (is_empty blank) eqn:B; [discriminate|].
  destruct (is_empty read); [discriminate|].
  assert (token = read /\ n = String.length blank + String.length read) as [-> ->]
    by (split; congruence).
  exists (String.length blank). repeat split; auto.
  - destruct blank; [discriminate | cbn; lia].
  - apply scanset_all_chars.
Qed.

(** One pass of the loop while [next_value] still follows the NUL of the
    text accumulated so far: the token is appended after a blank. *)
Lemma ccstrlist_step_in_place (acc token : string) (tail : Buffer) :
  String.length token < List.length tail ->
  (value1 <- store_token (cells acc ++ Some nul :: tail)%list
               (String.length acc + 1 + 0) token ;;
   poke value1 (String.length acc + 0) " ")
  = Ok (cells (acc ++ " " ++ token) ++ Some nul
          :: skipn (S (String.length token)) tail)%list.
Proof.
  intro Lt.
  replace (cells acc ++ Some nul :: tail)%list
    with ((cells acc ++ [Some nul]) ++ tail)%list by now rewrite <- app_assoc.
  replace (String.length acc + 1 + 0)
    with (List.length (cells acc ++ [Some nul])%list + 0)
    by (rewrite length_app, cells_length; cbn; lia).
  rewrite store_token_shift, store_token_head by exact Lt. cbn [bind].
  rewrite <- app_assoc. rewrite <- (cells_length acc) at 1.
  rewrite poke_shift. cbn [app poke bind].
  rewrite !cells_append, <- !app_assoc. reflexivity.
Qed.

(** One pass of the loop once [next_value] has moved past the NUL: the
    text before the NUL and the NUL stay. *)
Lemma ccstrlist_step_adrift (acc token : string) (tail : Buffer) (d : nat) :
  S d + String.length token < List.length tail ->
  exists tail',
    (value1 <- store_token (cells acc ++ Some nul :: tail)%list
                 (String.length acc + 1 + S d) token ;;
     poke value1 (String.length acc + S d) " ")
    = Ok (cells acc ++ Some nul :: tail')%list
    /\ List.length tail' = List.length tail.
Proof.
  intro Lt.
  replace (cells acc ++ Some nul :: tail)%list
    with ((cells acc ++ [Some nul]) ++ tail)%list by now rewrite <- app_assoc.
  replace (String.length acc + 1 + S d)
    with (List.length (cells acc ++ [Some nul])%list + S d)
    by (rewrite length_app, cells_length; cbn; lia).
  rewrite store_token_shift.
  destruct (store_token_ok token tail (S d) Lt) as (tail1 & E1 & L1).
  rewrite E1. cbn [bind].
  replace (String.length acc + S d)
    with (List.length (cells acc ++ [Some nul])%list + d)
    by (rewrite length_app, cells_length; cbn; lia).
  rewrite poke_shift.
  destruct (poke_ok tail1 " " d) as (tail2 & E2 & L2); [lia|].
  rewrite E2. cbn [bind]. exists tail2. split; [|congruence].
  now rewrite <- app_assoc.
Qed.

Lemma bind_bind_Ok {A B C : Type} (r : Res A) (f : A -> Res B) (g : B -> Res C)
    (y : B) :
  bind r f = Ok y -> bind r (fun x => bind (f x) g) = g y.
Proof.
  destruct r as [x|]; cbn [bind]; [|discriminate]. intro E. now rewrite E.
Qed.

Lemma ccstrlist_rest_spec (fuel : nat) :
  forall (line : string) (total : nat) (acc : string) (tail : Buffer) (d : nat),
    String.length line <= fuel ->
    String.length line + d <= List.length tail ->
    all_chars not_nul acc = true ->
    let tokens := list_tokens fuel line in
    let text := if Nat.eqb d 0 then join_blank acc (kept_tokens tokens) else acc in
    exists tail',
      ccstrlist_rest fuel line total (cells acc ++ Some nul :: tail)%list
        (String.length acc + 1 + d) (String.length acc + d)
      = Ok (total + bytes_of tokens, (cells text ++ Some nul :: tail')%list)
      /\ all_chars not_nul text = true.
Proof.
  induction fuel as [|fuel IH]; intros line total acc tail d Fuel Room Clean.
  - destruct line; [|cbn in Fuel; lia]. cbn. rewrite Nat.add_0_r.
    exists tail. destruct (Nat.eqb d 0); split; auto.
  - cbn [ccstrlist_rest list_tokens].
    destruct (sscanf_blank_token is_list_char line) as [[token n]|] eqn:Tok.
    + destruct (sscanf_blank_token_inv _ _ _ _ Tok) as (gap & Gap & -> & Le & Chars).
      replace (gap + String.length token - String.length token) with gap by lia.
      cbn [kept_tokens bytes_of].
      assert (all_chars not_nul token = true) as CleanT
        by exact (all_chars_impl _ _ _ list_char_not_nul Chars).
      destruct d as [|d].
      * rewrite (bind_bind_Ok _ _ _ _ (ccstrlist_step_in_place acc token tail ltac:(lia))).
        cbn [bind Nat.eqb join_blank].
        set (acc' := acc ++ " " ++ token).
        assert (String.length acc' = String.length acc + 1 + String.length token) as La.
        { unfold acc'. rewrite !length_append. cbn. lia. }
        replace (String.length acc + 1 + 0 + (gap + String.length token))
          with (String.length acc' + 1 + (gap - 1)) by lia.
        replace (String.length acc' + 1 + (gap - 1) - 1)
          with (String.length acc' + (gap - 1)) by lia.
        destruct (IH (drop (gap + String.length token) line)
                    (total + (gap + String.length token)) acc'
                    (skipn (S (String.length token)) tail) (gap - 1))
          as (tail' & Run & Clean').
        { rewrite length_drop. lia. }
        { rewrite length_drop, length_skipn. lia. }
        { unfold acc'. apply all_chars_append; [exact Clean|].
          apply all_chars_append; [reflexivity | exact CleanT]. }
        exists tail'. rewrite Run.
        assert (Nat.eqb (gap - 1) 0 = Nat.eqb gap 1) as G.
        { destruct gap as [|[|gap]]; [lia | reflexivity | reflexivity]. }
        rewrite G in *. split.
        -- f_equal. f_equal; [lia|].
           destruct (Nat.eqb gap 1); reflexivity.
        -- destruct (Nat.eqb gap 1); exact Clean'.
      * destruct (ccstrlist_step_adrift acc token tail d) as (tail1 & Step & L1); [lia|].
        rewrite (bind_bind_Ok _ _ _ _ Step). cbn [bind Nat.eqb].
        replace (String.length acc + 1 + S d + (gap + String.length token))
          with (String.length acc + 1 + (S d + gap + String.length token)) by lia.
        replace (String.length acc + 1 + (S d + gap + String.length token) - 1)
          with (String.length acc + (S d + gap + String.length token)) by lia.
        destruct (IH (drop (gap + String.length token) line)
                    (total + (gap + String.length token)) acc tail1
                    (S d + gap + String.length token))
          as (tail' & Run & Clean').
        { rewrite length_drop. lia. }
        { rewrite length_drop, L1. lia. }
        { exact Clean. }
        exists tail'. rewrite Run. cbn [Nat.add Nat.eqb] in *. split.
        -- f_equal. f_equal. lia.
        -- exact Clean'.
    + cbn [bytes_of kept_tokens join_blank]. rewrite Nat.add_0_r.
      exists tail. destruct (Nat.eqb d 0); split; auto.
Qed.

Lemma kept_all (tokens : list (nat * string)) :
  Forall (fun t => fst t = 1) tokens -> kept_tokens tokens = map snd tokens.
Proof.
  induction 1 as [|[gap token] tokens G _ IH]; [reflexivity|].
  cbn in G. subst gap. cbn. now rewrite IH.
Qed.

Lemma kept_prefix (tokens : list (nat * string)) :
  exists lost, map snd tokens = (kept_tokens tokens ++ lost)%list.
Proof.
  induction tokens as [|[gap token] tokens [lost IH]]; [now exists []|].
  cbn. destruct (Nat.eqb gap 1).
  - exists lost. now rewrite IH.
  - now exists (map snd tokens).
Qed.

(** X19. The ccstrlist branch never fails and reads every token of the
    list, but the string it builds holds the first token and then the
    tokens of the loop only up to the first one that follows a blank run
    wider than one character: that run leaves the terminator of the
    last token in place.  When every run is one blank wide the string is
    the whole list joined by single blanks, and in every case the tokens
    kept are a prefix of the tokens read. *)
Theorem X19_ccstrlist_value :
  forall (line : string) (total : nat),
    scan_ccstrlist line total
    = match sscanf_token is_list_char line with
      | None => Ok None
      | Some (first, bytes_read) =>
        let tokens := list_tokens (String.length line) (drop bytes_read line) in
        Ok (Some (join_blank first (kept_tokens tokens),
                  total + bytes_read + bytes_of tokens))
      end
    /\ (forall tokens,
          Forall (fun t => fst t = 1) tokens -> kept_tokens tokens = map snd tokens)
    /\ (forall tokens,
          exists lost, map snd tokens = (kept_tokens tokens ++ lost)%list).
Proof.
  intros line total.
  split; [|split; [exact kept_all | exact kept_prefix]].
  unfold scan_ccstrlist.
  destruct (sscanf_token is_list_char line) as [[first n]|] eqn:Tok; [|reflexivity].
  assert (all_chars not_nul first = true) as Clean.
  { assert (first = scanset is_list_char 255 line) as ->.
    { unfold sscanf_token in Tok. destruct (is_empty _); [discriminate | congruence]. }
    exact (all_chars_impl _ _ _ list_char_not_nul (scanset_all_chars _ _ _)). }
  pose proof (sscanf_token_bytes _ _ _ _ Tok) as (-> & Pos & Le).
  rewrite store_token_head
    by (unfold NEW_RESOURCE_ARRAY; rewrite repeat_length; lia).
  cbn [bind].
  replace (String.length first + 1 - 1) with (String.length first + 0) by lia.
  destruct (ccstrlist_rest_spec (String.length line) (drop (String.length first) line)
              (total + String.length first) first
              (skipn (S (String.length first))
                 (NEW_RESOURCE_ARRAY (String.length line + 1))) 0)
    as (tail' & Run & Clean').
  { rewrite length_drop. lia. }
  { rewrite length_drop, length_skipn. unfold NEW_RESOURCE_ARRAY.
    rewrite repeat_length. lia. }
  { exact Clean. }
  replace (String.length first + 1 + 0) with (String.length first + 1) in Run by lia.
  rewrite Run. cbn [bind Nat.eqb] in *. rewrite c_str_cells by exact Clean'.
  reflexivity.
Qed.

(** *** Blanks before a value *)

Lemma scanset_prefix (p : ascii -> bool) (w : nat) (a b : string) :
  all_chars p a = true ->
  scanset p (String.length a + w) (a ++ b) = a ++ scanset p w b.
Proof.
  induction a as [|c a IH]; [reflexivity|]. cbn [all_chars].
  intro A. apply andb_true_iff in A. destruct A as [C A].
  cbn. rewrite C. now rewrite IH.
Qed.

Lemma drop_plus (a b : string) (k : nat) :
  drop (String.length a + k) (a ++ b) = drop k b.
Proof. induction a as [|c a IH]; [reflexivity | exact IH]. Qed.

Lemma skip_whitespace_append (blanks line : string) :
  all_chars is_blank blanks = true ->
  skip_whitespace (blanks ++ line) = String.length blanks + skip_whitespace line.
Proof.
  intro B. unfold skip_whitespace, scanset_all.
  now rewrite length_append, scanset_prefix, length_append.
Qed.

Lemma scanset_rest_stops (p : ascii -> bool) :
  forall (w : nat) (s : string),
    String.length s <= w ->
    stops p (drop (String.length (scanset p w s)) s) = true.
Proof.
  induction w as [|w IH]; intros [|c s] Le; try reflexivity; [cbn in Le; lia|].
  cbn [scanset]. destruct (p c) eqn:C.
  - cbn [String.length drop]. apply IH. cbn in Le. lia.
  - cbn. now rewrite C.
Qed.

(** X20. What [skip_whitespace] leaves does not start with a blank or a
    tab, so skipping again moves nothing; and [scan_value] on a text with
    more blanks and tabs in front reads the same value and links the same
    record, counting the extra characters as read. *)
Theorem X20_blanks_before_a_value :
  forall (blanks line : string) (type : OptionType.t) (total : nat)
         (matcher : option TypedMethodOptionMatcher) (cc_option : CompileCommand.t)
         (buf_size : nat) (st : State),
    stops is_blank (drop (skip_whitespace line) line) = true
    /\ skip_whitespace (drop (skip_whitespace line) line) = 0
    /\ (all_chars is_blank blanks = true ->
        scan_value type (At (blanks ++ line)) total matcher cc_option buf_size st
        = scan_value type (At line) (total + String.length blanks) matcher cc_option
            buf_size st).
Proof.
  intros blanks line type total matcher cc buf_size st.
  assert (stops is_blank (drop (skip_whitespace line) line) = true) as Stop
    by (apply scanset_rest_stops; lia).
  split; [exact Stop | split].
  - unfold skip_whitespace at 1. unfold scanset_all.
    now rewrite scanset_stops.
  - intro B. unfold scan_value. cbn [deref bind].
    rewrite skip_whitespace_append by exact B.
    rewrite drop_plus, Nat.add_assoc. reflexivity.
Qed.

(** *** [should_print_methods] *)

Lemma has_option_value_true {T : Type} `{OptionValue T} (method : methodHandle)
    (option : CompileCommand.t) (v v' : T) (verify : bool) (st : State) :
  has_option_value method option v verify st = Ok (true, v') ->
  exists m, first_match (option_list st) method option m.
Proof.
  unfold has_option_value.
  assert (match option_list st with
          | [] => Ok (false, v)
          | _ =>
            match match_ (option_list st) method option
                    (stored_type (command2types option)) with
            | Some m => v' <- value (_u m) ;; Ok (true, v')
            | None => Ok (false, v)
            end
          end = Ok (true, v') ->
          exists m, first_match (option_list st) method option m) as Lookup.
  { destruct (option_list st) as [|r store] eqn:S; [discriminate|].
    destruct (match_ _ _ _ _) as [m|] eqn:M; [|discriminate].
    intros _. exists m. eapply match_Some. exact M. }
  destruct verify, (negb _); try discriminate; exact Lookup.
Qed.

(** X21. [should_print_methods] is true exactly when the chain holds a
    print record.  It covers [should_print]: when [should_print] answers
    true for some target [should_print_methods] is true, and when
    [should_print_methods] is false and print is registered as bool
    [should_print] answers false for every target. *)
Theorem X21_should_print_methods_covers_should_print :
  forall (st : State),
    (should_print_methods st = true
     <-> exists m, In m (option_list st) /\ _option m = CompileCommand.Print)
    /\ (forall method,
           should_print method st = Ok true -> should_print_methods st = true)
    /\ (forall method,
           command2types CompileCommand.Print = OptionType.Bool ->
           should_print_methods st = false ->
           should_print method st = Ok false).
Proof.
  intro st. unfold should_print_methods, has_command, should_print, check_predicate.
  split; [apply has_command_from_In | split].
  - intros method.
    destruct (has_option_value method CompileCommand.Print false verify_type_default st)
      as [[found b]|] eqn:E; cbn [bind fst snd]; [|discriminate].
    destruct found; [|discriminate]. intros _.
    apply has_option_value_true in E.
    destruct E as (m & newer & older & Store & [K _] & _).
    apply has_command_from_In. exists m. split; [|exact K].
    rewrite Store. apply in_or_app. right. now left.
  - intros method Ty No.
    assert (forall m, In m (option_list st) -> ~ accepts method CompileCommand.Print m)
      as None.
    { intros m I [K _].
      assert (has_command_from (option_list st) CompileCommand.Print = true) as Yes
        by (apply has_command_from_In; eauto).
      congruence. }
    rewrite has_option_value_typed by (rewrite Ty; reflexivity).
    apply (match_None _ _ _ (stored_type (command2types CompileCommand.Print))) in None.
    rewrite None. reflexivity.
Qed.

End Oracle.

(** ** Runs on the sample configuration *)

Local Notation "'sample_parse_from_line'" :=
  (parse_from_line Sample.parse_method_pattern_base Sample.commands
     Sample.command_names Sample.command2types Sample.command2variant
     Sample.optiontype_names true Sample.sscanf_intx Sample.sscanf_uintx)
  (at level 0).

Local Notation "'sample_scan_value'" :=
  (scan_value Sample.command_names Sample.command2types Sample.optiontype_names
     true Sample.sscanf_intx Sample.sscanf_uintx)
  (at level 0).

Local Notation "'sample_option_clause'" :=
  (option_clause Sample.commands Sample.command_names Sample.command2types
     Sample.optiontype_names true Sample.sscanf_intx Sample.sscanf_uintx)
  (at level 0).

Local Notation "'sample_parse_compile_only'" :=
  (parse_compile_only Sample.command2types true false false)
  (at level 0).

Local Notation "'sample_add'" :=
  (add_option_string Sample.command2types true)
  (at level 0).

Local Notation "'sample_match'" :=
  (match_ Sample.methodHandle Sample.matches)
  (at level 0).

Local Notation "'sample_should_exclude'" :=
  (should_exclude Sample.methodHandle Sample.matches Sample.command2types false)
  (at level 0).

Local Notation "'sample_should_log'" :=
  (should_log Sample.methodHandle Sample.matches Sample.command2types)
  (at level 0).

Local Notation "'sample_accepts'" :=
  (accepts Sample.methodHandle Sample.matches)
  (at level 0).

(** Two exclude records that both accept Foo.bar: the query returns the
    one inserted last. *)
Lemma C1_witness :
  exists st1 st2,
    sample_add (Some (Sample.pattern "*" "bar")) CompileCommand.Exclude true initial_state
    = Ok st1
    /\ sample_add (Some (Sample.pattern "Foo" "bar")) CompileCommand.Exclude false st1
       = Ok st2
    /\ sample_match (option_list st2) Sample.foo_bar CompileCommand.Exclude OptionType.Bool
       = Some (Sample.bool_record "Foo" "bar" CompileCommand.Exclude false).
Proof.
  eexists. eexists. split; [reflexivity|]. split; [reflexivity|].
  exact (proj2 (proj2 (proj2 (C1_match_returns_most_recent Sample.methodHandle
                                Sample.matches Sample.command2types true initial_state
                                Sample.foo_bar CompileCommand.Exclude OptionType.Bool))
                  bool _ (Sample.pattern "*" "bar") (Sample.pattern "Foo" "bar")
                  true false _ _ eq_refl eq_refl eq_refl eq_refl)).
Defined.

(** The ccstrlist value "a  b c" is stored as "a b". *)
Lemma C2_witness :
  exists st',
    sample_scan_value OptionType.Ccstrlist (At "a  b c") 0
      (Some (Sample.pattern "Foo" "bar")) (CompileCommand.Custom 4) 1024 initial_state
    = Ok (mkScanned st' 6 EmptyString)
    /\ links Sample.command2types (Sample.pattern "Foo" "bar") (CompileCommand.Custom 4)
         "a b" initial_state st'.
Proof.
  exact (proj2 (C2_ccstrlist_wide_gap_loses_tokens Sample.command_names
                  Sample.command2types Sample.optiontype_names true
                  Sample.sscanf_intx Sample.sscanf_uintx
                  (Sample.pattern "Foo" "bar") (CompileCommand.Custom 4) 1024
                  initial_state eq_refl)).
Defined.



(** An exclude record with value false accepts Foo.bar, and
    [should_exclude] answers false.  The line
    "option,Foo.bar,bool,exclude,false" builds that store. *)
Lemma C4_counterexample :
  sample_should_exclude Sample.foo_bar Sample.excluded_false = Ok false
  /\ (exists m, In m (option_list Sample.excluded_false)
                /\ sample_accepts Sample.foo_bar CompileCommand.Exclude m)
  /\ exists st,
       sample_parse_from_line "option,Foo.bar,bool,exclude,false" initial_state = Ok st
       /\ option_list st = option_list Sample.excluded_false
       /\ any_set st = any_set Sample.excluded_false.
Proof.
  split; [reflexivity | split].
  - eexists. split; [left; reflexivity | split; reflexivity].
  - eexists. split; [vm_compute; reflexivity | split; reflexivity].
Qed.

Lemma C4_witness :
  sample_should_exclude Sample.foo_bar
    (mkState [Sample.bool_record "Foo" "bar" CompileCommand.Exclude true] true false [])
  = Ok true.
Proof.
  assert (forall option,
             holds_bools option
               (mkState [Sample.bool_record "Foo" "bar" CompileCommand.Exclude true]
                  true false [])) as Hb.
  { intros option m [<- | []] _. exists true. reflexivity. }
  apply (proj1 (proj2 (C4_should_exclude_by_first_value Sample.methodHandle
                         Sample.matches Sample.command2types false Sample.foo_bar _
                         eq_refl eq_refl (Hb _) (Hb _)))).
  left. exists (Sample.bool_record "Foo" "bar" CompileCommand.Exclude true).
  split; [|reflexivity].
  exists [], []. split; [reflexivity | split; [split; reflexivity|]].
  intros x [].
Defined.



(** " true" for the bool option ReplayInline links a record with value
    true and counts five bytes. *)
Lemma C6_witness :
  exists st',
    sample_scan_value OptionType.Bool (At " true") 0 (Some (Sample.pattern "Foo" "bar"))
      (CompileCommand.Custom 0) 1024 initial_state
    = Ok (mkScanned st' 5 EmptyString)
    /\ links Sample.command2types (Sample.pattern "Foo" "bar") (CompileCommand.Custom 0)
         true initial_state st'.
Proof.
  exact (proj1 (proj2 (C6_bool_value_scan Sample.command_names Sample.command2types
                         Sample.optiontype_names true Sample.sscanf_intx
                         Sample.sscanf_uintx " true" 0 (Sample.pattern "Foo" "bar")
                         (CompileCommand.Custom 0) 1024 initial_state eq_refl
                         (proj1 (Nat.leb_le 2 1024) eq_refl)))
           eq_refl).
Defined.

(** Asking for an [intx] value of the bool kind exclude. *)
Lemma C7_witness :
  has_option_value Sample.methodHandle Sample.matches Sample.command2types
    Sample.foo_bar CompileCommand.Exclude 7%Z true Sample.excluded_false
  = Ok (false, 7%Z)
  /\ has_option_value Sample.methodHandle Sample.matches Sample.command2types
       Sample.foo_bar CompileCommand.Exclude 7%Z false Sample.excluded_false
     = Fail (AssertionFailure "Value type must match command type").
Proof.
  apply (C7_type_mismatch_lenient_and_strict Sample.methodHandle Sample.matches
           Sample.command2types Z _ Sample.foo_bar CompileCommand.Exclude 7%Z
           Sample.excluded_false).
  discriminate.
Defined.

(** LogCompilation is on, a log record with value false accepts Foo.bar,
    and [should_log] answers false.  The line
    "option,Foo.bar,bool,log,false" builds that store. *)
Lemma C8_counterexample :
  sample_should_log true false Sample.foo_bar Sample.logged_false = Ok false
  /\ (exists m, In m (option_list Sample.logged_false)
                /\ sample_accepts Sample.foo_bar CompileCommand.Log m)
  /\ exists st,
       sample_parse_from_line "option,Foo.bar,bool,log,false" initial_state = Ok st
       /\ option_list st = option_list Sample.logged_false
       /\ any_set st = any_set Sample.logged_false.
Proof.
  split; [reflexivity | split].
  - eexists. split; [left; reflexivity | split; reflexivity].
  - eexists. split; [vm_compute; reflexivity | split; reflexivity].
Qed.

Lemma C8_witness :
  sample_should_log false false Sample.foo_bar Sample.logged_false = Ok false
  /\ sample_should_log true false Sample.foo_bar
       (mkState [Sample.bool_record "Foo" "bar" CompileCommand.Log true] false false [])
     = Ok true.
Proof.
  split.
  - exact (proj1 (C8_should_log_by_first_value Sample.methodHandle Sample.matches
                    Sample.command2types false false Sample.foo_bar
                    Sample.logged_false) eq_refl).
  - assert (holds_bools CompileCommand.Log
              (mkState [Sample.bool_record "Foo" "bar" CompileCommand.Log true]
                 false false [])) as Hb.
    { intros m [<- | []] _. exists true. reflexivity. }
    apply (proj1 (proj2 (proj2 (C8_should_log_by_first_value Sample.methodHandle
                                  Sample.matches Sample.command2types true false
                                  Sample.foo_bar _) eq_refl Hb))).
    split; [reflexivity | right].
    exists (Sample.bool_record "Foo" "bar" CompileCommand.Log true).
    split; [|reflexivity].
    exists [], []. split; [reflexivity | split; [split; reflexivity|]].
    intros x [].
Defined.

(** Inline, DontInline and Log records leave the flag false; a Print
    record after them raises it. *)
Lemma C9_witness :
  (exists st,
      add_all Sample.command2types true
        [ add_request bool _ (Sample.pattern "Foo" "bar") CompileCommand.Inline true;
          add_request bool _ (Sample.pattern "Foo" "*") CompileCommand.DontInline true;
          add_request bool _ (Sample.pattern "*" "bar") CompileCommand.Log true ]
        initial_state = Ok st
      /\ has_any_option st = false)
  /\ (exists st,
         add_all Sample.command2types true
           [ add_request bool _ (Sample.pattern "Foo" "bar") CompileCommand.Inline true;
             add_request bool _ (Sample.pattern "Foo" "bar") CompileCommand.Print true ]
           initial_state = Ok st
         /\ has_any_option st = true).
Proof.
  split.
  - destruct (proj1 (proj2 (C9_any_set_tracks_consequential_kinds
                              Sample.parse_method_pattern_base Sample.commands
                              Sample.command_names Sample.command2types
                              Sample.command2variant Sample.optiontype_names
                              true false false Sample.sscanf_intx Sample.sscanf_uintx))
               [ add_request bool _ (Sample.pattern "Foo" "bar") CompileCommand.Inline true;
                 add_request bool _ (Sample.pattern "Foo" "*") CompileCommand.DontInline true;
                 add_request bool _ (Sample.pattern "*" "bar") CompileCommand.Log true ])
      as (st & E & _ & A).
    + repeat constructor.
    + exists st. split; [exact E|].
      destruct (has_any_option st); [|reflexivity].
      destruct (proj1 A eq_refl) as (r & [<- | [<- | [<- | []]]] & S); discriminate S.
  - destruct (proj1 (proj2 (C9_any_set_tracks_consequential_kinds
                              Sample.parse_method_pattern_base Sample.commands
                              Sample.command_names Sample.command2types
                              Sample.command2variant Sample.optiontype_names
                              true false false Sample.sscanf_intx Sample.sscanf_uintx))
               [ add_request bool _ (Sample.pattern "Foo" "bar") CompileCommand.Inline true;
                 add_request bool _ (Sample.pattern "Foo" "bar") CompileCommand.Print true ])
      as (st & E & _ & A).
    + repeat constructor.
    + exists st. split; [exact E|]. apply A.
      eexists. split; [right; left; reflexivity | reflexivity].
Defined.

(** A comment line and the empty line change nothing. *)
Lemma C10_witness :
  sample_parse_from_line "# exclude,Foo.bar" Sample.excluded_false
  = Ok Sample.excluded_false
  /\ sample_parse_from_line EmptyString Sample.excluded_false = Ok Sample.excluded_false.
Proof.
  split;
    apply (C10_comment_lines_are_skipped Sample.parse_method_pattern_base
             Sample.commands Sample.command_names Sample.command2types
             Sample.command2variant Sample.optiontype_names true
             Sample.sscanf_intx Sample.sscanf_uintx).
  - right. exists " exclude,Foo.bar". reflexivity.
  - left. reflexivity.
Defined.

(** *** Runs for the properties beyond the claims *)

Local Notation "'sample_lookup'" :=
  (has_option_value Sample.methodHandle Sample.matches Sample.command2types)
  (at level 0).

Local Notation "'sample_reachable'" :=
  (reachable Sample.parse_method_pattern_base Sample.commands Sample.command_names
     Sample.command2types Sample.command2variant Sample.optiontype_names
     true false false Sample.sscanf_intx Sample.sscanf_uintx)
  (at level 0).

(** The value 7 written for MaxNodeLimit on Foo.bar is read back. *)
Lemma X1_witness :
  exists st',
    sample_add (Some (Sample.pattern "Foo" "bar")) (CompileCommand.Custom 1) 7%Z
      initial_state = Ok st'
    /\ sample_lookup Sample.foo_bar (CompileCommand.Custom 1) 0%Z false st' = Ok (true, 7%Z).
Proof.
  eexists. split; [reflexivity|].
  exact (X1_lookup_after_add Sample.methodHandle Sample.matches Sample.command2types
           true Z _ (Sample.pattern "Foo" "bar") (CompileCommand.Custom 1) 7%Z 0%Z
           Sample.foo_bar false initial_state _ lawful_intx eq_refl eq_refl).
Defined.

(** An exclude record for Baz.qux changes no answer for Foo.bar. *)
Lemma X2_witness :
  exists st',
    sample_add (Some (Sample.pattern "Baz" "qux")) CompileCommand.Exclude true
      Sample.excluded_false = Ok st'
    /\ sample_lookup Sample.foo_bar CompileCommand.Exclude true false st'
       = sample_lookup Sample.foo_bar CompileCommand.Exclude true false
           Sample.excluded_false.
Proof.
  eexists. split; [reflexivity|].
  exact (X2_other_records_do_not_interfere Sample.methodHandle Sample.matches
           Sample.command2types true bool bool _ _ (Sample.pattern "Baz" "qux")
           CompileCommand.Exclude CompileCommand.Exclude true true Sample.foo_bar
           false Sample.excluded_false _ eq_refl (or_intror eq_refl)).
Defined.

(** The empty store holds no value. *)
Lemma X3_witness :
  sample_lookup Sample.foo_bar CompileCommand.Exclude true false initial_state
  = Ok (false, true).
Proof.
  apply (X3_absent_value Sample.methodHandle Sample.matches Sample.command2types
           bool _ Sample.foo_bar CompileCommand.Exclude true false initial_state).
  - reflexivity.
  - intros m [].
Defined.

Lemma X4_witness :
  exists b,
    has_option Sample.methodHandle Sample.matches Sample.command2types false
      Sample.foo_bar CompileCommand.Exclude Sample.excluded_false = Ok b
    /\ (b = true
        <-> exists m,
              first_match Sample.methodHandle Sample.matches
                (option_list Sample.excluded_false) Sample.foo_bar
                CompileCommand.Exclude m
              /\ _u m = bool_value true).
Proof.
  apply (proj2 (proj2 (proj2 (proj2
           (X4_has_option_is_first_value Sample.methodHandle Sample.matches
              Sample.command2types false Sample.foo_bar CompileCommand.Exclude
              Sample.excluded_false))))).
  - reflexivity.
  - intros m [<- | []] _. exists false. reflexivity.
Defined.

(** Foo.bar is excluded with the value true: it is not inlined. *)
Lemma X5_witness :
  should_not_inline Sample.methodHandle Sample.matches Sample.command2types false
    Sample.foo_bar
    (mkState [Sample.bool_record "Foo" "bar" CompileCommand.Exclude true] true false [])
  = Ok true.
Proof.
  assert (forall option,
             holds_bools option
               (mkState [Sample.bool_record "Foo" "bar" CompileCommand.Exclude true]
                  true false [])) as Hb.
  { intros option m [<- | []] _. exists true. reflexivity. }
  apply (proj1 (proj2 (X5_should_not_inline Sample.methodHandle Sample.matches
                         Sample.command2types false Sample.foo_bar _
                         eq_refl eq_refl (Hb _) (Hb _)))).
  right. exists (Sample.bool_record "Foo" "bar" CompileCommand.Exclude true).
  split; [|reflexivity].
  exists [], []. split; [reflexivity | split; [split; reflexivity|]].
  intros x [].
Defined.

(** "exclude" is read back as the exclude command, also in front of a
    pattern. *)
Lemma X6_witness :
  string_to_option Sample.commands Sample.command_names "exclude"
  = CompileCommand.Exclude
  /\ parse_command_name Sample.commands Sample.command_names "exclude,Foo.bar"
     = (CompileCommand.Exclude, 7).
Proof.
  destruct (X6_command_name_round_trip Sample.commands Sample.command_names
              CompileCommand.Exclude) as [Name Line].
  - simpl. tauto.
  - intros c' I E. simpl in I.
    repeat (destruct I as [<- | I]; [try discriminate E; reflexivity|]).
    destruct I.
  - reflexivity.
  - simpl. lia.
  - split; [exact Name | exact (Line ",Foo.bar" eq_refl)].
Defined.

(** A line that starts with a comma, and the name "bogus". *)
Lemma X7_witness :
  parse_command_name Sample.commands Sample.command_names ",exclude"
  = (CompileCommand.Unknown, 0)
  /\ parse_command_name Sample.commands Sample.command_names "bogus,Foo.bar"
     = (CompileCommand.Unknown, 5).
Proof.
  destruct (X7_unknown_command_names Sample.commands Sample.command_names)
    as [Start Name].
  split; [exact (Start ",exclude" eq_refl)|].
  apply (Name "bogus" ",Foo.bar").
  - reflexivity.
  - simpl. lia.
  - reflexivity.
  - intros c I E. simpl in I.
    repeat (destruct I as [<- | I]; [discriminate E|]).
    destruct I.
Defined.

(** "3/14" is read as the decimal text "3.14". *)
Lemma X8_witness :
  exists st',
    sample_scan_value OptionType.Double (At "3/14") 0 (Some (Sample.pattern "Foo" "bar"))
      (CompileCommand.Custom 5) 1024 initial_state
    = Ok (mkScanned st' 4 EmptyString)
    /\ links Sample.command2types (Sample.pattern "Foo" "bar") (CompileCommand.Custom 5)
         (atof "3.14") initial_state st'.
Proof.
  apply (X8_double_value_scan Sample.command_names Sample.command2types
           Sample.optiontype_names true Sample.sscanf_intx Sample.sscanf_uintx
           "3" "/" "14" EmptyString 0 (Sample.pattern "Foo" "bar")
           (CompileCommand.Custom 5) 1024 initial_state);
    try reflexivity; simpl; lia.
Defined.

(** Two lines separated by a newline. *)
Lemma X9_witness :
  parse_from_string ("quiet" ++ String "010" "exclude,Foo.bar") sample_parse_from_line
    initial_state
  = parse_lines sample_parse_from_line ["quiet"; "exclude,Foo.bar"] initial_state.
Proof.
  apply (X9_parse_from_string_splits_lines sample_parse_from_line
           ("quiet" ++ String "010" "exclude,Foo.bar") initial_state).
  - reflexivity.
  - repeat constructor; simpl; lia.
Defined.

(** After 1023 characters without a newline the rest of the text is not
    parsed. *)
Lemma X10_witness :
  let long := string_of_list_ascii (repeat "a"%char 1023) in
  parse_from_string (long ++ String "010" "quiet") sample_parse_from_line initial_state
  = sample_parse_from_line long initial_state.
Proof.
  intro long.
  apply (X10_long_line_ends_the_parse sample_parse_from_line long
           (String "010" "quiet") initial_state);
    vm_compute; reflexivity.
Defined.

Lemma X11_witness :
  parse_from_file Sample.parse_method_pattern_base Sample.commands
    Sample.command_names Sample.command2types Sample.command2variant
    Sample.optiontype_names true Sample.sscanf_intx Sample.sscanf_uintx
    (Some ("quiet" ++ String "010" "exclude,Foo.bar")) initial_state
  = parse_from_string ("quiet" ++ String "010" "exclude,Foo.bar")
      sample_parse_from_line initial_state.
Proof.
  apply (proj2 (X11_file_is_parsed_like_a_string Sample.parse_method_pattern_base
                  Sample.commands Sample.command_names Sample.command2types
                  Sample.command2variant Sample.optiontype_names true
                  Sample.sscanf_intx Sample.sscanf_uintx initial_state)).
  reflexivity.
Defined.

(** The store after a text of two lines is one the lines can build, and
    [any_set] tells of its exclude record. *)
Lemma X12_witness :
  exists st',
    parse_from_string ("quiet" ++ String "010" "exclude,Foo.bar")
      sample_parse_from_line initial_state = Ok st'
    /\ sample_reachable st'
    /\ (has_any_option st' = true
        <-> exists m, In m (option_list st') /\ sets_any (_option m) = true).
Proof.
  eexists. split; [reflexivity|].
  apply (proj2 (X12_drivers_keep_invariants Sample.parse_method_pattern_base
                  Sample.commands Sample.command_names Sample.command2types
                  Sample.command2variant Sample.optiontype_names true false false
                  Sample.sscanf_intx Sample.sscanf_uintx)
           ("quiet" ++ String "010" "exclude,Foo.bar") initial_state).
  - apply reach_initial.
  - left. reflexivity.
Defined.

(** The clause " MaxNodeLimit 100" under the type intx links a record. *)
Lemma X13_witness :
  exists r,
    scan_flag_and_value Sample.commands Sample.command_names Sample.command2types
      Sample.optiontype_names true Sample.sscanf_intx Sample.sscanf_uintx
      OptionType.Intx " MaxNodeLimit 100" (Some (Sample.pattern "Foo" "bar")) 1024
      initial_state = Ok r
    /\ ((scanned_state r = initial_state /\ errorbuf r <> EmptyString)
        \/ (errorbuf r = EmptyString
            /\ exists m x w,
                 linked_one x w initial_state (scanned_state r)
                 /\ Some (Sample.pattern "Foo" "bar") = Some m
                 /\ well_typed Sample.command2types x
                 /\ base x = base m
                 /\ Sample.command2types (_option x) = OptionType.Intx
                 /\ In (_option x) Sample.commands)).
Proof.
  eexists. split; [reflexivity|].
  apply (X13_typed_clause_checks_the_type Sample.commands Sample.command_names
           Sample.command2types Sample.optiontype_names true Sample.sscanf_intx
           Sample.sscanf_uintx OptionType.Intx " MaxNodeLimit 100"
           (Some (Sample.pattern "Foo" "bar")) 1024 initial_state).
  - lia.
  - reflexivity.
Defined.

Lemma X14_witness :
  exists st' st'',
    sample_parse_from_line "exclude,Foo.bar" initial_state = Ok st'
    /\ evolves Sample.command2types initial_state st'
    /\ sample_parse_compile_only "Foo.bar" st' = Ok st''
    /\ adds_compile_only Sample.command2types st' st''.
Proof.
  eexists. eexists. split; [reflexivity|]. split; [|split; [reflexivity|]].
  - exact (proj1 (X14_parsers_only_extend_the_store Sample.parse_method_pattern_base
                    Sample.commands Sample.command_names Sample.command2types
                    Sample.command2variant Sample.optiontype_names true false false
                    Sample.sscanf_intx Sample.sscanf_uintx "exclude,Foo.bar"
                    initial_state _) eq_refl).
  - exact (proj2 (X14_parsers_only_extend_the_store Sample.parse_method_pattern_base
                    Sample.commands Sample.command_names Sample.command2types
                    Sample.command2variant Sample.optiontype_names true false false
                    Sample.sscanf_intx Sample.sscanf_uintx "Foo.bar" _ _) eq_refl).
Defined.

(** After the line "MaxNodeLimit,Foo.bar,100" the store is well typed and
    a query for the bool kind exclude returns. *)
Lemma X15_witness :
  exists st,
    sample_parse_from_line "MaxNodeLimit,Foo.bar,100" initial_state = Ok st
    /\ Forall (well_typed Sample.command2types) (option_list st)
    /\ exists b,
         check_predicate Sample.methodHandle Sample.matches Sample.command2types false
           CompileCommand.Exclude Sample.foo_bar st = Ok b.
Proof.
  eexists. split; [reflexivity|].
  destruct (X15_reachable_store_is_well_typed Sample.methodHandle Sample.matches
              Sample.parse_method_pattern_base Sample.commands Sample.command_names
              Sample.command2types Sample.command2variant Sample.optiontype_names
              true false false Sample.sscanf_intx Sample.sscanf_uintx false _
              (reach_line Sample.parse_method_pattern_base Sample.commands
                 Sample.command_names Sample.command2types Sample.command2variant
                 Sample.optiontype_names true false false Sample.sscanf_intx
                 Sample.sscanf_uintx "MaxNodeLimit,Foo.bar,100" initial_state _
                 (reach_initial _ _ _ _ _ _ _ _ _ _ _) eq_refl))
    as (W & _ & P).
  split; [exact W | exact (P CompileCommand.Exclude Sample.foo_bar eq_refl)].
Defined.

(** "exclude,Foo.bar": Foo.bar is then excluded. *)
Lemma X16_witness :
  exists st' out,
    sample_parse_from_line "exclude,Foo.bar" initial_state = Ok st'
    /\ linked_one
         (linked Sample.command2types (Sample.pattern "Foo" "bar")
            CompileCommand.Exclude true)
         out initial_state st'
    /\ forall method,
         Sample.matches (base (Sample.pattern "Foo" "bar")) method = true ->
         check_predicate Sample.methodHandle Sample.matches Sample.command2types false
           CompileCommand.Exclude method st' = Ok true.
Proof.
  apply (X16_basic_line_round_trip Sample.methodHandle Sample.matches
           Sample.parse_method_pattern_base Sample.commands Sample.command_names
           Sample.command2types Sample.command2variant Sample.optiontype_names true
           Sample.sscanf_intx Sample.sscanf_uintx false
           "exclude,Foo.bar" initial_state CompileCommand.Exclude 7
           (Sample.pattern "Foo" "bar") EmptyString).
  - intros [E | [rest E]]; discriminate E.
  - reflexivity.
  - repeat split; discriminate.
  - reflexivity.
  - reflexivity.
Defined.

(** "MaxNodeLimit,Foo.bar,100": the value 100 is read back for Foo.bar. *)
Lemma X17_witness :
  exists st' out,
    sample_parse_from_line "MaxNodeLimit,Foo.bar,100" initial_state = Ok st'
    /\ linked_one
         (linked Sample.command2types (Sample.pattern "Foo" "bar")
            (CompileCommand.Custom 1) 100%Z)
         out initial_state st'
    /\ forall method v0 verify,
         Sample.matches (base (Sample.pattern "Foo" "bar")) method = true ->
         sample_lookup method (CompileCommand.Custom 1) v0 verify st' = Ok (true, 100%Z).
Proof.
  destruct (X17_standard_number_line_round_trip Sample.methodHandle Sample.matches
              Sample.parse_method_pattern_base Sample.commands Sample.command_names
              Sample.command2types Sample.command2variant Sample.optiontype_names
              true Sample.sscanf_intx Sample.sscanf_uintx
              "MaxNodeLimit,Foo.bar,100" initial_state (CompileCommand.Custom 1) 12
              (Sample.pattern "Foo" "bar") " 100") as [Signed _].
  - intros [E | [rest E]]; discriminate E.
  - vm_compute. reflexivity.
  - repeat split; discriminate.
  - simpl. lia.
  - vm_compute. reflexivity.
  - apply (Signed 100%Z 3); vm_compute; reflexivity.
Defined.

(** A list that starts with a comma. *)
Lemma X18_witness :
  sample_parse_compile_only ",Foo.bar" initial_state = Fail ShouldNotReachHere.
Proof.
  exact (proj1 (X18_compile_only_empty_directive Sample.command2types true false false
                  "," "Foo.bar" initial_state (or_introl eq_refl))).
Defined.

(** "x y  z w": the tokens x, y and z are kept, w is read and lost. *)
Lemma X19_witness :
  scan_ccstrlist "x y  z w" 0 = Ok (Some ("x y z", 8))
  /\ kept_tokens [(1, "y"); (1, "z")] = ["y"; "z"].
Proof.
  destruct (X19_ccstrlist_value "x y  z w" 0) as (Value & All & _).
  split; [exact Value|].
  apply (All [(1, "y"); (1, "z")]). repeat constructor.
Defined.

(** Two more blanks in front of "true". *)
Lemma X20_witness :
  sample_scan_value OptionType.Bool (At "   true") 0 (Some (Sample.pattern "Foo" "bar"))
    (CompileCommand.Custom 0) 1024 initial_state
  = sample_scan_value OptionType.Bool (At " true") 2 (Some (Sample.pattern "Foo" "bar"))
      (CompileCommand.Custom 0) 1024 initial_state.
Proof.
  exact (proj2 (proj2 (X20_blanks_before_a_value Sample.command_names
                         Sample.command2types Sample.optiontype_names true
                         Sample.sscanf_intx Sample.sscanf_uintx "  " " true"
                         OptionType.Bool 0 (Some (Sample.pattern "Foo" "bar"))
                         (CompileCommand.Custom 0) 1024 initial_state))
           eq_refl).
Defined.

(** With a print record for Foo.bar some method is printed; on the empty
    store none is. *)
Lemma X21_witness :
  should_print_methods
    (mkState [Sample.bool_record "Foo" "bar" CompileCommand.Print true] true false [])
  = true
  /\ should_print Sample.methodHandle Sample.matches Sample.command2types false
       Sample.foo_bar initial_state = Ok false.
Proof.
  split.
  - exact (proj1 (proj2 (X21_should_print_methods_covers_should_print
                           Sample.methodHandle Sample.matches Sample.command2types
                           false
                           (mkState
                              [Sample.bool_record "Foo" "bar" CompileCommand.Print true]
                              true false [])))
             Sample.foo_bar eq_refl).
  - exact (proj2 (proj2 (X21_should_print_methods_covers_should_print
                           Sample.methodHandle Sample.matches Sample.command2types
                           false initial_state))
             Sample.foo_bar eq_refl eq_refl).
Defined.
